(** * alx-polly: the request-time rule layer

    A shallow embedding of the polling application's rule layer:
    the input validators ([input-validation.ts]), the server actions
    ([auth-actions.ts], [poll-actions.ts]), the Supabase client factory with
    its environment check, and the admin-route middleware
    ([admin-middleware.ts], [middleware.ts]).

    The TypeScript code is [async] code that talks to a hosted backend.  Each
    function is embedded as a finite tree of backend calls ([Prog]): a node
    is one awaited call, its children are indexed by the reply.  A tree is
    run against a [World], which holds the backend's tables, the caller's
    session, the process environment, the sanitizer and the client library's
    verdict on the credentials. *)

From Stdlib Require Import String Ascii DecimalString.
From Stdlib Require Import NArith ZArith Bool Arith Lia List Permutation.
Import ListNotations.

Set Implicit Arguments.

(* ================================================================= *)
(** ** JavaScript strings *)

(** A JavaScript string is a sequence of UTF-16 code units; [length] counts
    code units, as [String.prototype.length] does. *)
Definition jsstring := list N.

(** An ASCII literal of the source, as a JavaScript string. *)
Definition lit (s : string) : jsstring :=
  map N_of_ascii (list_ascii_of_string s).
Arguments lit s%_string.

Fixpoint str_eqb (a b : jsstring) : bool :=
  match a, b with
  | [], [] => true
  | x :: a', y :: b' => N.eqb x y && str_eqb a' b'
  | _, _ => false
  end.

(** [!s] for a string [s]: only the empty string is falsy. *)
Definition is_empty (s : jsstring) : bool :=
  match s with
  | [] => true
  | _ :: _ => false
  end.

(** [Boolean(s)] for a string [s]. *)
Definition Boolean (s : jsstring) : bool := negb (is_empty s).

(** ECMAScript [WhiteSpace] and [LineTerminator] code points, the ones
    [String.prototype.trim] removes.  All of them lie in the basic plane. *)
Definition is_white_space (c : N) : bool :=
  ((c =? 9) || (c =? 10) || (c =? 11) || (c =? 12) || (c =? 13)
   || (c =? 32) || (c =? 160) || (c =? 5760)
   || ((8192 <=? c) && (c <=? 8202))
   || (c =? 8232) || (c =? 8233) || (c =? 8239) || (c =? 8287)
   || (c =? 12288) || (c =? 65279))%N.

Fixpoint trimStart (s : jsstring) : jsstring :=
  match s with
  | [] => []
  | c :: s' => if is_white_space c then trimStart s' else s
  end.

Definition trimEnd (s : jsstring) : jsstring := rev (trimStart (rev s)).

(** [s.trim()] *)
Definition trim (s : jsstring) : jsstring := trimEnd (trimStart s).

(** [s.startsWith(prefix)] *)
Fixpoint startsWith (prefix s : jsstring) : bool :=
  match prefix, s with
  | [], _ => true
  | p :: prefix', c :: s' => N.eqb p c && startsWith prefix' s'
  | _ :: _, [] => false
  end.

(* ================================================================= *)
(** ** [new Set(array)] on strings *)

(** Membership under SameValueZero, which on strings is equality of the
    code-unit sequences (case-sensitive, exact). *)
Fixpoint Set_has (s : list jsstring) (x : jsstring) : bool :=
  match s with
  | [] => false
  | y :: s' => str_eqb y x || Set_has s' x
  end.

Definition Set_add (s : list jsstring) (x : jsstring) : list jsstring :=
  if Set_has s x then s else s ++ [x].

(** [new Set(xs)]: the elements in first-insertion order. *)
Definition Set_from (xs : list jsstring) : list jsstring :=
  fold_left Set_add xs [].

(** [set.size] *)
Definition Set_size (s : list jsstring) : nat := length s.

(* ================================================================= *)
(** ** [JSON.stringify] and [JSON.parse] on arrays of strings *)

Definition hex_digit (d : N) : N :=
  (if d <? 10 then 48 + d else 87 + d)%N.

(** [UnicodeEscape]: backslash, [u] and four lowercase hexadecimal digits. *)
Definition unicode_escape (c : N) : jsstring :=
  [92; 117;
   hex_digit (N.land (N.shiftr c 12) 15);
   hex_digit (N.land (N.shiftr c 8) 15);
   hex_digit (N.land (N.shiftr c 4) 15);
   hex_digit (N.land c 15)]%N.

Definition is_high_surrogate (c : N) : bool := ((55296 <=? c) && (c <=? 56319))%N.
Definition is_low_surrogate (c : N) : bool := ((56320 <=? c) && (c <=? 57343))%N.

(** The escape of one code unit that is not half of a surrogate pair. *)
Definition quote_unit (c : N) : jsstring :=
  (if c =? 8 then [92; 98]
   else if c =? 9 then [92; 116]
   else if c =? 10 then [92; 110]
   else if c =? 12 then [92; 102]
   else if c =? 13 then [92; 114]
   else if c =? 34 then [92; 34]
   else if c =? 92 then [92; 92]
   else if c <? 32 then unicode_escape c
   else if is_high_surrogate c || is_low_surrogate c then unicode_escape c
   else [c])%N.

(** The body of [QuoteJSONString]: a well-formed surrogate pair is copied,
    a lone surrogate is escaped. *)
Fixpoint quote_body (s : jsstring) : jsstring :=
  match s with
  | [] => []
  | c :: s' =>
      match s' with
      | d :: s'' =>
          if is_high_surrogate c && is_low_surrogate d
          then c :: d :: quote_body s''
          else quote_unit c ++ quote_body s'
      | [] => quote_unit c
      end
  end.

(** [QuoteJSONString] *)
Definition QuoteJSONString (s : jsstring) : jsstring :=
  [34%N] ++ quote_body s ++ [34%N].

Fixpoint join_comma (parts : list jsstring) : jsstring :=
  match parts with
  | [] => []
  | [p] => p
  | p :: rest => p ++ [44%N] ++ join_comma rest
  end.

(** [JSON.stringify(xs)] for an array of strings [xs] (no indentation). *)
Definition JSON_stringify (xs : list jsstring) : jsstring :=
  [91%N] ++ join_comma (map QuoteJSONString xs) ++ [93%N].

Definition hex_value (c : N) : option N :=
  (if (48 <=? c) && (c <=? 57) then Some (c - 48)
   else if (97 <=? c) && (c <=? 102) then Some (c - 87)
   else if (65 <=? c) && (c <=? 70) then Some (c - 55)
   else None)%N.

Definition hex4 (a b c d : N) : option N :=
  match hex_value a, hex_value b, hex_value c, hex_value d with
  | Some x, Some y, Some z, Some t => Some (x * 4096 + y * 256 + z * 16 + t)%N
  | _, _, _, _ => None
  end.

(** Where the reader of a JSON array of strings stands. *)
Inductive ParseMode : Type :=
| AtStart        (* nothing read *)
| AfterOpen      (* after the opening bracket *)
| InString       (* inside a string literal *)
| AfterString    (* after a closing quote *)
| AfterComma     (* after a comma *)
| AtEnd.         (* after the closing bracket *)

(** [JSON.parse(text)] on the texts that denote an array of strings written
    without insignificant white space, which is what [JSON.stringify]
    produces.  [None] stands for a text outside that fragment.  [cur] holds
    the string being read, reversed, and [done] the strings read so far,
    reversed. *)
Fixpoint parse_go (mode : ParseMode) (cur : jsstring) (done : list jsstring)
    (text : jsstring) : option (list jsstring) :=
  match text with
  | [] =>
      match mode with
      | AtEnd => Some (rev done)
      | _ => None
      end
  | c :: rest =>
      match mode with
      | AtStart => if (c =? 91)%N then parse_go AfterOpen [] done rest else None
      | AfterOpen =>
          if (c =? 93)%N then parse_go AtEnd [] done rest
          else if (c =? 34)%N then parse_go InString [] done rest
          else None
      | AfterComma => if (c =? 34)%N then parse_go InString [] done rest else None
      | AfterString =>
          if (c =? 93)%N then parse_go AtEnd [] done rest
          else if (c =? 44)%N then parse_go AfterComma [] done rest
          else None
      | AtEnd => None
      | InString =>
          if (c =? 34)%N then parse_go AfterString [] (rev cur :: done) rest
          else if (c =? 92)%N then
            match rest with
            | [] => None
            | e :: rest' =>
                if (e =? 34)%N then parse_go InString (34%N :: cur) done rest'
                else if (e =? 92)%N then parse_go InString (92%N :: cur) done rest'
                else if (e =? 47)%N then parse_go InString (47%N :: cur) done rest'
                else if (e =? 98)%N then parse_go InString (8%N :: cur) done rest'
                else if (e =? 102)%N then parse_go InString (12%N :: cur) done rest'
                else if (e =? 110)%N then parse_go InString (10%N :: cur) done rest'
                else if (e =? 114)%N then parse_go InString (13%N :: cur) done rest'
                else if (e =? 116)%N then parse_go InString (9%N :: cur) done rest'
                else if (e =? 117)%N then
                  match rest' with
                  | h1 :: h2 :: h3 :: h4 :: rest'' =>
                      match hex4 h1 h2 h3 h4 with
                      | Some u => parse_go InString (u :: cur) done rest''
                      | None => None
                      end
                  | _ => None
                  end
                else None
            end
          else if (c <? 32)%N then None
          else parse_go InString (c :: cur) done rest
      end
  end.

Definition JSON_parse (text : jsstring) : option (list jsstring) :=
  parse_go AtStart [] [] text.

(* ================================================================= *)
(** ** Data model *)

(** One entry of a poll's [options] column.  [createPoll] stores plain
    strings; the id-based [submitVote] and [types/index.ts] expect objects
    [{id, text, votes}]. *)
Record PollOption : Type := {
  opt_id : jsstring;
  opt_text : jsstring;
  opt_votes : option Z
}.

Inductive OptionJson : Type :=
| OptString (text : jsstring)
| OptObject (o : PollOption).

(** A row of the [polls] table ([Poll] in [types/index.ts]). *)
Record PollRow : Type := {
  p_id : jsstring;
  p_question : jsstring;
  p_description : option jsstring;
  p_options : list OptionJson;
  p_user_id : jsstring;
  p_created_at : jsstring;
  p_updated_at : option jsstring
}.

(** A row of the [votes] table.  The index-based [submitVote] fills
    [option_index], the id-based one [option_id]. *)
Record VoteRow : Type := {
  v_poll_id : jsstring;
  v_user_id : jsstring;
  v_option_index : option Z;
  v_option_id : option jsstring
}.

(** A row of the [user_roles] table. *)
Record RoleRow : Type := {
  r_user_id : jsstring;
  r_role : jsstring
}.

Record User : Type := {
  u_id : jsstring;
  u_email : jsstring
}.

Record Cookie : Type := {
  c_name : jsstring;
  c_value : jsstring;
  c_options : jsstring
}.

(** Errors the backend reports in the [error] field of a reply. *)
Record PostgrestError : Type := {
  pg_code : jsstring;
  pg_message : jsstring
}.

Record AuthError : Type := {
  auth_message : jsstring
}.

(** A JavaScript exception: [new Error(message)], a [TypeError], ... *)
Record JsError : Type := {
  js_name : jsstring;
  js_message : jsstring
}.

(** The reply [{data, error}] of a table query. *)
Record Reply (A : Type) : Type := {
  data : option A;
  reply_error : option PostgrestError
}.

(** The reply [{data: {user}, error}] of [auth.getUser()], together with the
    calls of the client's [setAll] cookie callback made while it ran (one
    list of cookies per call: the refreshed identity tokens). *)
Record UserReply : Type := {
  user : option User;
  userError : option AuthError;
  cookiesToSet : list (list Cookie)
}.

(** The client object returned by [createServerClient(url, key, ...)]. *)
Record Client : Type := {
  supabaseUrl : jsstring;
  supabaseAnonKey : jsstring
}.

Inductive Table : Type := polls_table | votes_table | user_roles_table.

(* ================================================================= *)
(** ** Programs: trees of awaited calls *)

(** Everything the rule layer asks of its surroundings.  The index is the
    type of the reply. *)
Inductive Call : Type -> Type :=
| ProcessEnv (key : jsstring) : Call (option jsstring)
    (* process.env[key] *)
| NextCookies : Call unit
    (* await cookies() *)
| CreateServerClient (supabaseUrl supabaseKey : jsstring) : Call (option JsError)
    (* createServerClient(supabaseUrl, supabaseKey, { cookies }): what it throws, if it does *)
| CreateBrowserClient (supabaseUrl supabaseKey : jsstring) : Call (option JsError)
    (* createBrowserClient(supabaseUrl, supabaseKey): what it throws, if it does *)
| DOMPurify_sanitize (dirty : jsstring) : Call jsstring
    (* DOMPurify.sanitize(dirty) *)
| RevalidatePath (path : jsstring) : Call unit
    (* revalidatePath(path) *)
| SignInWithPassword (c : Client) (email password : jsstring) : Call (option AuthError)
| SignUp (c : Client) (email password name : jsstring) : Call (option AuthError)
| SignOut (c : Client) : Call (option AuthError)
| GetUser (c : Client) : Call UserReply
    (* supabase.auth.getUser() *)
| SelectPoll (c : Client) (id : jsstring) : Call (Reply PollRow)
    (* from("polls").select("*").eq("id", id).single() *)
| SelectPollOptions (c : Client) (pollId : jsstring) : Call (Reply (list OptionJson))
    (* from("polls").select("options").eq("id", pollId).single() *)
| SelectUserPolls (c : Client) (userId : jsstring) : Call (Reply (list PollRow))
    (* from("polls").select("*").eq("user_id", userId).order("created_at", desc) *)
| InsertPoll (c : Client) (userId question : jsstring) (options : list jsstring)
    : Call (option PostgrestError)
    (* from("polls").insert([{user_id, question, options}]) *)
| UpdatePoll (c : Client) (pollId userId question : jsstring) (options : list jsstring)
    : Call (option PostgrestError)
    (* from("polls").update({question, options}).eq("id", pollId).eq("user_id", userId) *)
| UpdatePollOptions (c : Client) (pollId : jsstring) (options : list OptionJson)
    : Call (option PostgrestError)
    (* from("polls").update({options}).eq("id", pollId) *)
| DeletePoll (c : Client) (id userId : jsstring) : Call (option PostgrestError)
    (* from("polls").delete().eq("id", id).eq("user_id", userId) *)
| SelectVote (c : Client) (pollId userId : jsstring) : Call (Reply VoteRow)
    (* from("votes").select().eq("poll_id", pollId).eq("user_id", userId).single() *)
| InsertVote (c : Client) (v : VoteRow) : Call (option PostgrestError)
    (* from("votes").insert([v]) *)
| SelectRole (c : Client) (userId : jsstring) : Call (Reply jsstring).
    (* from("user_roles").select("role").eq("user_id", userId).single() *)

(** An [async] function returning an [R]: it returns, throws, or awaits a
    call and goes on with the reply. *)
Inductive Prog (R : Type) : Type :=
| Ret (r : R)
| Throw (e : JsError)
| Vis (X : Type) (c : Call X) (k : X -> Prog R).

Arguments Ret {R} r.
Arguments Throw {R} e.
Arguments Vis {R X} c k.

Fixpoint bind {A B : Type} (p : Prog A) (f : A -> Prog B) : Prog B :=
  match p with
  | Ret a => f a
  | Throw e => Throw e
  | Vis c k => Vis c (fun x => bind (k x) f)
  end.

Definition call {X : Type} (c : Call X) : Prog X := Vis c (fun x => Ret x).

(** [try { p } catch (e) { handler e }] *)
Fixpoint try_catch {A : Type} (p : Prog A) (handler : JsError -> Prog A) : Prog A :=
  match p with
  | Ret a => Ret a
  | Throw e => handler e
  | Vis c k => Vis c (fun x => try_catch (k x) handler)
  end.

Declare Scope prog_scope.
Delimit Scope prog_scope with prog.
Notation "x <- p ;; q" := (bind p (fun x => q))
  (at level 61, p at next level, right associativity) : prog_scope.
Notation "'await' x <- c ;; q" := (Vis c (fun x => q))
  (at level 61, x name, c at next level, right associativity) : prog_scope.
Open Scope prog_scope.

(** [array.map(f)] for an [f] that makes calls, left to right. *)
Fixpoint mapM {A B : Type} (f : A -> Prog B) (xs : list A) : Prog (list B) :=
  match xs with
  | [] => Ret []
  | x :: xs' => y <- f x ;; ys <- mapM f xs' ;; Ret (y :: ys)
  end.

(* ================================================================= *)
(** ** [input-validation.ts] *)

Record ValidationResult : Type := {
  isValid : bool;
  error : option jsstring;
  sanitizedValue : option jsstring
}.

Definition invalid (message : jsstring) : ValidationResult :=
  {| isValid := false; error := Some message; sanitizedValue := None |}.

Definition valid (sanitized : jsstring) : ValidationResult :=
  {| isValid := true; error := None; sanitizedValue := Some sanitized |}.

Definition validateQuestion (question : jsstring) : Prog ValidationResult :=
  let trimmedQuestion := trim question in
  if is_empty trimmedQuestion then
    Ret (invalid (lit "Poll question cannot be empty"))
  else if length trimmedQuestion <? 5 then
    Ret (invalid (lit "Poll question must be at least 5 characters long"))
  else if 200 <? length trimmedQuestion then
    Ret (invalid (lit "Poll question cannot exceed 200 characters"))
  else
    await sanitizedQuestion <- DOMPurify_sanitize trimmedQuestion ;;
    Ret (valid sanitizedQuestion).

Definition validateOptions (options : list jsstring) : Prog ValidationResult :=
  let filteredOptions := filter Boolean (map trim options) in
  if length filteredOptions <? 2 then
    Ret (invalid (lit "Poll must have at least 2 non-empty options"))
  else
    let uniqueOptions := Set_from filteredOptions in
    if negb (Set_size uniqueOptions =? length filteredOptions) then
      Ret (invalid (lit "Poll options must be unique"))
    else if existsb (fun option => 100 <? length option) filteredOptions then
      Ret (invalid (lit "Poll options cannot exceed 100 characters"))
    else
      sanitizedOptions <- mapM (fun opt => call (DOMPurify_sanitize opt)) filteredOptions ;;
      Ret (valid (JSON_stringify sanitizedOptions)).

(* ================================================================= *)
(** ** The world a request runs in *)

(** Modelled from the spec: the hosted backend (database, identity provider)
    and the DOMPurify library are external to the repository and absent from
    the source.  The world holds what the spec's data model and external
    interfaces name: the three tables as lists of rows, the identity
    provider's answers for the caller at hand, the process environment, the
    sanitizer as a function, the client library's verdict on a URL and a key
    (the exception its constructor throws for them, if any), and, per table,
    an optional outage that makes every request on the table fail.  Of the
    schema of [README.md] the store enforces the uniqueness of a vote per
    user and poll, the reference of a vote to a stored poll with its
    cascade on delete, and the row-level policies: a caller inserts polls
    and votes under the caller's own id only, and updates and deletes only
    the caller's own polls.  The votes table is taken with both option
    columns, the index and the id, since the source writes both. *)
Record World : Type := {
  env : list (jsstring * jsstring);
  session : UserReply;
  signIn : jsstring -> jsstring -> option AuthError;
  signUp : jsstring -> jsstring -> jsstring -> option AuthError;
  signOut : option AuthError;
  polls : list PollRow;
  votes : list VoteRow;
  user_roles : list RoleRow;
  outage : Table -> option PostgrestError;
  dompurify : jsstring -> jsstring;
  client_refused : jsstring -> jsstring -> option JsError;
  uuid : nat -> jsstring;
  serial : nat;
  clock : jsstring;
  revalidated : list jsstring
}.

Definition with_polls (w : World) (rows : list PollRow) : World :=
  {| env := env w; session := session w; signIn := signIn w; signUp := signUp w;
     signOut := signOut w; polls := rows; votes := votes w;
     user_roles := user_roles w; outage := outage w; dompurify := dompurify w;
     client_refused := client_refused w; uuid := uuid w; serial := serial w; clock := clock w;
     revalidated := revalidated w |}.

Definition with_votes (w : World) (rows : list VoteRow) : World :=
  {| env := env w; session := session w; signIn := signIn w; signUp := signUp w;
     signOut := signOut w; polls := polls w; votes := rows;
     user_roles := user_roles w; outage := outage w; dompurify := dompurify w;
     client_refused := client_refused w; uuid := uuid w; serial := serial w; clock := clock w;
     revalidated := revalidated w |}.

Definition with_serial (w : World) (n : nat) : World :=
  {| env := env w; session := session w; signIn := signIn w; signUp := signUp w;
     signOut := signOut w; polls := polls w; votes := votes w;
     user_roles := user_roles w; outage := outage w; dompurify := dompurify w;
     client_refused := client_refused w; uuid := uuid w; serial := n; clock := clock w;
     revalidated := revalidated w |}.

Definition with_outage (w : World) (down : Table -> option PostgrestError) : World :=
  {| env := env w; session := session w; signIn := signIn w; signUp := signUp w;
     signOut := signOut w; polls := polls w; votes := votes w;
     user_roles := user_roles w; outage := down; dompurify := dompurify w;
     client_refused := client_refused w; uuid := uuid w; serial := serial w;
     clock := clock w; revalidated := revalidated w |}.

Definition with_dompurify (w : World) (sanitize : jsstring -> jsstring) : World :=
  {| env := env w; session := session w; signIn := signIn w; signUp := signUp w;
     signOut := signOut w; polls := polls w; votes := votes w;
     user_roles := user_roles w; outage := outage w; dompurify := sanitize;
     client_refused := client_refused w; uuid := uuid w; serial := serial w;
     clock := clock w; revalidated := revalidated w |}.

Definition with_revalidated (w : World) (paths : list jsstring) : World :=
  {| env := env w; session := session w; signIn := signIn w; signUp := signUp w;
     signOut := signOut w; polls := polls w; votes := votes w;
     user_roles := user_roles w; outage := outage w; dompurify := dompurify w;
     client_refused := client_refused w; uuid := uuid w; serial := serial w; clock := clock w;
     revalidated := paths |}.

Fixpoint assoc (key : jsstring) (kvs : list (jsstring * jsstring)) : option jsstring :=
  match kvs with
  | [] => None
  | (k, v) :: kvs' => if str_eqb k key then Some v else assoc key kvs'
  end.

(** PostgREST's answer to [.single()] when the filter does not select
    exactly one row. *)
Definition PGRST116 : PostgrestError :=
  {| pg_code := lit "PGRST116";
     pg_message := lit "JSON object requested, multiple (or no) rows returned" |}.

(** Postgres' answer to an insert that breaks a uniqueness constraint. *)
Definition unique_violation : PostgrestError :=
  {| pg_code := lit "23505";
     pg_message := lit "duplicate key value violates unique constraint" |}.

(** Postgres' answer to an insert that refers to a row that is not stored. *)
Definition foreign_key_violation : PostgrestError :=
  {| pg_code := lit "23503";
     pg_message := lit "insert or update on table violates foreign key constraint" |}.

(** Postgres' answer to an insert that a row-level policy refuses. *)
Definition policy_violation : PostgrestError :=
  {| pg_code := lit "42501";
     pg_message := lit "new row violates row-level security policy" |}.

Definition failed {A : Type} (e : PostgrestError) : Reply A :=
  {| data := None; reply_error := Some e |}.

Definition single {A : Type} (rows : list A) : Reply A :=
  match rows with
  | [row] => {| data := Some row; reply_error := None |}
  | _ => failed PGRST116
  end.

(** Lexicographic order on code units, the order of [created_at] texts. *)
Fixpoint str_leb (a b : jsstring) : bool :=
  match a, b with
  | [], _ => true
  | _ :: _, [] => false
  | x :: a', y :: b' => (x <? y)%N || ((x =? y)%N && str_leb a' b')
  end.

Fixpoint insert_desc (p : PollRow) (sorted : list PollRow) : list PollRow :=
  match sorted with
  | [] => [p]
  | q :: sorted' =>
      if str_leb (p_created_at q) (p_created_at p) then p :: sorted
      else q :: insert_desc p sorted'
  end.

Definition order_created_desc (rows : list PollRow) : list PollRow :=
  fold_right insert_desc [] rows.

Definition poll_has_id (id : jsstring) (p : PollRow) : bool := str_eqb (p_id p) id.

Definition poll_owned_by (userId : jsstring) (p : PollRow) : bool :=
  str_eqb (p_user_id p) userId.

Definition vote_of (pollId userId : jsstring) (v : VoteRow) : bool :=
  str_eqb (v_poll_id v) pollId && str_eqb (v_user_id v) userId.

Definition role_of (userId : jsstring) (r : RoleRow) : bool :=
  str_eqb (r_user_id r) userId.

(** A table request: the table's outage, if any, is the answer. *)
Definition query {A : Type} (w : World) (t : Table) (rows : Reply A) : Reply A :=
  match outage w t with
  | Some e => failed e
  | None => rows
  end.

Definition new_poll (w : World) (userId question : jsstring) (options : list jsstring)
  : PollRow :=
  {| p_id := uuid w (serial w); p_question := question; p_description := None;
     p_options := map OptString options; p_user_id := userId;
     p_created_at := clock w; p_updated_at := None |}.

Definition set_question_options (question : jsstring) (options : list OptionJson)
    (p : PollRow) : PollRow :=
  {| p_id := p_id p; p_question := question; p_description := p_description p;
     p_options := options; p_user_id := p_user_id p;
     p_created_at := p_created_at p; p_updated_at := p_updated_at p |}.

Definition set_options (options : list OptionJson) (p : PollRow) : PollRow :=
  set_question_options (p_question p) options p.

(** [auth.uid()] of the store's policies: the id of the caller the
    request's token stands for. *)
Definition auth_uid (w : World) : option jsstring :=
  match user (session w) with
  | Some who => Some (u_id who)
  | None => None
  end.

(** [auth.uid() = user_id] for a given [user_id]. *)
Definition caller_is (w : World) (userId : jsstring) : bool :=
  match auth_uid w with
  | Some uid => str_eqb uid userId
  | None => false
  end.

(** The policy of [UPDATE] and [DELETE] on polls: the row is the caller's. *)
Definition own_poll (w : World) (p : PollRow) : bool := caller_is w (p_user_id p).

(** What the surroundings answer to a call, and the world afterwards. *)
Definition respond {X : Type} (c : Call X) (w : World) : X * World :=
  match c in Call X return X * World with
  | ProcessEnv key => (assoc key (env w), w)
  | NextCookies => (tt, w)
  | CreateServerClient supabaseUrl supabaseKey => (client_refused w supabaseUrl supabaseKey, w)
  | CreateBrowserClient supabaseUrl supabaseKey => (client_refused w supabaseUrl supabaseKey, w)
  | DOMPurify_sanitize dirty => (dompurify w dirty, w)
  | RevalidatePath path => (tt, with_revalidated w (revalidated w ++ [path]))
  | SignInWithPassword _ email password => (signIn w email password, w)
  | SignUp _ email password name => (signUp w email password name, w)
  | SignOut _ => (signOut w, w)
  | GetUser _ => (session w, w)
  | SelectPoll _ id =>
      (query w polls_table (single (filter (poll_has_id id) (polls w))), w)
  | SelectPollOptions _ pollId =>
      (query w polls_table
         (single (map p_options (filter (poll_has_id pollId) (polls w)))), w)
  | SelectUserPolls _ userId =>
      (query w polls_table
         {| data := Some (order_created_desc (filter (poll_owned_by userId) (polls w)));
            reply_error := None |}, w)
  | InsertPoll _ userId question options =>
      match outage w polls_table with
      | Some e => (Some e, w)
      | None =>
          if caller_is w userId then
            (None, with_serial
                     (with_polls w (polls w ++ [new_poll w userId question options]))
                     (S (serial w)))
          else (Some policy_violation, w)
      end
  | UpdatePoll _ pollId userId question options =>
      match outage w polls_table with
      | Some e => (Some e, w)
      | None =>
          (None, with_polls w
             (map (fun p => if poll_has_id pollId p && poll_owned_by userId p && own_poll w p
                            then set_question_options question (map OptString options) p
                            else p) (polls w)))
      end
  | UpdatePollOptions _ pollId options =>
      match outage w polls_table with
      | Some e => (Some e, w)
      | None =>
          (None, with_polls w
             (map (fun p => if poll_has_id pollId p && own_poll w p
                            then set_options options p else p)
                (polls w)))
      end
  | DeletePoll _ id userId =>
      match outage w polls_table with
      | Some e => (Some e, w)
      | None =>
          let deleted p := poll_has_id id p && poll_owned_by userId p && own_poll w p in
          (None, with_votes
                   (with_polls w (filter (fun p => negb (deleted p)) (polls w)))
                   (if existsb deleted (polls w)
                    then filter (fun v => negb (str_eqb (v_poll_id v) id)) (votes w)
                    else votes w))
      end
  | SelectVote _ pollId userId =>
      (query w votes_table (single (filter (vote_of pollId userId) (votes w))), w)
  | InsertVote _ v =>
      match outage w votes_table with
      | Some e => (Some e, w)
      | None =>
          if negb (caller_is w (v_user_id v)) then (Some policy_violation, w)
          else if existsb (vote_of (v_poll_id v) (v_user_id v)) (votes w)
          then (Some unique_violation, w)
          else if negb (existsb (poll_has_id (v_poll_id v)) (polls w))
          then (Some foreign_key_violation, w)
          else (None, with_votes w (votes w ++ [v]))
      end
  | SelectRole _ userId =>
      (query w user_roles_table
         (single (map r_role (filter (role_of userId) (user_roles w)))), w)
  end.

(** How a request ends. *)
Inductive Outcome (R : Type) : Type :=
| Returned (r : R)
| Thrown (e : JsError).

Arguments Returned {R} r.
Arguments Thrown {R} e.

(** A call that was made, with the reply it got. *)
Inductive Event : Type :=
| Ev (X : Type) (c : Call X) (reply : X).

Arguments Ev {X} c reply.

(** The table a call reads or writes, if any. *)
Definition table_of {X : Type} (c : Call X) : option Table :=
  match c with
  | SelectPoll _ _ | SelectPollOptions _ _ | SelectUserPolls _ _
  | InsertPoll _ _ _ _ | UpdatePoll _ _ _ _ _ | UpdatePollOptions _ _ _
  | DeletePoll _ _ _ => Some polls_table
  | SelectVote _ _ _ | InsertVote _ _ => Some votes_table
  | SelectRole _ _ => Some user_roles_table
  | _ => None
  end.

(** Calls that change a table. *)
Definition is_write {X : Type} (c : Call X) : bool :=
  match c with
  | InsertPoll _ _ _ _ | UpdatePoll _ _ _ _ _ | UpdatePollOptions _ _ _
  | DeletePoll _ _ _ | InsertVote _ _ => true
  | _ => false
  end.

Definition event_table (e : Event) : option Table :=
  match e with Ev c _ => table_of c end.

Definition event_is_write (e : Event) : bool :=
  match e with Ev c _ => is_write c end.

(** The writes among the calls of a trace. *)
Definition writes (t : list Event) : list Event := filter event_is_write t.

(** The calls of a trace on the votes and polls tables. *)
Definition votes_polls_calls (t : list Event) : list Event :=
  filter (fun e => match event_table e with
                   | Some polls_table | Some votes_table => true
                   | _ => false
                   end) t.

Record Run (R : Type) : Type := {
  outcome : Outcome R;
  trace : list Event;
  final : World
}.

(** Run a program to its end: the outcome, the calls made in order, and the
    world left behind. *)
Fixpoint run {R : Type} (p : Prog R) (w : World) : Run R :=
  match p with
  | Ret r => {| outcome := Returned r; trace := []; final := w |}
  | Throw e => {| outcome := Thrown e; trace := []; final := w |}
  | Vis c k =>
      let (x, w') := respond c w in
      let r := run (k x) w' in
      {| outcome := outcome r; trace := Ev c x :: trace r; final := final r |}
  end.

(** The behaviours of a program whatever the surroundings reply: the calls
    it makes with some replies, and how it ends. *)
Fixpoint exec {R : Type} (p : Prog R) (t : list Event) (o : Outcome R) : Prop :=
  match p with
  | Ret r => t = [] /\ o = Returned r
  | Throw e => t = [] /\ o = Thrown e
  | Vis c k => exists x t', t = Ev c x :: t' /\ exec (k x) t' o
  end.

(** One awaited call of a request in flight: what is left of the request,
    the call made, and the world afterwards. *)
Definition step {R : Type} (p : Prog R) (w : World) : Prog R * list Event * World :=
  match p with
  | Vis c k => let (x, w') := respond c w in (k x, [Ev c x], w')
  | _ => (p, [], w)
  end.

(** Two requests in flight on one world.  The schedule says whose call the
    backend serves next ([true]: the first request's); when the schedule is
    used up the first request runs to its end, then the second.  [tp] and
    [tq] are the calls made so far. *)
Fixpoint interleave {A B : Type} (schedule : list bool) (p : Prog A) (q : Prog B)
    (tp tq : list Event) (w : World) : Run A * Run B :=
  match schedule with
  | [] =>
      let rp := run p w in
      let rq := run q (final rp) in
      ({| outcome := outcome rp; trace := tp ++ trace rp; final := final rp |},
       {| outcome := outcome rq; trace := tq ++ trace rq; final := final rq |})
  | true :: schedule' =>
      let '(p', e, w') := step p w in interleave schedule' p' q (tp ++ e) tq w'
  | false :: schedule' =>
      let '(q', e, w') := step q w in interleave schedule' p q' tp (tq ++ e) w'
  end.

Definition concurrently {A B : Type} (schedule : list bool) (p : Prog A) (q : Prog B)
    (w : World) : Run A * Run B :=
  interleave schedule p q [] [] w.

(** The pre-checks for an existing vote among the calls of a trace: poll,
    user and the reply. *)
Definition vote_check_of (e : Event) : list (jsstring * jsstring * Reply VoteRow) :=
  match e with
  | Ev c x =>
      match c in Call X return X -> list (jsstring * jsstring * Reply VoteRow) with
      | SelectVote _ pollId userId => fun reply => [(pollId, userId, reply)]
      | _ => fun _ => []
      end x
  end.

Definition vote_checks (t : list Event) : list (jsstring * jsstring * Reply VoteRow) :=
  flat_map vote_check_of t.

(** The inserts into the votes table among the calls of a trace: the row and
    the store's verdict. *)
Definition vote_insert_of (e : Event) : list (VoteRow * option PostgrestError) :=
  match e with
  | Ev c x =>
      match c in Call X return X -> list (VoteRow * option PostgrestError) with
      | InsertVote _ v => fun verdict => [(v, verdict)]
      | _ => fun _ => []
      end x
  end.

Definition vote_inserts (t : list Event) : list (VoteRow * option PostgrestError) :=
  flat_map vote_insert_of t.

(* ================================================================= *)
(** ** [env-validation.ts] and [supabase/server.ts] *)

(** [!value] for [process.env[key]]: unset or empty. *)
Definition unset (value : option jsstring) : bool :=
  match value with
  | None => true
  | Some v => is_empty v
  end.

Definition Error (message : jsstring) : JsError :=
  {| js_name := lit "Error"; js_message := message |}.

Definition TypeError (message : jsstring) : JsError :=
  {| js_name := lit "TypeError"; js_message := message |}.

Definition ReferenceError (message : jsstring) : JsError :=
  {| js_name := lit "ReferenceError"; js_message := message |}.

Definition SyntaxError (message : jsstring) : JsError :=
  {| js_name := lit "SyntaxError"; js_message := message |}.

Definition getEnvVariable (key : jsstring) (defaultValue : option jsstring)
  : Prog jsstring :=
  await value <- ProcessEnv key ;;
  if unset value then
    match defaultValue with
    | Some d => Ret d
    | None => Throw (Error (lit "Environment variable " ++ key ++ lit " is not set"))
    end
  else Ret (match value with Some v => v | None => [] end).

Definition NEXT_PUBLIC_SUPABASE_URL : jsstring := lit "NEXT_PUBLIC_SUPABASE_URL".
Definition NEXT_PUBLIC_SUPABASE_ANON_KEY : jsstring := lit "NEXT_PUBLIC_SUPABASE_ANON_KEY".

(** [createServerClient(supabaseUrl, supabaseKey, { cookies })] of
    [@supabase/ssr]: the constructor returns the client or throws, as it
    does for a URL it cannot read. *)
Definition createServerClient (supabaseUrl supabaseKey : jsstring) : Prog Client :=
  await thrown <- CreateServerClient supabaseUrl supabaseKey ;;
  match thrown with
  | Some e => Throw e
  | None => Ret {| supabaseUrl := supabaseUrl; supabaseAnonKey := supabaseKey |}
  end.

(** [createClient] of [supabase/server.ts].  The cookie callbacks given to
    [createServerClient] write to the cookie store of the request and
    swallow its errors; the actions below do not read them. *)
Definition createClient : Prog Client :=
  await cookieStore <- NextCookies ;;
  supabaseUrl <- getEnvVariable NEXT_PUBLIC_SUPABASE_URL None ;;
  supabaseAnonKey <- getEnvVariable NEXT_PUBLIC_SUPABASE_ANON_KEY None ;;
  createServerClient supabaseUrl supabaseAnonKey.

(* ================================================================= *)
(** ** [auth-actions.ts] *)

(** What a server action hands back: [{ error }] ([None] is [null]) or
    [{ success: true }]. *)
Inductive ActionResult : Type :=
| ErrorResult (error : option jsstring)
| SuccessResult.

(** The property names of the returned object. *)
Definition keys (r : ActionResult) : list string :=
  match r with
  | ErrorResult _ => ["error"%string]
  | SuccessResult => ["success"%string]
  end.

Record LoginFormData : Type := {
  login_email : jsstring;
  login_password : jsstring
}.

Record RegisterFormData : Type := {
  register_name : jsstring;
  register_email : jsstring;
  register_password : jsstring
}.

Definition auth_result (error : option AuthError) : ActionResult :=
  match error with
  | Some e => ErrorResult (Some (auth_message e))
  | None => ErrorResult None
  end.

(** [login], with its [try]/[catch] around the whole body. *)
Definition login (data : LoginFormData) : Prog ActionResult :=
  try_catch
    (supabase <- createClient ;;
     await error <- SignInWithPassword supabase (login_email data) (login_password data) ;;
     Ret (auth_result error))
    (fun e =>
       Ret (ErrorResult (Some (lit
         "Authentication service unavailable. Please check your Supabase configuration.")))).

Definition register (data : RegisterFormData) : Prog ActionResult :=
  supabase <- createClient ;;
  await error <- SignUp supabase (register_email data) (register_password data)
                   (register_name data) ;;
  Ret (auth_result error).

Definition logout : Prog ActionResult :=
  supabase <- createClient ;;
  await error <- SignOut supabase ;;
  Ret (auth_result error).

(* ================================================================= *)
(** ** [poll-actions.ts] *)

(** The value of a form entry: a string, or an uploaded file. *)
Inductive FormDataEntryValue : Type :=
| Text (value : jsstring)
| File (name : jsstring).

(** A submitted form: its (name, value) entries in order. *)
Definition FormData := list (jsstring * FormDataEntryValue).

(** [formData.get(name)]: the first value, or [null]. *)
Fixpoint FormData_get (formData : FormData) (name : jsstring) : option FormDataEntryValue :=
  match formData with
  | [] => None
  | (k, v) :: formData' => if str_eqb k name then Some v else FormData_get formData' name
  end.

(** [formData.getAll(name)] *)
Definition FormData_getAll (formData : FormData) (name : jsstring)
  : list FormDataEntryValue :=
  map snd (filter (fun entry => str_eqb (fst entry) name) formData).

(** [Boolean(value)] for a form entry: a file is an object, hence truthy. *)
Definition Boolean_entry (value : FormDataEntryValue) : bool :=
  match value with
  | Text s => Boolean s
  | File _ => true
  end.

(** The entries as strings, when all of them are: the cast [as string[]]
    checks nothing, and the first [opt.trim()] on a file throws. *)
Fixpoint all_text (values : list FormDataEntryValue) : option (list jsstring) :=
  match values with
  | [] => Some []
  | Text s :: values' =>
      match all_text values' with
      | Some texts => Some (s :: texts)
      | None => None
      end
  | File _ :: _ => None
  end.

Definition pg_result (error : option PostgrestError) : ActionResult :=
  match error with
  | Some e => ErrorResult (Some (pg_message e))
  | None => ErrorResult None
  end.

(** The validated, sanitized question and options of a form, or the result
    to return at once.  [formData.get("question")] is [null] when the field
    is missing and a [File] when a file was sent under that name; the cast
    [as string] checks nothing and [question.trim()] throws on both, as
    [opt.trim()] does on a file among the options. *)
Definition validated_form (formData : FormData)
  : Prog (ActionResult + jsstring * list jsstring) :=
  let questionInput := FormData_get formData (lit "question") in
  let optionsInput := filter Boolean_entry (FormData_getAll formData (lit "options")) in
  match questionInput with
  | None => Throw (TypeError (lit "Cannot read properties of null (reading 'trim')"))
  | Some (File _) => Throw (TypeError (lit "question.trim is not a function"))
  | Some (Text questionInput) =>
      questionValidation <- validateQuestion questionInput ;;
      if negb (isValid questionValidation) then
        Ret (inl (ErrorResult (error questionValidation)))
      else
        match all_text optionsInput with
        | None => Throw (TypeError (lit "opt.trim is not a function"))
        | Some optionsInput =>
            optionsValidation <- validateOptions optionsInput ;;
            if negb (isValid optionsValidation) then
              Ret (inl (ErrorResult (error optionsValidation)))
            else
              match sanitizedValue questionValidation, sanitizedValue optionsValidation with
              | Some question, Some text =>
                  match JSON_parse text with
                  | Some options => Ret (inr (question, options))
                  | None => Throw (SyntaxError (lit "Unexpected token in JSON"))
                  end
              | _, _ => Throw (SyntaxError (lit "Unexpected token in JSON"))
              end
        end
  end.

Definition createPoll (formData : FormData) : Prog ActionResult :=
  supabase <- createClient ;;
  form <- validated_form formData ;;
  match form with
  | inl rejected => Ret rejected
  | inr (question, options) =>
      await reply <- GetUser supabase ;;
      match userError reply with
      | Some userError => Ret (ErrorResult (Some (auth_message userError)))
      | None =>
          match user reply with
          | None => Ret (ErrorResult (Some (lit "You must be logged in to create a poll.")))
          | Some user =>
              await error <- InsertPoll supabase (u_id user) question options ;;
              match error with
              | Some e => Ret (ErrorResult (Some (pg_message e)))
              | None =>
                  await _ <- RevalidatePath (lit "/polls") ;;
                  Ret (ErrorResult None)
              end
          end
      end
  end.

Record UserPolls : Type := {
  up_polls : list PollRow;
  up_error : option jsstring
}.

Definition getUserPolls : Prog UserPolls :=
  supabase <- createClient ;;
  await reply <- GetUser supabase ;;
  match user reply with
  | None => Ret {| up_polls := []; up_error := Some (lit "Not authenticated") |}
  | Some user =>
      await r <- SelectUserPolls supabase (u_id user) ;;
      match reply_error r with
      | Some e => Ret {| up_polls := []; up_error := Some (pg_message e) |}
      | None =>
          Ret {| up_polls := match data r with Some rows => rows | None => [] end;
                 up_error := None |}
      end
  end.

(** What [getPollById] shows of a poll: the row as stored, or the object
    literal with the four public fields. *)
Inductive PollView : Type :=
| FullPoll (row : PollRow)
| PublicPoll (id question : jsstring) (options : list OptionJson) (created_at : jsstring).

Definition public_view (row : PollRow) : PollView :=
  PublicPoll (p_id row) (p_question row) (p_options row) (p_created_at row).

(** The [user_id] property of the shown poll, if it has one. *)
Definition view_user_id (v : PollView) : option jsstring :=
  match v with
  | FullPoll row => Some (p_user_id row)
  | PublicPoll _ _ _ _ => None
  end.

Record PollResult : Type := {
  poll : option PollView;
  poll_error : option jsstring;
  isOwner : option bool
}.

Definition getPollById (id : jsstring) : Prog PollResult :=
  supabase <- createClient ;;
  await r <- SelectPoll supabase id ;;
  match reply_error r with
  | Some e => Ret {| poll := None; poll_error := Some (pg_message e); isOwner := None |}
  | None =>
      await reply <- GetUser supabase ;;
      match data r with
      | Some row =>
          match user reply with
          | None =>
              Ret {| poll := Some (public_view row); poll_error := None;
                     isOwner := Some false |}
          | Some user =>
              let isOwner := str_eqb (u_id user) (p_user_id row) in
              if negb isOwner then
                await roleData <- SelectRole supabase (u_id user) ;;
                let isAdmin :=
                  match data roleData with
                  | Some role => str_eqb role (lit "admin")
                  | None => false
                  end in
                if negb isAdmin then
                  Ret {| poll := Some (public_view row); poll_error := None;
                         isOwner := Some false |}
                else
                  Ret {| poll := Some (FullPoll row); poll_error := None;
                         isOwner := Some isOwner |}
              else
                Ret {| poll := Some (FullPoll row); poll_error := None;
                       isOwner := Some isOwner |}
          end
      | None =>
          Ret {| poll := None; poll_error := Some (lit "Poll not found"); isOwner := None |}
      end
  end.

(** [deletePoll(id)] as first written: the parameter is [id]. *)
Definition deletePoll_by_id (id : jsstring) : Prog ActionResult :=
  supabase <- createClient ;;
  await reply <- GetUser supabase ;;
  match userError reply with
  | Some userError => Ret (ErrorResult (Some (auth_message userError)))
  | None =>
      match user reply with
      | None => Ret (ErrorResult (Some (lit "You must be logged in to delete a poll.")))
      | Some user =>
          await error <- DeletePoll supabase id (u_id user) ;;
          match error with
          | Some e => Ret (ErrorResult (Some (pg_message e)))
          | None =>
              await _ <- RevalidatePath (lit "/polls") ;;
              Ret (ErrorResult None)
          end
      end
  end.

(** [deletePoll(pollId)] of the documented file: the parameter was renamed
    to [pollId] and the filter still reads [id], a name that is not bound.
    Evaluating the argument of [.eq("id", id)] throws before any request is
    sent. *)
Definition deletePoll (pollId : jsstring) : Prog ActionResult :=
  supabase <- createClient ;;
  await reply <- GetUser supabase ;;
  match userError reply with
  | Some userError => Ret (ErrorResult (Some (auth_message userError)))
  | None =>
      match user reply with
      | None => Ret (ErrorResult (Some (lit "You must be logged in to delete a poll.")))
      | Some user => Throw (ReferenceError (lit "id is not defined"))
      end
  end.

Definition updatePoll (pollId : jsstring) (formData : FormData) : Prog ActionResult :=
  supabase <- createClient ;;
  form <- validated_form formData ;;
  match form with
  | inl rejected => Ret rejected
  | inr (question, options) =>
      await reply <- GetUser supabase ;;
      match userError reply with
      | Some userError => Ret (ErrorResult (Some (auth_message userError)))
      | None =>
          match user reply with
          | None => Ret (ErrorResult (Some (lit "You must be logged in to update a poll.")))
          | Some user =>
              await error <- UpdatePoll supabase pollId (u_id user) question options ;;
              Ret (pg_result error)
          end
      end
  end.

(** The index-based [submitVote(pollId, optionIndex)]. *)
Definition submitVote_index (pollId : jsstring) (optionIndex : Z) : Prog ActionResult :=
  supabase <- createClient ;;
  await reply <- GetUser supabase ;;
  match userError reply with
  | Some userError => Ret (ErrorResult (Some (auth_message userError)))
  | None =>
      match user reply with
      | None => Ret (ErrorResult (Some (lit "You must be logged in to vote.")))
      | Some user =>
          await existing <- SelectVote supabase pollId (u_id user) ;;
          let voteCheckError :=
            match reply_error existing with
            | Some e => if negb (str_eqb (pg_code e) (lit "PGRST116")) then Some e else None
            | None => None
            end in
          match voteCheckError with
          | Some e => Ret (ErrorResult (Some (pg_message e)))
          | None =>
              match data existing with
              | Some existingVote =>
                  Ret (ErrorResult (Some (lit "You have already voted on this poll.")))
              | None =>
                  await error <- InsertVote supabase
                                   {| v_poll_id := pollId; v_user_id := u_id user;
                                      v_option_index := Some optionIndex;
                                      v_option_id := None |} ;;
                  Ret (pg_result error)
              end
          end
      end
  end.

(** The double nearest to an integer, ties going to the even significand:
    what a JSON number of that value is read as, and what an addition of
    doubles with that exact sum returns.  An integer below 2^53 in magnitude
    is a double; above, the bits beyond the 53 leading ones are rounded
    away. *)
Definition nearest_double (z : Z) : Z :=
  let a := Z.abs z in
  let e := (Z.log2 a - 52)%Z in
  if (e <=? 0)%Z then z
  else
    let q := Z.shiftr a e in
    let r := Z.land a (Z.ones e) in
    let half := Z.shiftl 1 (e - 1) in
    let q' := if (r <? half)%Z then q
              else if (half <? r)%Z then (q + 1)%Z
              else if Z.even q then q else (q + 1)%Z in
    (Z.sgn z * Z.shiftl q' e)%Z.

(** [(option.votes || 0) + 1], on doubles.  A missing counter, [null] and
    [0] count as [0].  A stored number too large for a double is read as an
    infinity, which stays one and is written back as [null]. *)
Definition bump (votes : option Z) : option Z :=
  match votes with
  | Some n =>
      let read := nearest_double n in
      if (Z.abs read <? 2 ^ 1024)%Z then Some (nearest_double (read + 1))
      else None
  | None => Some 1%Z
  end.

(** The callback of [poll.options.map] in the id-based [submitVote].  A
    plain string has no [id] property and is returned as it is. *)
Definition count_vote (optionId : jsstring) (option : OptionJson) : OptionJson :=
  match option with
  | OptObject o =>
      if str_eqb (opt_id o) optionId
      then OptObject {| opt_id := opt_id o; opt_text := opt_text o;
                        opt_votes := bump (opt_votes o) |}
      else option
  | OptString _ => option
  end.

(** The id-based [submitVote(pollId, optionId)]. *)
Definition submitVote (pollId optionId : jsstring) : Prog ActionResult :=
  supabase <- createClient ;;
  await reply <- GetUser supabase ;;
  match userError reply with
  | Some userError => Ret (ErrorResult (Some (auth_message userError)))
  | None =>
      match user reply with
      | None => Ret (ErrorResult (Some (lit "You must be logged in to vote.")))
      | Some user =>
          await existing <- SelectVote supabase pollId (u_id user) ;;
          match data existing with
          | Some existingVote =>
              Ret (ErrorResult (Some (lit "You have already voted on this poll.")))
          | None =>
              await found <- SelectPollOptions supabase pollId ;;
              match data found with
              | None => Ret (ErrorResult (Some (lit "Poll not found.")))
              | Some options =>
                  let updatedOptions := map (count_vote optionId) options in
                  await voteError <- InsertVote supabase
                                       {| v_poll_id := pollId; v_user_id := u_id user;
                                          v_option_index := None;
                                          v_option_id := Some optionId |} ;;
                  match voteError with
                  | Some e => Ret (ErrorResult (Some (pg_message e)))
                  | None =>
                      await updateError <- UpdatePollOptions supabase pollId updatedOptions ;;
                      match updateError with
                      | Some e => Ret (ErrorResult (Some (pg_message e)))
                      | None =>
                          await _ <- RevalidatePath (lit "/polls/" ++ pollId) ;;
                          Ret SuccessResult
                      end
                  end
              end
          end
      end
  end.

(* ================================================================= *)
(** ** [admin-middleware.ts] and [middleware.ts] *)

Record Url : Type := {
  origin : jsstring;
  pathname : jsstring;
  search : jsstring
}.

Record NextRequest : Type := {
  nextUrl : Url;
  cookies : list (jsstring * jsstring)
}.

Inductive ResponseKind : Type :=
| next (request : NextRequest)     (* NextResponse.next({ request }) *)
| redirect (url : Url).            (* NextResponse.redirect(url) *)

(** A response and the cookies set on it. *)
Record NextResponse : Type := {
  kind : ResponseKind;
  response_cookies : list Cookie
}.

Definition NextResponse_next (request : NextRequest) : NextResponse :=
  {| kind := next request; response_cookies := [] |}.

Definition NextResponse_redirect (url : Url) : NextResponse :=
  {| kind := redirect url; response_cookies := [] |}.

(** [url = request.nextUrl.clone(); url.pathname = path] *)
Definition with_pathname (url : Url) (path : jsstring) : Url :=
  {| origin := origin url; pathname := path; search := search url |}.

(** [map.set(key, value)] on the entries of a [Map] in insertion order: the
    entry of a key that is present is replaced where it stands, a new key is
    added at the end. *)
Fixpoint Map_set {V : Type} (key : V -> jsstring) (value : V) (entries : list V) : list V :=
  match entries with
  | [] => [value]
  | entry :: entries' =>
      if str_eqb (key entry) (key value)
      then value :: entries'
      else entry :: Map_set key value entries'
  end.

(** [request.cookies.set(name, value)] *)
Definition request_cookies_set (request : NextRequest) (c : Cookie) : NextRequest :=
  {| nextUrl := nextUrl request;
     cookies := Map_set fst (c_name c, c_value c) (cookies request) |}.

(** [response.cookies.set(name, value, options)] *)
Definition response_cookies_set (response : NextResponse) (c : Cookie) : NextResponse :=
  {| kind := kind response;
     response_cookies := Map_set c_name c (response_cookies response) |}.

(** The [setAll] callback of [checkAdminAccess]: it updates the request's
    cookies, replaces [response] by a fresh one and sets the cookies on it. *)
Definition setAll (state : NextRequest * NextResponse) (cookiesToSet : list Cookie)
  : NextRequest * NextResponse :=
  let request := fold_left request_cookies_set cookiesToSet (fst state) in
  let response := NextResponse_next request in
  (request, fold_left response_cookies_set cookiesToSet response).

Definition checkAdminAccess (request : NextRequest) : Prog NextResponse :=
  let response := NextResponse_next request in
  await supabaseUrl <- ProcessEnv NEXT_PUBLIC_SUPABASE_URL ;;
  await supabaseAnonKey <- ProcessEnv NEXT_PUBLIC_SUPABASE_ANON_KEY ;;
  match supabaseUrl, supabaseAnonKey with
  | Some supabaseUrl, Some supabaseAnonKey =>
      if is_empty supabaseUrl || is_empty supabaseAnonKey then
        Ret (NextResponse_redirect (with_pathname (nextUrl request) (lit "/login")))
      else
        supabase <- createServerClient supabaseUrl supabaseAnonKey ;;
        await reply <- GetUser supabase ;;
        let (request, response) := fold_left setAll (cookiesToSet reply) (request, response) in
        match user reply with
        | None =>
            Ret (NextResponse_redirect (with_pathname (nextUrl request) (lit "/login")))
        | Some user =>
            await userData <- SelectRole supabase (u_id user) ;;
            match reply_error userData, data userData with
            | None, Some role =>
                if negb (str_eqb role (lit "admin")) then
                  Ret (NextResponse_redirect
                         (with_pathname (nextUrl request) (lit "/unauthorized")))
                else Ret response
            | _, _ =>
                Ret (NextResponse_redirect
                       (with_pathname (nextUrl request) (lit "/unauthorized")))
            end
        end
  | _, _ =>
      Ret (NextResponse_redirect (with_pathname (nextUrl request) (lit "/login")))
  end.

Section Middleware.

(** [updateSession] of [supabase/middleware.ts], which handles the routes
    that are not admin routes; the file is not part of the source. *)
Variable updateSession : NextRequest -> Prog NextResponse.


End Middleware.

(* ================================================================= *)
(** ** A sanitizer and sample worlds *)

(** Modelled from the spec: DOMPurify is an external library, absent from the
    source.  The spec describes it as stripping all markup and script
    content, leaving plain text, and as idempotent.  [strip_markup] removes
    every tag, from an opening angle bracket to the next closing one.  It is
    used below on texts without markup and on texts whose only markup is a
    script element without content, which DOMPurify removes as well. *)
Fixpoint strip_tags (in_tag : bool) (s : jsstring) : jsstring :=
  match s with
  | [] => []
  | c :: s' =>
      if in_tag then (if (c =? 62)%N then strip_tags false s' else strip_tags true s')
      else if (c =? 60)%N then strip_tags true s'
      else c :: strip_tags false s'
  end.

Definition strip_markup (s : jsstring) : jsstring := strip_tags false s.

(** The source calls [DOMPurify.sanitize] with the text alone, that is with
    the library's default options, under which the library removes script
    elements and keeps the elements of its allow-list, [b] among them.
    [drop_scripts] removes every script element, from [<script] to the next
    [</script>], and leaves the rest as it is.  It is used below on a text
    whose only markup is a [b] element, which DOMPurify leaves as it is. *)
Fixpoint drop_scripts (inside : bool) (skip : nat) (s : jsstring) : jsstring :=
  match s with
  | [] => []
  | c :: s' =>
      match skip with
      | S n => drop_scripts inside n s'
      | O =>
          if inside then
            if startsWith (lit "</script>") s then drop_scripts false 8 s'
            else drop_scripts true 0 s'
          else if startsWith (lit "<script") s then drop_scripts true 0 s'
          else c :: drop_scripts false 0 s'
      end
  end.

Definition keep_formatting (s : jsstring) : jsstring := drop_scripts false 0 s.

Definition alice : User := {| u_id := lit "u-alice"; u_email := lit "alice@example.com" |}.
Definition bob : User := {| u_id := lit "u-bob"; u_email := lit "bob@example.com" |}.
Definition carol : User := {| u_id := lit "u-carol"; u_email := lit "carol@example.com" |}.

(** The caller is [who], and the session resolver refreshes nothing. *)
Definition signed_in (who : User) : UserReply :=
  {| user := Some who; userError := None; cookiesToSet := [] |}.

(** No caller could be resolved and the resolver reports nothing. *)
Definition anonymous : UserReply :=
  {| user := None; userError := None; cookiesToSet := [] |}.

(** No caller could be resolved and the resolver says why. *)
Definition session_missing : UserReply :=
  {| user := None;
     userError := Some {| auth_message := lit "Auth session missing!" |};
     cookiesToSet := [] |}.

Definition lunch : PollRow :=
  {| p_id := lit "p-1"; p_question := lit "Where do we eat?"; p_description := None;
     p_options :=
       [OptObject {| opt_id := lit "o-1"; opt_text := lit "Pizza"; opt_votes := Some 0%Z |};
        OptObject {| opt_id := lit "o-2"; opt_text := lit "Sushi"; opt_votes := Some 2%Z |}];
     p_user_id := u_id alice; p_created_at := lit "2024-05-01T10:00:00Z";
     p_updated_at := None |}.

(** The client library is external to the repository.  Its constructor
    throws for a URL that is not an HTTP or HTTPS URL.  [http_or_https]
    refuses every URL that does not start with [http://] or [https://]; it is
    used below on [https://project.supabase.co], which the library accepts,
    and on [not-a-url], which it refuses. *)
Definition http_or_https (supabaseUrl supabaseKey : jsstring) : option JsError :=
  if startsWith (lit "https://") supabaseUrl || startsWith (lit "http://") supabaseUrl
  then None
  else Some {| js_name := lit "Error";
               js_message := lit "Invalid supabaseUrl: Must be a valid HTTP or HTTPS URL." |}.

Definition credentials : list (jsstring * jsstring) :=
  [(NEXT_PUBLIC_SUPABASE_URL, lit "https://project.supabase.co");
   (NEXT_PUBLIC_SUPABASE_ANON_KEY, lit "anon-key")].

(** Both credentials set, the URL to a text that is no URL. *)
Definition malformed_credentials : list (jsstring * jsstring) :=
  [(NEXT_PUBLIC_SUPABASE_URL, lit "not-a-url");
   (NEXT_PUBLIC_SUPABASE_ANON_KEY, lit "anon-key");
   (lit "SUPABASE_SERVICE_ROLE_KEY", lit "service-key")].

(** A world with alice's poll, carol as the only admin, no vote yet, and
    [strip_markup] as the sanitizer. *)
Definition world (environment : list (jsstring * jsstring)) (caller : UserReply) : World :=
  {| env := environment; session := caller;
     signIn := fun _ _ => None; signUp := fun _ _ _ => None; signOut := None;
     polls := [lunch]; votes := [];
     user_roles := [{| r_user_id := u_id carol; r_role := lit "admin" |};
                    {| r_user_id := u_id bob; r_role := lit "user" |}];
     outage := fun _ => None; dompurify := strip_markup;
     client_refused := http_or_https;
     uuid := fun n => lit "p-new-" ++ [N.of_nat (48 + n)]; serial := 0;
     clock := lit "2024-05-02T09:00:00Z"; revalidated := [] |}.

(** The client [createClient] builds in a world. *)
Definition client_of (w : World) : Client :=
  {| supabaseUrl :=
       match assoc NEXT_PUBLIC_SUPABASE_URL (env w) with Some v => v | None => [] end;
     supabaseAnonKey :=
       match assoc NEXT_PUBLIC_SUPABASE_ANON_KEY (env w) with Some v => v | None => [] end |}.

(** Both backend credentials are set. *)
Definition credentials_set (w : World) : Prop :=
  unset (assoc NEXT_PUBLIC_SUPABASE_URL (env w)) = false /\
  unset (assoc NEXT_PUBLIC_SUPABASE_ANON_KEY (env w)) = false.

(** The backend is configured: both credentials are set and the client
    library builds a client from them, so that [createClient] and the
    middleware get their client. *)
Definition configured (w : World) : Prop :=
  credentials_set w /\
  client_refused w (supabaseUrl (client_of w)) (supabaseAnonKey (client_of w)) = None.

(** The fresh lookup of the caller's role yields ['admin']: the role table
    answers, holds exactly one row for the user, and that row says admin. *)
Definition role_lookup_yields_admin (w : World) (who : User) : Prop :=
  outage w user_roles_table = None /\
  exists row, filter (role_of (u_id who)) (user_roles w) = [row] /\
              r_role row = lit "admin".

(* ================================================================= *)
(** ** Notions used in the statements *)

Definition rejected (message : jsstring) (w : World) : Run ValidationResult :=
  {| outcome := Returned (invalid message); trace := []; final := w |}.

(** The Poll invariant read on the sanitized question. *)
Definition sanitized_question_in_range (w : World) : Prop :=
  forall question sanitized,
    outcome (run (validateQuestion question) w) = Returned (valid sanitized) ->
    5 <= length sanitized <= 200.

(** The Poll and Option invariants read on the sanitized options. *)
Definition sanitized_options_well_formed (w : World) : Prop :=
  forall options sanitized,
    outcome (run (validateOptions options) w) = Returned (valid (JSON_stringify sanitized)) ->
    2 <= length sanitized /\ NoDup sanitized /\
    forall o, In o sanitized -> 1 <= length o <= 100.

(** The role table's reply to the lookup of a user's role. *)
Definition role_reply (w : World) (userId : jsstring) : Reply jsstring :=
  query w user_roles_table (single (map r_role (filter (role_of userId) (user_roles w)))).

Definition is_admin_reply (r : Reply jsstring) : bool :=
  match reply_error r, data r with
  | None, Some role => str_eqb role (lit "admin")
  | _, _ => false
  end.

(** The caller owns the poll. *)
Definition caller_owns (w : World) (row : PollRow) : Prop :=
  exists who, user (session w) = Some who /\ u_id who = p_user_id row.

(** The caller has the admin role, as the role lookup tells it. *)
Definition caller_is_admin (w : World) : Prop :=
  exists who, user (session w) = Some who /\ role_lookup_yields_admin w who.

(** The request and response variables of [checkAdminAccess] once the
    session resolver has run. *)
Definition after_refresh (w : World) (request : NextRequest) : NextRequest * NextResponse :=
  fold_left setAll (cookiesToSet (session w)) (request, NextResponse_next request).

Definition to_login (request : NextRequest) : NextResponse :=
  NextResponse_redirect (with_pathname (nextUrl request) (lit "/login")).

Definition to_unauthorized (request : NextRequest) : NextResponse :=
  NextResponse_redirect (with_pathname (nextUrl request) (lit "/unauthorized")).

Definition admin_request : NextRequest :=
  {| nextUrl := {| origin := lit "https://polly.example"; pathname := lit "/admin";
                   search := [] |};
     cookies := [(lit "sb-access-token", lit "stale")] |}.

Definition fresh_token : Cookie :=
  {| c_name := lit "sb-access-token"; c_value := lit "fresh"; c_options := lit "Path=/" |}.

(** The caller is [who] and the session resolver refreshed the token. *)
Definition refreshed (who : User) : UserReply :=
  {| user := Some who; userError := None; cookiesToSet := [[fresh_token]] |}.

Definition newcomer : RegisterFormData :=
  {| register_name := lit "Dan"; register_email := lit "dan@example.com";
     register_password := lit "S3cret!pass" |}.

Definition returning : LoginFormData :=
  {| login_email := lit "alice@example.com"; login_password := lit "S3cret!pass" |}.

Definition survey : FormData :=
  [(lit "question", Text (lit "Tea or coffee?")); (lit "options", Text (lit "Tea"));
   (lit "options", Text (lit "Coffee"))].

Definition URL_not_set : JsError :=
  Error (lit "Environment variable NEXT_PUBLIC_SUPABASE_URL is not set").

Definition already_voted : ActionResult :=
  ErrorResult (Some (lit "You have already voted on this poll.")).

(** Two votes of bob on the same poll, in flight together: each makes its
    six calls up to and including the pre-check before either inserts. *)
Definition both_check_first : list bool :=
  [true; true; true; true; true; true; false; false; false; false; false; false].

Definition bobs_vote : VoteRow :=
  {| v_poll_id := lit "p-1"; v_user_id := u_id bob;
     v_option_index := None; v_option_id := Some (lit "o-2") |}.

(** The votes table is down: its requests are cancelled. *)
Definition votes_down (t : Table) : option PostgrestError :=
  match t with
  | votes_table =>
      Some {| pg_code := lit "57014";
              pg_message := lit "canceling statement due to statement timeout" |}
  | _ => None
  end.

Definition must_log_in : ActionResult :=
  ErrorResult (Some (lit "You must be logged in to vote.")).

(** The escape of a code unit reads back as the code unit. *)
Definition escape_reads_back (c : N) : bool :=
  match unicode_escape c with
  | [_; _; h1; h2; h3; h4] =>
      match hex4 h1 h2 h3 h4 with
      | Some u => N.eqb u c
      | None => false
      end
  | _ => false
  end.

(** What follows the first element of a non-empty array. *)
Definition after_first (xs : list jsstring) : jsstring :=
  match xs with
  | [] => [93%N]
  | _ => 44%N :: join_comma (map QuoteJSONString xs) ++ [93%N]
  end.

(* ================================================================= *)
(** ** [env-validation.ts]: the rest of the file *)

(** [parts.join(separator)] *)
Fixpoint Array_join (separator : jsstring) (parts : list jsstring) : jsstring :=
  match parts with
  | [] => []
  | [p] => p
  | p :: rest => p ++ separator ++ Array_join separator rest
  end.

(** [keys.filter(envVar => !process.env[envVar])], one read per key. *)
Fixpoint missing_among (keys : list jsstring) : Prog (list jsstring) :=
  match keys with
  | [] => Ret []
  | envVar :: keys' =>
      await value <- ProcessEnv envVar ;;
      rest <- missing_among keys' ;;
      Ret (if unset value then envVar :: rest else rest)
  end.

Definition SUPABASE_SERVICE_ROLE_KEY : jsstring := lit "SUPABASE_SERVICE_ROLE_KEY".

Definition requiredEnvVars : list jsstring :=
  [NEXT_PUBLIC_SUPABASE_URL; NEXT_PUBLIC_SUPABASE_ANON_KEY; SUPABASE_SERVICE_ROLE_KEY].

Definition missing_message (missingEnvVars : list jsstring) : jsstring :=
  lit "Missing required environment variables: " ++ Array_join (lit ", ") missingEnvVars
  ++ [10%N]
  ++ lit "Please check your .env.local file and ensure all required variables are set.".

Definition validateEnvVariables : Prog unit :=
  missingEnvVars <- missing_among requiredEnvVars ;;
  if 0 <? length missingEnvVars then Throw (Error (missing_message missingEnvVars))
  else Ret tt.

Definition getPublicEnvVariable (key : jsstring) (defaultValue : option jsstring)
  : Prog jsstring :=
  let fullKey := lit "NEXT_PUBLIC_" ++ key in
  getEnvVariable fullKey defaultValue.

(** [createClient] of [supabase/client.ts], for the browser; the
    constructor [createBrowserClient] of [@supabase/ssr] returns the client
    or throws. *)
Definition createBrowserClient : Prog Client :=
  supabaseUrl <- getEnvVariable NEXT_PUBLIC_SUPABASE_URL None ;;
  supabaseAnonKey <- getEnvVariable NEXT_PUBLIC_SUPABASE_ANON_KEY None ;;
  await thrown <- CreateBrowserClient supabaseUrl supabaseAnonKey ;;
  match thrown with
  | Some e => Throw e
  | None => Ret {| supabaseUrl := supabaseUrl; supabaseAnonKey := supabaseAnonKey |}
  end.

(** ** The start-up check of the environment *)

(** A line written to the console: the stream and the arguments. *)
Inductive ConsoleLine : Type :=
| console_log (args : list jsstring)
| console_error (args : list jsstring).

(** What the start-up script did: what it wrote, and the code it ended the
    process with, if it did. *)
Record Startup : Type := {
  console : list ConsoleLine;
  exit_code : option Z
}.

Definition NODE_ENV_is (value : string) (node_env : option jsstring) : bool :=
  match node_env with
  | Some v => str_eqb v (lit value)
  | None => false
  end.

(** The module that validates the environment when the application starts:
    its [try] block, and its [catch] block with the two tests on
    [NODE_ENV]. *)
Definition env_startup : Prog Startup :=
  try_catch
    (_ <- validateEnvVariables ;;
     await node_env <- ProcessEnv (lit "NODE_ENV") ;;
     if NODE_ENV_is "development" node_env then
       Ret {| console :=
                [console_log [[9989%N] ++ lit " Environment variables validated successfully"]];
              exit_code := None |}
     else Ret {| console := []; exit_code := None |})
    (fun error =>
       await node_env <- ProcessEnv (lit "NODE_ENV") ;;
       let written :=
         if NODE_ENV_is "development" node_env then
           [console_error [[10060%N] ++ lit " Environment variable validation failed:";
                           js_message error]]
         else
           [console_error
              [lit "Environment variable validation failed. Check required variables."]] in
       await node_env' <- ProcessEnv (lit "NODE_ENV") ;;
       if NODE_ENV_is "production" node_env' then
         Ret {| console := written; exit_code := Some 1%Z |}
       else Ret {| console := written; exit_code := None |}).

(* ================================================================= *)
(** ** Password validation *)

Definition PASSWORD_MIN_LENGTH : nat := 8.
Definition PASSWORD_REQUIRES_UPPERCASE : bool := true.
Definition PASSWORD_REQUIRES_LOWERCASE : bool := true.
Definition PASSWORD_REQUIRES_NUMBER : bool := true.
Definition PASSWORD_REQUIRES_SPECIAL : bool := true.

(** [String(n)] for a natural number. *)
Definition Number_toString (n : nat) : jsstring :=
  lit (NilEmpty.string_of_uint (Nat.to_uint n)).

(** The character classes of the four regular expressions; without the
    [u] flag a class is tested on each code unit. *)
Definition is_uppercase (c : N) : bool := ((65 <=? c) && (c <=? 90))%N.
Definition is_lowercase (c : N) : bool := ((97 <=? c) && (c <=? 122))%N.
Definition is_digit (c : N) : bool := ((48 <=? c) && (c <=? 57))%N.

(** The class of special characters, in the order the source lists them. *)
Definition special_characters : jsstring :=
  [33; 64; 35; 36; 37; 94; 38; 42; 40; 41; 95; 43; 45; 61; 91; 93; 123; 125;
   59; 39; 58; 34; 92; 124; 44; 46; 60; 62; 47; 63]%N.

Definition is_special (c : N) : bool := existsb (N.eqb c) special_characters.

(** [regex.test(password)] for a regular expression that is one class. *)
Definition test (class : N -> bool) (password : jsstring) : bool := existsb class password.

Record PasswordResult : Type := {
  pw_isValid : bool;
  pw_error : option jsstring
}.

Definition validatePasswordStrength (password : jsstring) : PasswordResult :=
  if length password <? PASSWORD_MIN_LENGTH then
    {| pw_isValid := false;
       pw_error := Some (lit "Password must be at least " ++ Number_toString PASSWORD_MIN_LENGTH
                         ++ lit " characters long") |}
  else if PASSWORD_REQUIRES_UPPERCASE && negb (test is_uppercase password) then
    {| pw_isValid := false;
       pw_error := Some (lit "Password must contain at least one uppercase letter") |}
  else if PASSWORD_REQUIRES_LOWERCASE && negb (test is_lowercase password) then
    {| pw_isValid := false;
       pw_error := Some (lit "Password must contain at least one lowercase letter") |}
  else if PASSWORD_REQUIRES_NUMBER && negb (test is_digit password) then
    {| pw_isValid := false;
       pw_error := Some (lit "Password must contain at least one number") |}
  else if PASSWORD_REQUIRES_SPECIAL && negb (test is_special password) then
    {| pw_isValid := false;
       pw_error := Some (lit "Password must contain at least one special character") |}
  else {| pw_isValid := true; pw_error := None |}.

(* ================================================================= *)
(** ** [auth-actions.ts]: the callers' identity and role *)

Definition getCurrentUser : Prog (option User) :=
  supabase <- createClient ;;
  await reply <- GetUser supabase ;;
  Ret (user reply).

(** [getUserRole]: the role of the single row found, whatever it says, and
    ['user'] when the lookup fails or finds no single row. *)
Definition getUserRole (userId : jsstring) : Prog jsstring :=
  supabase <- createClient ;;
  await reply <- SelectRole supabase userId ;;
  match reply_error reply, data reply with
  | None, Some role => Ret role
  | _, _ => Ret (lit "user")
  end.

Record UserWithRole : Type := {
  uwr_id : jsstring;
  uwr_email : jsstring;
  uwr_role : jsstring;
  uwr_name : option jsstring
}.

Section UserMetadata.

(** [user.user_metadata?.name]: the metadata of a user is not part of
    [User]; the name it holds, if any, is given by this function. *)
Variable user_metadata_name : User -> option jsstring.

Definition getCurrentUserWithRole : Prog (option UserWithRole) :=
  supabase <- createClient ;;
  await userData <- GetUser supabase ;;
  match user userData with
  | None => Ret None
  | Some who =>
      role <- getUserRole (u_id who) ;;
      Ret (Some {| uwr_id := u_id who; uwr_email := u_email who; uwr_role := role;
                   uwr_name := user_metadata_name who |})
  end.

(** [isAdmin]: [user?.role === 'admin'] *)
Definition isAdmin : Prog bool :=
  current <- getCurrentUserWithRole ;;
  match current with
  | Some u => Ret (str_eqb (uwr_role u) (lit "admin"))
  | None => Ret false
  end.

End UserMetadata.

(* ================================================================= *)
(** ** The pages that call [getPollById] *)

(** How a page function ends: [notFound()], [redirect(path)], or the element
    it returns. *)
Inductive Page : Type :=
| notFound
| redirect_to (path : jsstring)
| EditPollForm (poll : PollView)
| PollDetail (poll : PollView) (pollId : jsstring).

(** A string used as a condition: the empty string is falsy. *)
Definition truthy (s : option jsstring) : bool :=
  match s with
  | Some v => Boolean v
  | None => false
  end.

(** [EditPollPage] of [polls/[id]/edit/page.tsx] *)
Definition EditPollPage (id : jsstring) : Prog Page :=
  r <- getPollById id ;;
  match poll r with
  | Some shown =>
      if truthy (poll_error r) then Ret notFound
      else
        match isOwner r with
        | Some false => Ret (redirect_to (lit "/polls/" ++ id))
        | _ => Ret (EditPollForm shown)
        end
  | None => Ret notFound
  end.

(** [PollDetailPage] of [polls/[id]/page.tsx] *)
Definition PollDetailPage (id : jsstring) : Prog Page :=
  r <- getPollById id ;;
  match poll r with
  | Some shown =>
      if truthy (poll_error r) then Ret notFound else Ret (PollDetail shown id)
  | None => Ret notFound
  end.



(** The state of the [PollDetail] component. *)
Record VoteForm : Type := {
  selectedOption : option jsstring;
  hasVoted : bool;
  isSubmitting : bool;
  form_error : option jsstring
}.

(** [handleVote] of [PollDetail]: the state it leaves, and whether it called
    [router.refresh()]. *)
Definition handleVote (pollId : jsstring) (state : VoteForm) : Prog (VoteForm * bool) :=
  if truthy (selectedOption state) then
    let chosen := match selectedOption state with Some o => o | None => [] end in
    (* setIsSubmitting(true); setError(null) *)
    let submitting :=
      {| selectedOption := selectedOption state; hasVoted := hasVoted state;
         isSubmitting := true; form_error := None |} in
    after <-
      try_catch
        (result <- submitVote pollId chosen ;;
         match result with
         | ErrorResult (Some message) =>
             if Boolean message then
               Ret ({| selectedOption := selectedOption submitting;
                       hasVoted := hasVoted submitting;
                       isSubmitting := isSubmitting submitting;
                       form_error := Some message |}, false)
             else
               Ret ({| selectedOption := selectedOption submitting; hasVoted := true;
                       isSubmitting := isSubmitting submitting;
                       form_error := form_error submitting |}, true)
         | _ =>
             Ret ({| selectedOption := selectedOption submitting; hasVoted := true;
                     isSubmitting := isSubmitting submitting;
                     form_error := form_error submitting |}, true)
         end)
        (fun err =>
           Ret ({| selectedOption := selectedOption submitting;
                   hasVoted := hasVoted submitting;
                   isSubmitting := isSubmitting submitting;
                   form_error := Some (lit "Failed to submit vote. Please try again.") |},
                false)) ;;
    (* finally: setIsSubmitting(false) *)
    Ret ({| selectedOption := selectedOption (fst after); hasVoted := hasVoted (fst after);
            isSubmitting := false; form_error := form_error (fst after) |}, snd after)
  else Ret (state, false).

(* ================================================================= *)
(** ** Notions used in the further properties *)

(** A call that changed the world: a write the store accepted, or a cache
    invalidation. *)
Definition effective (e : Event) : bool :=
  match e with
  | Ev c x =>
      match c in Call X return X -> bool with
      | InsertPoll _ _ _ _ => fun verdict => match verdict with None => true | Some _ => false end
      | UpdatePoll _ _ _ _ _ => fun verdict => match verdict with None => true | Some _ => false end
      | UpdatePollOptions _ _ _ => fun verdict => match verdict with None => true | Some _ => false end
      | DeletePoll _ _ _ => fun verdict => match verdict with None => true | Some _ => false end
      | InsertVote _ _ => fun verdict => match verdict with None => true | Some _ => false end
      | RevalidatePath _ => fun _ => true
      | _ => fun _ => false
      end x
  end.

(** No call of the trace changed the world. *)
Definition quiet (t : list Event) : Prop := forallb (fun e => negb (effective e)) t = true.

(** The updates of a poll's options among the calls of a trace: the poll, the
    new options and the store's verdict. *)
Definition options_update_of (e : Event)
  : list (jsstring * list OptionJson * option PostgrestError) :=
  match e with
  | Ev c x =>
      match c in Call X return X -> list (jsstring * list OptionJson * option PostgrestError) with
      | UpdatePollOptions _ pollId options => fun verdict => [(pollId, options, verdict)]
      | _ => fun _ => []
      end x
  end.

Definition options_updates (t : list Event)
  : list (jsstring * list OptionJson * option PostgrestError) :=
  flat_map options_update_of t.

(** The caller is signed in as [who] and the session resolver reports no
    error. *)
Definition signed_in_as (w : World) (who : User) : Prop :=
  user (session w) = Some who /\ userError (session w) = None.

(** The form data of a poll form. *)
Definition poll_form (question : jsstring) (options : list jsstring) : FormData :=
  (lit "question", Text question) :: map (fun o => (lit "options", Text o)) options.

(** The rules of both validators hold for a question and a list of options. *)
Definition acceptable (question : jsstring) (options : list jsstring) : Prop :=
  5 <= length (trim question) <= 200 /\
  let kept := filter Boolean (map trim options) in
  2 <= length kept /\ NoDup kept /\ forall o, In o kept -> length o <= 100.

(** The option is an object whose [id] is [optionId]. *)
Definition has_option_id (optionId : jsstring) (option : OptionJson) : bool :=
  match option with
  | OptObject o => str_eqb (opt_id o) optionId
  | OptString _ => false
  end.

(** The vote row the id-based [submitVote] inserts. *)
Definition vote_by_id (pollId userId optionId : jsstring) : VoteRow :=
  {| v_poll_id := pollId; v_user_id := userId; v_option_index := None;
     v_option_id := Some optionId |}.

(** The vote row the index-based [submitVote] inserts. *)
Definition vote_by_index (pollId userId : jsstring) (optionIndex : Z) : VoteRow :=
  {| v_poll_id := pollId; v_user_id := userId; v_option_index := Some optionIndex;
     v_option_id := None |}.

(** The error of a lookup that failed for another reason than finding no
    row: [voteCheckError && voteCheckError.code !== 'PGRST116']. *)
Definition lookup_failure (reply : Reply VoteRow) : option PostgrestError :=
  match reply_error reply with
  | Some e => if str_eqb (pg_code e) (lit "PGRST116") then None else Some e
  | None => None
  end.

Definition is_vote_check (e : Event) : bool :=
  match vote_check_of e with
  | [] => false
  | _ => true
  end.

(** The calls of a trace made before the first pre-check for a vote. *)
Fixpoint before_vote_check (t : list Event) : list Event :=
  match t with
  | [] => []
  | e :: t' => if is_vote_check e then [] else e :: before_vote_check t'
  end.

(** The guard of the index-based [submitVote], read on the calls a request
    made and on how it ended, whatever the store replied: no call on the
    votes or polls tables comes before the pre-check; a pre-check that
    returned a row ends the request with the duplicate-vote error and
    without any write; a pre-check that failed for another reason than
    finding no row ends it with the lookup's message and without any write;
    a row is inserted only after a pre-check for the same poll and user that
    reported no row; an insert the store rejects ends the request with the
    store's own message. *)
Definition index_guard (pollId : jsstring) (optionIndex : Z) (t : list Event)
    (o : Outcome ActionResult) : Prop :=
  votes_polls_calls (before_vote_check t) = [] /\
  (forall poll_checked userId reply row,
     In (poll_checked, userId, reply) (vote_checks t) ->
     data reply = Some row -> lookup_failure reply = None ->
     o = Returned already_voted /\ writes t = []) /\
  (forall poll_checked userId reply e,
     In (poll_checked, userId, reply) (vote_checks t) ->
     lookup_failure reply = Some e ->
     o = Returned (ErrorResult (Some (pg_message e))) /\ writes t = []) /\
  (forall v verdict,
     In (v, verdict) (vote_inserts t) ->
     v = vote_by_index pollId (v_user_id v) optionIndex /\
     exists reply, In (pollId, v_user_id v, reply) (vote_checks t) /\
                   data reply = None /\ lookup_failure reply = None) /\
  (forall v e,
     In (v, Some e) (vote_inserts t) ->
     o = Returned (ErrorResult (Some (pg_message e)))).

(** The guard of the id-based [submitVote]: as above, but for the pre-check
    that fails for another reason than finding no row, of which nothing is
    said: the row inserted comes after a pre-check for the same poll and
    user, which, unless it failed so, returned no row. *)
Definition id_guard (pollId optionId : jsstring) (t : list Event)
    (o : Outcome ActionResult) : Prop :=
  votes_polls_calls (before_vote_check t) = [] /\
  (forall poll_checked userId reply row,
     In (poll_checked, userId, reply) (vote_checks t) ->
     data reply = Some row ->
     o = Returned already_voted /\ writes t = []) /\
  (forall v verdict,
     In (v, verdict) (vote_inserts t) ->
     v = vote_by_id pollId (v_user_id v) optionId /\
     exists reply, In (pollId, v_user_id v, reply) (vote_checks t) /\
                   (lookup_failure reply = None -> data reply = None)) /\
  (forall v e,
     In (v, Some e) (vote_inserts t) ->
     o = Returned (ErrorResult (Some (pg_message e)))).

(** The role [getUserRole] makes of the role table's reply. *)
Definition role_or_user (r : Reply jsstring) : jsstring :=
  match reply_error r, data r with
  | None, Some role => role
  | _, _ => lit "user"
  end.

(** The required variables that are unset or empty in a world, in the order
    of [requiredEnvVars]. *)
Definition missing_in (w : World) : list jsstring :=
  filter (fun key => unset (assoc key (env w))) requiredEnvVars.

Definition NODE_ENV_of (w : World) : option jsstring := assoc (lit "NODE_ENV") (env w).



(** The world an accepted vote leaves: the caller's vote on the poll is in
    the votes table, once. *)
Definition holds_vote_of_caller (w : World) (pollId : jsstring) : Prop :=
  configured w /\
  exists who row,
    signed_in_as w who /\ outage w votes_table = None /\
    filter (vote_of pollId (u_id who)) (votes w) = [row].

(* ================================================================= *)
(** * Properties *)

(** ** Strings and sets *)

Lemma str_eqb_eq (a b : jsstring) : str_eqb a b = true <-> a = b.
Proof.
  revert b; induction a as [|x a IH]; intros [|y b]; simpl; split;
    try congruence; try reflexivity.
  - intros H. apply andb_true_iff in H. destruct H as [Hx Hab].
    apply N.eqb_eq in Hx. apply IH in Hab. congruence.
  - intros H. injection H as -> ->. rewrite N.eqb_refl. simpl. now apply IH.
Qed.

Lemma str_eqb_neq (a b : jsstring) : str_eqb a b = false <-> a <> b.
Proof.
  split.
  - intros H E. apply str_eqb_eq in E. congruence.
  - intros H. destruct (str_eqb a b) eqn:E; [|reflexivity].
    apply str_eqb_eq in E. contradiction.
Qed.

Lemma Set_has_In (s : list jsstring) (x : jsstring) : Set_has s x = true <-> In x s.
Proof.
  induction s as [|y s IH]; simpl.
  - split; [discriminate | contradiction].
  - rewrite orb_true_iff, str_eqb_eq, IH. reflexivity.
Qed.

Lemma Set_from_size_le (xs acc : list jsstring) :
  length (fold_left Set_add xs acc) <= length acc + length xs.
Proof.
  revert acc; induction xs as [|x xs IH]; intros acc; simpl; [lia|].
  specialize (IH (Set_add acc x)). unfold Set_add in *.
  destruct (Set_has acc x); [lia|]. rewrite length_app in IH. simpl in IH. lia.
Qed.

Lemma Set_from_size_acc (xs acc : list jsstring) :
  NoDup acc ->
  (length (fold_left Set_add xs acc) = length acc + length xs <-> NoDup (acc ++ xs)).
Proof.
  revert acc; induction xs as [|x xs IH]; intros acc Hacc; simpl.
  - rewrite app_nil_r. split; [auto | lia].
  - unfold Set_add at 2. destruct (Set_has acc x) eqn:Hx.
    + apply Set_has_In in Hx. split.
      * intros H. pose proof (Set_from_size_le xs acc). lia.
      * intros H. exfalso. apply NoDup_remove_2 in H. apply H.
        apply in_or_app. now left.
    + assert (Hn : ~ In x acc) by (rewrite <- Set_has_In; congruence).
      assert (Hacc' : NoDup (acc ++ [x])).
      { apply NoDup_app; [assumption | repeat constructor; simpl; tauto |].
        intros y Hy [<-|[]]. contradiction. }
      specialize (IH (acc ++ [x]) Hacc'). rewrite length_app in IH. simpl in IH.
      rewrite <- app_assoc in IH. simpl in IH. rewrite <- IH. lia.
Qed.

(** [new Set(xs).size] equals [xs.length] exactly when no two entries of
    [xs] are equal. *)
Lemma Set_size_NoDup (xs : list jsstring) :
  Set_size (Set_from xs) = length xs <-> NoDup xs.
Proof.
  unfold Set_size, Set_from.
  pose proof (@Set_from_size_acc xs [] (NoDup_nil _)) as H. simpl in H. exact H.
Qed.

(** ** [JSON.parse] reads back what [JSON.stringify] wrote *)

Lemma escape_reads_back_from (start : N) (count : nat) (c : N) :
  forallb escape_reads_back (map (fun i => (start + N.of_nat i)%N) (seq 0 count)) = true ->
  (start <= c)%N -> (c < start + N.of_nat count)%N ->
  escape_reads_back c = true.
Proof.
  intros Hall Hlo Hhi. rewrite forallb_forall in Hall. apply Hall.
  apply in_map_iff. exists (N.to_nat (c - start)). split.
  - rewrite N2Nat.id. lia.
  - apply in_seq. lia.
Qed.

Lemma escape_reads_back_escaped (c : N) :
  (c <? 32)%N || (is_high_surrogate c || is_low_surrogate c) = true ->
  escape_reads_back c = true.
Proof.
  intros H. apply orb_true_iff in H. destruct H as [H|H].
  - apply N.ltb_lt in H.
    apply (@escape_reads_back_from 0%N 32); [vm_compute; reflexivity | lia | lia].
  - unfold is_high_surrogate, is_low_surrogate in H.
    apply (@escape_reads_back_from 55296%N 2048); [vm_compute; reflexivity | |];
      repeat (apply orb_true_iff in H; destruct H as [H|H]);
      apply andb_true_iff in H; destruct H as [H1 H2];
      apply N.leb_le in H1, H2; lia.
Qed.

Lemma parse_unicode_escape (c : N) (cur : jsstring) (done : list jsstring) (rest : jsstring) :
  escape_reads_back c = true ->
  parse_go InString cur done (unicode_escape c ++ rest) =
  parse_go InString (c :: cur) done rest.
Proof.
  unfold escape_reads_back, unicode_escape. cbn [app parse_go N.eqb].
  intros H.
  change (92 =? 34)%N with false. change (92 =? 92)%N with true.
  change (117 =? 34)%N with false. change (117 =? 92)%N with false.
  change (117 =? 47)%N with false. change (117 =? 98)%N with false.
  change (117 =? 102)%N with false. change (117 =? 110)%N with false.
  change (117 =? 114)%N with false. change (117 =? 116)%N with false.
  change (117 =? 117)%N with true. cbv iota.
  destruct (hex4 _ _ _ _) as [u|]; [|discriminate].
  apply N.eqb_eq in H. now subst u.
Qed.

Lemma parse_quote_unit (c : N) (cur : jsstring) (done : list jsstring) (rest : jsstring) :
  parse_go InString cur done (quote_unit c ++ rest) =
  parse_go InString (c :: cur) done rest.
Proof.
  unfold quote_unit.
  destruct (c =? 8)%N eqn:E8; [apply N.eqb_eq in E8; subst; reflexivity|].
  destruct (c =? 9)%N eqn:E9; [apply N.eqb_eq in E9; subst; reflexivity|].
  destruct (c =? 10)%N eqn:E10; [apply N.eqb_eq in E10; subst; reflexivity|].
  destruct (c =? 12)%N eqn:E12; [apply N.eqb_eq in E12; subst; reflexivity|].
  destruct (c =? 13)%N eqn:E13; [apply N.eqb_eq in E13; subst; reflexivity|].
  destruct (c =? 34)%N eqn:E34; [apply N.eqb_eq in E34; subst; reflexivity|].
  destruct (c =? 92)%N eqn:E92; [apply N.eqb_eq in E92; subst; reflexivity|].
  destruct (c <? 32)%N eqn:Elow.
  { apply parse_unicode_escape, escape_reads_back_escaped. now rewrite Elow. }
  destruct (is_high_surrogate c || is_low_surrogate c) eqn:Esur.
  { apply parse_unicode_escape, escape_reads_back_escaped. now rewrite Esur, orb_true_r. }
  cbn [app parse_go]. now rewrite E34, E92, Elow.
Qed.

(** A code unit copied as it is: a surrogate is no quote, no backslash and
    no control character. *)
Lemma parse_surrogate (c : N) (cur : jsstring) (done : list jsstring) (rest : jsstring) :
  is_high_surrogate c || is_low_surrogate c = true ->
  parse_go InString cur done (c :: rest) = parse_go InString (c :: cur) done rest.
Proof.
  intros H. cbn [parse_go].
  assert (Hc : (55296 <= c)%N).
  { unfold is_high_surrogate, is_low_surrogate in H.
    apply orb_true_iff in H. destruct H as [H|H];
      apply andb_true_iff in H; destruct H as [H1 H2]; apply N.leb_le in H1; lia. }
  assert (E34 : (c =? 34)%N = false) by (apply N.eqb_neq; lia).
  assert (E92 : (c =? 92)%N = false) by (apply N.eqb_neq; lia).
  assert (Elow : (c <? 32)%N = false) by (apply N.ltb_ge; lia).
  now rewrite E34, E92, Elow.
Qed.

Lemma quote_body_step (c d : N) (s : jsstring) :
  quote_body (c :: d :: s) =
  if is_high_surrogate c && is_low_surrogate d
  then c :: d :: quote_body s
  else quote_unit c ++ quote_body (d :: s).
Proof. reflexivity. Qed.

Lemma parse_quote_body_upto (n : nat) :
  forall (s cur : jsstring) (done : list jsstring) (rest : jsstring),
    length s <= n ->
    parse_go InString cur done (quote_body s ++ rest) =
    parse_go InString (rev s ++ cur) done rest.
Proof.
  induction n as [|n IH]; intros s cur done rest Hlen.
  - destruct s; [reflexivity | simpl in Hlen; lia].
  - destruct s as [|c [|d s]]; [reflexivity | |].
    + cbn [quote_body]. apply parse_quote_unit.
    + rewrite quote_body_step.
      destruct (is_high_surrogate c && is_low_surrogate d) eqn:Epair.
      * apply andb_true_iff in Epair. destruct Epair as [Hc Hd].
        cbn [app]. rewrite parse_surrogate by (now rewrite Hc).
        rewrite parse_surrogate by (now rewrite Hd, orb_true_r).
        rewrite IH by (simpl in *; lia).
        cbn [rev]. now rewrite <- !app_assoc.
      * rewrite <- app_assoc, parse_quote_unit.
        rewrite IH by (simpl in *; lia).
        cbn [rev]. now rewrite <- !app_assoc.
Qed.

Lemma parse_string_literal (s : jsstring) (done : list jsstring) (rest : jsstring) :
  parse_go InString [] done (quote_body s ++ 34%N :: rest) =
  parse_go AfterString [] (s :: done) rest.
Proof.
  rewrite (@parse_quote_body_upto (length s)) by lia.
  rewrite app_nil_r. cbn [parse_go].
  change (34 =? 34)%N with true. cbv iota. now rewrite rev_involutive.
Qed.

Lemma join_comma_quote (x : jsstring) (xs : list jsstring) :
  join_comma (map QuoteJSONString (x :: xs)) ++ [93%N] =
  34%N :: quote_body x ++ 34%N :: after_first xs.
Proof.
  unfold after_first, QuoteJSONString.
  destruct xs; cbn [map join_comma app]; rewrite <- ?app_assoc; reflexivity.
Qed.

Lemma parse_elements (xs : list jsstring) :
  forall (x : jsstring) (done : list jsstring),
    parse_go InString [] done (quote_body x ++ 34%N :: after_first xs) =
    Some (rev done ++ x :: xs).
Proof.
  induction xs as [|y xs IH]; intros x done; rewrite parse_string_literal.
  - reflexivity.
  - unfold after_first. rewrite join_comma_quote. cbn [parse_go].
    change (44 =? 93)%N with false. change (44 =? 44)%N with true.
    change (34 =? 34)%N with true. cbv iota.
    rewrite IH. cbn [rev]. now rewrite <- app_assoc.
Qed.

(** [JSON.parse(JSON.stringify(xs))] is [xs], for every array of strings. *)
Lemma JSON_parse_stringify (xs : list jsstring) :
  JSON_parse (JSON_stringify xs) = Some xs.
Proof.
  unfold JSON_parse, JSON_stringify. destruct xs as [|x xs]; [reflexivity|].
  cbn [app]. rewrite join_comma_quote. cbn [parse_go].
  change (91 =? 91)%N with true. change (34 =? 93)%N with false.
  change (34 =? 34)%N with true. cbv iota.
  apply (parse_elements xs x []).
Qed.

(** ** Running programs *)

Lemma run_bind (A B : Type) (p : Prog A) (f : A -> Prog B) (w : World) :
  run (bind p f) w =
  match outcome (run p w) with
  | Returned a =>
      let r := run (f a) (final (run p w)) in
      {| outcome := outcome r; trace := trace (run p w) ++ trace r; final := final r |}
  | Thrown e =>
      {| outcome := Thrown e; trace := trace (run p w); final := final (run p w) |}
  end.
Proof.
  revert w; induction p as [a|e|X c k IH]; intros w; simpl.
  - now destruct (run (f a) w).
  - reflexivity.
  - destruct (respond c w) as [x w']. simpl. rewrite IH.
    now destruct (outcome (run (k x) w')).
Qed.

Lemma run_exec (R : Type) (p : Prog R) (w : World) :
  exec p (trace (run p w)) (outcome (run p w)).
Proof.
  revert w; induction p as [a|e|X c k IH]; intros w; simpl; auto.
  destruct (respond c w) as [x w']. simpl. eauto.
Qed.

Lemma run_sanitize_all (xs : list jsstring) (w : World) :
  run (mapM (fun opt => call (DOMPurify_sanitize opt)) xs) w =
  {| outcome := Returned (map (dompurify w) xs);
     trace := map (fun opt => Ev (DOMPurify_sanitize opt) (dompurify w opt)) xs;
     final := w |}.
Proof.
  induction xs as [|x xs IH]; [reflexivity|].
  cbn [mapM]. unfold call in *. cbn [bind run respond].
  rewrite run_bind, IH. cbn. now rewrite app_nil_r.
Qed.

(** In a configured world [createClient] returns the client after four
    calls and leaves the world as it was. *)
Lemma run_createClient (w : World) :
  configured w ->
  run createClient w =
  {| outcome := Returned (client_of w);
     trace := [Ev NextCookies tt;
               Ev (ProcessEnv NEXT_PUBLIC_SUPABASE_URL)
                  (assoc NEXT_PUBLIC_SUPABASE_URL (env w));
               Ev (ProcessEnv NEXT_PUBLIC_SUPABASE_ANON_KEY)
                  (assoc NEXT_PUBLIC_SUPABASE_ANON_KEY (env w));
               Ev (CreateServerClient (supabaseUrl (client_of w))
                                      (supabaseAnonKey (client_of w))) None];
     final := w |}.
Proof.
  intros [[Hu Hk] Hc]. revert Hc.
  unfold createClient, createServerClient, getEnvVariable, client_of.
  cbn [bind run respond supabaseUrl supabaseAnonKey]. rewrite Hu.
  cbn [bind run respond]. rewrite Hk.
  destruct (assoc NEXT_PUBLIC_SUPABASE_URL (env w)) as [url|]; [|discriminate].
  destruct (assoc NEXT_PUBLIC_SUPABASE_ANON_KEY (env w)) as [key|]; [|discriminate].
  intros Hc. cbn [bind run respond]. rewrite Hc. reflexivity.
Qed.

(** A request that starts with [createClient], in a configured world. *)
Lemma run_with_client (R : Type) (f : Client -> Prog R) (w : World) :
  configured w ->
  run (bind createClient f) w =
  {| outcome := outcome (run (f (client_of w)) w);
     trace := trace (run createClient w) ++ trace (run (f (client_of w)) w);
     final := final (run (f (client_of w)) w) |}.
Proof.
  intros H. rewrite run_bind, (run_createClient H). reflexivity.
Qed.

(** ** C3: [validateQuestion] *)

(** The four ways [validateQuestion] ends, on the trimmed text. *)
Lemma validateQuestion_run (w : World) (question : jsstring) :
  (trim question = [] ->
   run (validateQuestion question) w =
   rejected (lit "Poll question cannot be empty") w) /\
  (trim question <> [] -> length (trim question) < 5 ->
   run (validateQuestion question) w =
   rejected (lit "Poll question must be at least 5 characters long") w) /\
  (5 <= length (trim question) -> 200 < length (trim question) ->
   run (validateQuestion question) w =
   rejected (lit "Poll question cannot exceed 200 characters") w) /\
  (5 <= length (trim question) <= 200 ->
   run (validateQuestion question) w =
   {| outcome := Returned (valid (dompurify w (trim question)));
      trace := [Ev (DOMPurify_sanitize (trim question)) (dompurify w (trim question))];
      final := w |}).
Proof.
  unfold validateQuestion.
  repeat split.
  - intros ->. reflexivity.
  - intros Hne Hlt. destruct (trim question) as [|c t]; [congruence|].
    cbn [is_empty]. apply Nat.ltb_lt in Hlt. now rewrite Hlt.
  - intros Hge Hgt. destruct (trim question) as [|c t]; [simpl in Hge; lia|].
    cbn [is_empty].
    assert (H5 : (length (c :: t) <? 5) = false) by (apply Nat.ltb_ge; lia).
    apply Nat.ltb_lt in Hgt. now rewrite H5, Hgt.
  - intros [Hge Hle]. destruct (trim question) as [|c t]; [simpl in Hge; lia|].
    cbn [is_empty].
    assert (H5 : (length (c :: t) <? 5) = false) by (apply Nat.ltb_ge; lia).
    assert (H200 : (200 <? length (c :: t)) = false) by (apply Nat.ltb_ge; lia).
    now rewrite H5, H200.
Qed.

(** X25.  [validateQuestion] trims its input and applies its rules to the
    trimmed text in the order empty, too short (below 5), too long (above
    200); a rejection returns the rule's message without a call to the
    sanitizer; a trimmed text of 5 to 200 code units is accepted with the
    sanitizer's output for the trimmed text as [sanitizedValue], after one
    call to the sanitizer.  Three blanks are rejected as empty. *)
Theorem validateQuestion_rules (w : World) (question : jsstring) :
  (trim question = [] ->
   run (validateQuestion question) w =
   rejected (lit "Poll question cannot be empty") w) /\
  (trim question <> [] -> length (trim question) < 5 ->
   run (validateQuestion question) w =
   rejected (lit "Poll question must be at least 5 characters long") w) /\
  (5 <= length (trim question) -> 200 < length (trim question) ->
   run (validateQuestion question) w =
   rejected (lit "Poll question cannot exceed 200 characters") w) /\
  (5 <= length (trim question) <= 200 ->
   run (validateQuestion question) w =
   {| outcome := Returned (valid (dompurify w (trim question)));
      trace := [Ev (DOMPurify_sanitize (trim question)) (dompurify w (trim question))];
      final := w |}) /\
  run (validateQuestion (lit "   ")) w =
  rejected (lit "Poll question cannot be empty") w.
Proof.
  destruct (validateQuestion_run w question) as (H1 & H2 & H3 & H4).
  refine (conj H1 (conj H2 (conj H3 (conj H4 _)))).
  apply (validateQuestion_run w (lit "   ")). reflexivity.
Qed.

Lemma validateQuestion_rules_witness :
  run (validateQuestion (lit "  Tea or coffee?  ")) (world credentials anonymous) =
  {| outcome := Returned (valid (lit "Tea or coffee?"));
     trace := [Ev (DOMPurify_sanitize (lit "Tea or coffee?")) (lit "Tea or coffee?")];
     final := world credentials anonymous |}.
Proof.
  apply (proj1 (proj2 (proj2 (proj2
    (validateQuestion_rules (world credentials anonymous)
       (lit "  Tea or coffee?  ")))))).
  vm_compute; lia.
Defined.

(** C3.  [validateQuestion] hands the trimmed text to [DOMPurify.sanitize]
    without options and returns what comes back: a question of 5 to 200
    code units, once trimmed, that the library leaves as it is, is accepted
    with the trimmed text itself as [sanitizedValue], markup included.  The
    library leaves [<b>Hello</b> world] as it is, so this question is
    accepted with its tags, where the markup-stripped text is
    [Hello world]. *)
Theorem validateQuestion_keeps_markup (w : World) (question : jsstring) :
  5 <= length (trim question) <= 200 ->
  dompurify w (trim question) = trim question ->
  run (validateQuestion question) w =
  {| outcome := Returned {| isValid := true; error := None;
                            sanitizedValue := Some (trim question) |};
     trace := [Ev (DOMPurify_sanitize (trim question)) (trim question)];
     final := w |}.
Proof.
  intros Hlen Hkept. destruct (validateQuestion_run w question) as (_ & _ & _ & H4).
  rewrite (H4 Hlen), Hkept. reflexivity.
Qed.

Lemma validateQuestion_keeps_markup_witness :
  run (validateQuestion (lit "<b>Hello</b> world"))
    (with_dompurify (world credentials anonymous) keep_formatting) =
  {| outcome := Returned {| isValid := true; error := None;
                            sanitizedValue := Some (lit "<b>Hello</b> world") |};
     trace := [Ev (DOMPurify_sanitize (lit "<b>Hello</b> world")) (lit "<b>Hello</b> world")];
     final := with_dompurify (world credentials anonymous) keep_formatting |} /\
  strip_markup (lit "<b>Hello</b> world") = lit "Hello world".
Proof.
  split; [|reflexivity].
  apply (@validateQuestion_keeps_markup
           (with_dompurify (world credentials anonymous) keep_formatting)
           (lit "<b>Hello</b> world")).
  - vm_compute; lia.
  - reflexivity.
Defined.

(** ** C4: [validateOptions] *)

(** The four ways [validateOptions] ends, on the trimmed non-empty entries. *)
Lemma validateOptions_run (w : World) (options : list jsstring) :
  let kept := filter Boolean (map trim options) in
  (length kept < 2 ->
   run (validateOptions options) w =
   rejected (lit "Poll must have at least 2 non-empty options") w) /\
  (2 <= length kept -> ~ NoDup kept ->
   run (validateOptions options) w = rejected (lit "Poll options must be unique") w) /\
  (2 <= length kept -> NoDup kept -> (exists o, In o kept /\ 100 < length o) ->
   run (validateOptions options) w =
   rejected (lit "Poll options cannot exceed 100 characters") w) /\
  (2 <= length kept -> NoDup kept -> (forall o, In o kept -> length o <= 100) ->
   run (validateOptions options) w =
   {| outcome := Returned (valid (JSON_stringify (map (dompurify w) kept)));
      trace := map (fun o => Ev (DOMPurify_sanitize o) (dompurify w o)) kept;
      final := w |}).
Proof.
  intros kept. unfold validateOptions. fold kept.
  assert (Hfew : 2 <= length kept -> (length kept <? 2) = false)
    by (intros; apply Nat.ltb_ge; lia).
  assert (Huniq : NoDup kept -> negb (Set_size (Set_from kept) =? length kept) = false).
  { intros H. apply Set_size_NoDup in H. rewrite H, Nat.eqb_refl. reflexivity. }
  repeat split.
  - intros H. apply Nat.ltb_lt in H. now rewrite H.
  - intros H2 Hdup. rewrite (Hfew H2).
    destruct (Set_size (Set_from kept) =? length kept) eqn:E; [|reflexivity].
    apply Nat.eqb_eq, Set_size_NoDup in E. contradiction.
  - intros H2 Hnd Hlong. rewrite (Hfew H2), (Huniq Hnd).
    assert (E : existsb (fun option => 100 <? length option) kept = true).
    { apply existsb_exists. destruct Hlong as [o [Hin Hlen]]. exists o.
      split; [assumption | now apply Nat.ltb_lt]. }
    now rewrite E.
  - intros H2 Hnd Hshort. rewrite (Hfew H2), (Huniq Hnd).
    assert (E : existsb (fun option => 100 <? length option) kept = false).
    { destruct (existsb (fun option => 100 <? length option) kept) eqn:E; [|reflexivity].
      apply existsb_exists in E. destruct E as [o [Hin Hlen]].
      apply Nat.ltb_lt in Hlen. specialize (Hshort o Hin). lia. }
    rewrite E, run_bind, run_sanitize_all. cbn. now rewrite app_nil_r.
Qed.

(** C4.  [validateOptions] trims every entry and drops the empty ones; on
    what is kept it rejects, in this order, fewer than 2 entries, two equal
    entries (equal as code-unit sequences, so case matters), an entry longer
    than 100; otherwise it sanitizes each kept entry by its own call and
    returns the JSON text of the sanitized list.  For a sanitizer that leaves
    "A" and "a" alone, ["A","a"] is accepted with the JSON text of
    ["A","a"], which parses back to that list; ["Yes","Yes "] is rejected as
    not unique. *)
Theorem validateOptions_rules (w : World) (options : list jsstring) :
  let kept := filter Boolean (map trim options) in
  (length kept < 2 ->
   run (validateOptions options) w =
   rejected (lit "Poll must have at least 2 non-empty options") w) /\
  (2 <= length kept -> ~ NoDup kept ->
   run (validateOptions options) w = rejected (lit "Poll options must be unique") w) /\
  (2 <= length kept -> NoDup kept -> (exists o, In o kept /\ 100 < length o) ->
   run (validateOptions options) w =
   rejected (lit "Poll options cannot exceed 100 characters") w) /\
  (2 <= length kept -> NoDup kept -> (forall o, In o kept -> length o <= 100) ->
   run (validateOptions options) w =
   {| outcome := Returned (valid (JSON_stringify (map (dompurify w) kept)));
      trace := map (fun o => Ev (DOMPurify_sanitize o) (dompurify w o)) kept;
      final := w |} /\
   JSON_parse (JSON_stringify (map (dompurify w) kept)) = Some (map (dompurify w) kept)) /\
  (dompurify w (lit "A") = lit "A" -> dompurify w (lit "a") = lit "a" ->
   outcome (run (validateOptions [lit "A"; lit "a"]) w) =
   Returned (valid (JSON_stringify [lit "A"; lit "a"])) /\
   JSON_stringify [lit "A"; lit "a"] = [91; 34; 65; 34; 44; 34; 97; 34; 93]%N /\
   JSON_parse (JSON_stringify [lit "A"; lit "a"]) = Some [lit "A"; lit "a"]) /\
  run (validateOptions [lit "Yes"; lit "Yes "]) w =
  rejected (lit "Poll options must be unique") w.
Proof.
  intros kept.
  destruct (validateOptions_run w options) as (H1 & H2 & H3 & H4).
  refine (conj H1 (conj H2 (conj H3 (conj _ (conj _ eq_refl))))).
  - intros Hge Hnd Hshort. split; [now apply H4 | apply JSON_parse_stringify].
  - intros HA Ha.
    destruct (validateOptions_run w [lit "A"; lit "a"]) as (_ & _ & _ & HAa).
    change (filter Boolean (map trim [lit "A"; lit "a"])) with [lit "A"; lit "a"] in HAa.
    split; [|split; [reflexivity | apply JSON_parse_stringify]].
    rewrite HAa.
    + cbn [outcome map]. now rewrite HA, Ha.
    + simpl; lia.
    + repeat constructor; simpl; intuition discriminate.
    + intros o [<-|[<-|[]]]; simpl; lia.
Qed.

Lemma validateOptions_rules_witness :
  run (validateOptions [lit " tea "; lit "  "; lit "mate"]) (world credentials anonymous) =
  {| outcome := Returned (valid (JSON_stringify [lit "tea"; lit "mate"]));
     trace := [Ev (DOMPurify_sanitize (lit "tea")) (lit "tea");
               Ev (DOMPurify_sanitize (lit "mate")) (lit "mate")];
     final := world credentials anonymous |} /\
  outcome (run (validateOptions [lit "A"; lit "a"]) (world credentials anonymous)) =
  Returned (valid [91; 34; 65; 34; 44; 34; 97; 34; 93]%N).
Proof.
  split.
  - apply (proj1 (proj2 (proj2 (proj2
      (validateOptions_rules (world credentials anonymous)
         [lit " tea "; lit "  "; lit "mate"]))))).
    + vm_compute; lia.
    + vm_compute. repeat constructor; simpl; intuition discriminate.
    + intros o H. vm_compute in H. destruct H as [<-|[<-|[]]]; vm_compute; lia.
  - apply (proj1 (proj2 (proj2 (proj2 (proj2
      (validateOptions_rules (world credentials anonymous) [])))))); reflexivity.
Defined.

(** ** C6: what acceptance guarantees *)

(** C6, as stated, fails: the rules are checked before sanitizing.  With a
    sanitizer that removes tags, a question made of an empty script element
    is accepted and sanitized to the empty text, and two options that differ
    only by such an element are accepted and sanitized to equal texts. *)
Lemma sanitized_invariant_fails :
  ~ sanitized_question_in_range (world credentials anonymous) /\
  ~ sanitized_options_well_formed (world credentials anonymous).
Proof.
  split.
  - intros H. specialize (H (lit "<script></script>") [] eq_refl).
    simpl in H. lia.
  - intros H.
    specialize (H [lit "x<script></script>"; lit "x"] [lit "x"; lit "x"] eq_refl).
    destruct H as (_ & Hnd & _). inversion Hnd as [|? ? Hin _]. apply Hin. now left.
Qed.

Lemma Boolean_length (s : jsstring) : Boolean s = true -> 1 <= length s.
Proof. destruct s; simpl; [discriminate | lia]. Qed.

(** C6, amended.  Acceptance guarantees the invariant on the trimmed text
    that was checked, before sanitizing: an accepted question has a trimmed
    length of 5 to 200 and its sanitized value is the sanitizer's output for
    the trimmed text; an accepted option list has at least 2 trimmed
    non-empty entries, pairwise distinct, each of length 1 to 100, and its
    sanitized value is the JSON text of their sanitized forms, one per kept
    entry. *)
Theorem accepted_input_invariant (w : World) :
  (forall question r,
     outcome (run (validateQuestion question) w) = Returned r -> isValid r = true ->
     sanitizedValue r = Some (dompurify w (trim question)) /\
     5 <= length (trim question) <= 200) /\
  (forall options r,
     outcome (run (validateOptions options) w) = Returned r -> isValid r = true ->
     let kept := filter Boolean (map trim options) in
     sanitizedValue r = Some (JSON_stringify (map (dompurify w) kept)) /\
     2 <= length kept /\ NoDup kept /\
     (forall o, In o kept -> 1 <= length o <= 100) /\
     length (map (dompurify w) kept) = length kept).
Proof.
  split.
  - intros question r Hrun Hvalid.
    destruct (validateQuestion_run w question) as (H1 & H2 & H3 & H4).
    destruct (trim question) as [|c t] eqn:Et.
    + rewrite H1 in Hrun by reflexivity. injection Hrun as <-. discriminate.
    + destruct (Nat.lt_ge_cases (length (c :: t)) 5) as [Hlt|Hge].
      * rewrite H2 in Hrun by (assumption || discriminate).
        injection Hrun as <-. discriminate.
      * destruct (Nat.lt_ge_cases 200 (length (c :: t))) as [Hgt|Hle].
        -- rewrite H3 in Hrun by assumption. injection Hrun as <-. discriminate.
        -- rewrite H4 in Hrun by (split; assumption). injection Hrun as <-.
           split; [reflexivity | split; assumption].
  - intros options r Hrun Hvalid kept.
    destruct (validateOptions_run w options) as (H1 & H2 & H3 & H4). fold kept in H1, H2, H3, H4.
    destruct (Nat.lt_ge_cases (length kept) 2) as [Hlt|Hge].
    { rewrite H1 in Hrun by assumption. injection Hrun as <-. discriminate. }
    destruct (Nat.eq_dec (Set_size (Set_from kept)) (length kept)) as [Hnd|Hdup].
    2:{ rewrite <- Set_size_NoDup in H2. rewrite H2 in Hrun by assumption.
        injection Hrun as <-. discriminate. }
    apply Set_size_NoDup in Hnd.
    destruct (existsb (fun o => 100 <? length o) kept) eqn:E.
    { apply existsb_exists in E. destruct E as [o [Hin Hlen]]. apply Nat.ltb_lt in Hlen.
      rewrite H3 in Hrun by eauto. injection Hrun as <-. discriminate. }
    assert (Hshort : forall o, In o kept -> length o <= 100).
    { intros o Hin. destruct (Nat.lt_ge_cases 100 (length o)) as [Hgt|Hle]; [|assumption].
      exfalso. assert (existsb (fun o => 100 <? length o) kept = true).
      { apply existsb_exists. exists o. split; [assumption | now apply Nat.ltb_lt]. }
      congruence. }
    rewrite H4 in Hrun by assumption. injection Hrun as <-.
    repeat split; try assumption; try reflexivity.
    + apply Boolean_length. unfold kept in H. apply filter_In in H. apply H.
    + now apply Hshort.
    + apply length_map.
Qed.

Lemma accepted_input_invariant_witness :
  (sanitizedValue (valid []) = Some (strip_markup (trim (lit "<script></script>"))) /\
   5 <= length (trim (lit "<script></script>")) <= 200) /\
  2 <= length (filter Boolean (map trim [lit "x<script></script>"; lit "x"])).
Proof.
  split.
  - apply (proj1 (accepted_input_invariant (world credentials anonymous))
             (lit "<script></script>") (valid [])); reflexivity.
  - apply (proj2 (accepted_input_invariant (world credentials anonymous))
             [lit "x<script></script>"; lit "x"] (valid (JSON_stringify [lit "x"; lit "x"])));
      reflexivity.
Defined.

(** ** C1: the projection [getPollById] returns *)

Lemma is_admin_reply_iff (w : World) (who : User) :
  is_admin_reply (role_reply w (u_id who)) = true <-> role_lookup_yields_admin w who.
Proof.
  unfold is_admin_reply, role_reply, role_lookup_yields_admin, query.
  destruct (outage w user_roles_table) as [e|]; simpl.
  - split; [discriminate | intros [H _]; discriminate].
  - destruct (filter (role_of (u_id who)) (user_roles w)) as [|row [|row' rows]]; simpl.
    + split; [discriminate | intros [_ [r [H _]]]; discriminate].
    + rewrite str_eqb_eq. split.
      * intros H. split; [reflexivity | exists row; auto].
      * intros [_ [r [H Hr]]]. injection H as <-. exact Hr.
    + split; [discriminate | intros [_ [r [H _]]]; discriminate].
Qed.

(** In the world's replies [data] is set only when [error] is not, so the
    test on [data] alone that [getPollById] makes is the full test. *)
Lemma data_admin_reply (w : World) (userId : jsstring) :
  match data (role_reply w userId) with
  | Some role => str_eqb role (lit "admin")
  | None => false
  end = is_admin_reply (role_reply w userId).
Proof.
  unfold is_admin_reply, role_reply, query.
  destruct (outage w user_roles_table); [reflexivity|].
  now destruct (filter (role_of userId) (user_roles w)) as [|row [|row' rows]].
Qed.

(** C1.  With the backend configured, for every poll stored under the
    requested id and every caller, [getPollById] returns without error the
    stored row itself, owner [user_id] included, exactly when the caller
    owns the poll or the lookup of the caller's role yields admin; for every
    other caller, anonymous ones included, it returns the object holding
    only [id], [question], [options] and [created_at], which has no
    [user_id]. *)
Theorem getPollById_projection (w : World) (id : jsstring) (row : PollRow) :
  configured w ->
  outage w polls_table = None ->
  filter (poll_has_id id) (polls w) = [row] ->
  exists r,
    outcome (run (getPollById id) w) = Returned r /\
    poll_error r = None /\
    (caller_owns w row \/ caller_is_admin w ->
     poll r = Some (FullPoll row) /\ view_user_id (FullPoll row) = Some (p_user_id row)) /\
    (~ (caller_owns w row \/ caller_is_admin w) ->
     poll r = Some (PublicPoll (p_id row) (p_question row) (p_options row) (p_created_at row)) /\
     view_user_id (public_view row) = None).
Proof.
  intros Hconf Hup Hrow. unfold getPollById.
  rewrite (run_with_client _ Hconf). cbn [outcome run respond].
  unfold query. rewrite Hup, Hrow. cbn [single reply_error data outcome run respond].
  unfold caller_owns, caller_is_admin.
  destruct (user (session w)) as [who|] eqn:Hwho.
  - destruct (str_eqb (u_id who) (p_user_id row)) eqn:Hown; cbn [negb].
    + apply str_eqb_eq in Hown. eexists. split; [reflexivity|]. cbn.
      split; [reflexivity|]. split; [auto|].
      intros Hno. exfalso. apply Hno. left. eauto.
    + apply str_eqb_neq in Hown. cbn [run respond outcome].
      fold (role_reply w (u_id who)). rewrite data_admin_reply.
      destruct (is_admin_reply (role_reply w (u_id who))) eqn:Hadm; cbn [negb].
      * eexists. split; [reflexivity|]. cbn. split; [reflexivity|]. split; [auto|].
        intros Hno. exfalso. apply Hno. right. exists who.
        split; [reflexivity | now apply is_admin_reply_iff].
      * eexists. split; [reflexivity|]. cbn. split; [reflexivity|]. split; [|auto].
        intros [[who' [E Ho]]|[who' [E Ha]]]; injection E as <-.
        -- contradiction.
        -- apply is_admin_reply_iff in Ha. congruence.
  - eexists. split; [reflexivity|]. cbn. split; [reflexivity|]. split; [|auto].
    intros [[who' [E _]]|[who' [E _]]]; discriminate.
Qed.

Lemma getPollById_projection_witness :
  (exists r,
     outcome (run (getPollById (lit "p-1")) (world credentials (signed_in carol))) = Returned r /\
     poll r = Some (FullPoll lunch)) /\
  (exists r,
     outcome (run (getPollById (lit "p-1")) (world credentials (signed_in bob))) = Returned r /\
     poll r = Some (public_view lunch)) /\
  (exists r,
     outcome (run (getPollById (lit "p-1")) (world credentials anonymous)) = Returned r /\
     poll r = Some (public_view lunch)).
Proof.
  repeat split.
  - destruct (@getPollById_projection (world credentials (signed_in carol)) (lit "p-1") lunch)
      as (r & Hr & _ & Hfull & _); [vm_compute; auto | reflexivity | reflexivity |].
    exists r. split; [exact Hr|]. apply Hfull. right. exists carol.
    split; [reflexivity|]. split; [reflexivity|].
    eexists. split; reflexivity.
  - destruct (@getPollById_projection (world credentials (signed_in bob)) (lit "p-1") lunch)
      as (r & Hr & _ & _ & Hpub); [vm_compute; auto | reflexivity | reflexivity |].
    exists r. split; [exact Hr|]. apply Hpub.
    intros [[who [E Ho]]|[who [E [_ [rr [Hf Hrole]]]]]]; injection E as <-.
    + vm_compute in Ho. discriminate.
    + vm_compute in Hf. injection Hf as <-. vm_compute in Hrole. discriminate.
  - destruct (@getPollById_projection (world credentials anonymous) (lit "p-1") lunch)
      as (r & Hr & _ & _ & Hpub); [vm_compute; auto | reflexivity | reflexivity |].
    exists r. split; [exact Hr|]. apply Hpub.
    intros [[who [E _]]|[who [E _]]]; discriminate.
Defined.

(** ** C2: the decision of [checkAdminAccess] *)

Lemma request_cookies_set_nextUrl (cs : list Cookie) (request : NextRequest) :
  nextUrl (fold_left request_cookies_set cs request) = nextUrl request.
Proof.
  revert request; induction cs as [|c cs IH]; intros request; simpl; [reflexivity|].
  now rewrite IH.
Qed.

Lemma setAll_nextUrl (calls : list (list Cookie)) (state : NextRequest * NextResponse) :
  nextUrl (fst (fold_left setAll calls state)) = nextUrl (fst state).
Proof.
  revert state; induction calls as [|cs calls IH]; intros state; simpl; [reflexivity|].
  rewrite IH. unfold setAll. simpl. apply request_cookies_set_nextUrl.
Qed.

(** The three states of the backend's configuration. *)
Lemma configured_cases (w : World) :
  ~ credentials_set w \/
  (credentials_set w /\
   exists e, client_refused w (supabaseUrl (client_of w)) (supabaseAnonKey (client_of w))
             = Some e) \/
  configured w.
Proof.
  unfold configured, credentials_set.
  destruct (unset (assoc NEXT_PUBLIC_SUPABASE_URL (env w)));
    [left; intros [H _]; discriminate|].
  destruct (unset (assoc NEXT_PUBLIC_SUPABASE_ANON_KEY (env w)));
    [left; intros [_ H]; discriminate|].
  destruct (client_refused w (supabaseUrl (client_of w)) (supabaseAnonKey (client_of w)))
    as [e|]; right; [left | right]; eauto.
Qed.

Lemma credentials_set_unset (w : World) :
  credentials_set w <->
  unset (assoc NEXT_PUBLIC_SUPABASE_URL (env w))
  || unset (assoc NEXT_PUBLIC_SUPABASE_ANON_KEY (env w)) = false.
Proof. unfold credentials_set. now rewrite orb_false_iff. Qed.

(** What [checkAdminAccess] does, case by case: without the credentials, ... *)
Lemma run_checkAdminAccess_unset (w : World) (request : NextRequest) :
  ~ credentials_set w ->
  outcome (run (checkAdminAccess request) w) = Returned (to_login request).
Proof.
  rewrite credentials_set_unset. intros Hset. apply not_false_is_true in Hset.
  unfold checkAdminAccess, to_login. cbn [run respond outcome].
  destruct (assoc NEXT_PUBLIC_SUPABASE_URL (env w)) as [url|];
    [|now destruct (assoc NEXT_PUBLIC_SUPABASE_ANON_KEY (env w))].
  destruct (assoc NEXT_PUBLIC_SUPABASE_ANON_KEY (env w)) as [key|]; [|reflexivity].
  cbn [unset] in Hset. now rewrite Hset.
Qed.

(** ... with credentials the client library refuses, ... *)
Lemma run_checkAdminAccess_refused (w : World) (request : NextRequest) (e : JsError) :
  credentials_set w ->
  client_refused w (supabaseUrl (client_of w)) (supabaseAnonKey (client_of w)) = Some e ->
  run (checkAdminAccess request) w =
  {| outcome := Thrown e;
     trace := [Ev (ProcessEnv NEXT_PUBLIC_SUPABASE_URL)
                  (assoc NEXT_PUBLIC_SUPABASE_URL (env w));
               Ev (ProcessEnv NEXT_PUBLIC_SUPABASE_ANON_KEY)
                  (assoc NEXT_PUBLIC_SUPABASE_ANON_KEY (env w));
               Ev (CreateServerClient (supabaseUrl (client_of w))
                                      (supabaseAnonKey (client_of w))) (Some e)];
     final := w |}.
Proof.
  intros Hset. pose proof (proj1 (credentials_set_unset w) Hset) as Hor. revert Hor.
  unfold checkAdminAccess, createServerClient, client_of.
  cbn [run respond outcome supabaseUrl supabaseAnonKey].
  destruct (assoc NEXT_PUBLIC_SUPABASE_URL (env w)) as [url|]; [|discriminate].
  destruct (assoc NEXT_PUBLIC_SUPABASE_ANON_KEY (env w)) as [key|];
    [|cbn [unset]; rewrite orb_true_r; discriminate].
  cbn [unset]. intros -> Hc. cbn [bind run respond]. rewrite Hc. reflexivity.
Qed.

(** ... and in a configured world. *)
Lemma run_checkAdminAccess (w : World) (request : NextRequest) :
  configured w ->
  outcome (run (checkAdminAccess request) w) =
  Returned
    (match user (session w) with
     | None => to_login request
     | Some who =>
         if is_admin_reply (role_reply w (u_id who))
         then snd (after_refresh w request)
         else to_unauthorized request
     end).
Proof.
  intros [Hset Hc]. pose proof (proj1 (credentials_set_unset w) Hset) as Hor.
  revert Hor Hc.
  unfold checkAdminAccess, createServerClient, client_of, to_login, to_unauthorized,
    after_refresh.
  cbn [run respond outcome supabaseUrl supabaseAnonKey].
  destruct (assoc NEXT_PUBLIC_SUPABASE_URL (env w)) as [url|]; [|discriminate].
  destruct (assoc NEXT_PUBLIC_SUPABASE_ANON_KEY (env w)) as [key|];
    [|cbn [unset]; rewrite orb_true_r; discriminate].
  cbn [unset]. intros -> Hc. cbn [bind run respond outcome]. rewrite Hc.
  cbn [bind run respond outcome].
  pose proof (setAll_nextUrl (cookiesToSet (session w)) (request, NextResponse_next request))
    as Hurl.
  destruct (fold_left setAll (cookiesToSet (session w)) (request, NextResponse_next request))
    as [request' response'].
  cbn [fst snd] in *. rewrite Hurl.
  destruct (user (session w)) as [who|]; [|reflexivity].
  cbn [run respond outcome]. fold (role_reply w (u_id who)).
  unfold is_admin_reply.
  destruct (reply_error (role_reply w (u_id who))); [reflexivity|].
  destruct (data (role_reply w (u_id who))) as [role|]; [|reflexivity].
  now destruct (str_eqb role (lit "admin")).
Qed.

Lemma response_cookies_set_kind (cs : list Cookie) (response : NextResponse) :
  kind (fold_left response_cookies_set cs response) = kind response.
Proof.
  revert response; induction cs as [|c cs IH]; intros response; simpl; [reflexivity|].
  now rewrite IH.
Qed.

Lemma setAll_kind (calls : list (list Cookie)) (state : NextRequest * NextResponse) :
  (exists r, kind (snd state) = next r) ->
  exists r, kind (snd (fold_left setAll calls state)) = next r.
Proof.
  revert state; induction calls as [|cs calls IH]; intros state Hs; simpl; [assumption|].
  apply IH. unfold setAll. cbn [snd]. rewrite response_cookies_set_kind. simpl. eauto.
Qed.

Lemma after_refresh_kind (w : World) (request : NextRequest) :
  exists request', kind (snd (after_refresh w request)) = next request'.
Proof. apply setAll_kind. simpl. eauto. Qed.




(** ** C7: refreshed cookies and redirects *)

(** Every redirect [checkAdminAccess] returns is a new response with no
    cookie set on it, whatever the session resolver refreshed. *)
Lemma checkAdminAccess_redirect_cookies (w : World) (request : NextRequest)
    (response : NextResponse) (url : Url) :
  outcome (run (checkAdminAccess request) w) = Returned response ->
  kind response = redirect url ->
  response_cookies response = [].
Proof.
  destruct (configured_cases w) as [Hno|[[Hset [e He]]|Hconf]].
  - rewrite (run_checkAdminAccess_unset _ Hno). intros H Hk. now injection H as <-.
  - rewrite (run_checkAdminAccess_refused _ Hset He). discriminate.
  - rewrite (run_checkAdminAccess _ Hconf). intros H Hk. injection H as <-.
    destruct (user (session w)) as [who|]; [|reflexivity].
    destruct (is_admin_reply (role_reply w (u_id who))); [|reflexivity].
    destruct (after_refresh_kind w request) as [r Hr]. congruence.
Qed.

(** C7.  A request for [/admin] by bob, who is no admin, on which the
    session resolver refreshed the token: the response is the redirect to
    [/unauthorized] and carries no cookie, so the refreshed token is lost.
    The same request by carol, an admin, goes on and carries the token. *)
Theorem checkAdminAccess_redirect_loses_refresh :
  cookiesToSet (session (world credentials (refreshed bob))) = [[fresh_token]] /\
  outcome (run (checkAdminAccess admin_request) (world credentials (refreshed bob))) =
  Returned {| kind := redirect {| origin := lit "https://polly.example";
                                  pathname := lit "/unauthorized"; search := [] |};
              response_cookies := [] |} /\
  outcome (run (checkAdminAccess admin_request) (world credentials (refreshed carol))) =
  Returned {| kind := next {| nextUrl := nextUrl admin_request;
                              cookies := [(lit "sb-access-token", lit "fresh")] |};
              response_cookies := [fresh_token] |}.
Proof. repeat split. Qed.

(** ** C8: exceptions that cross the request boundary *)

(** Without the backend's URL in the environment, [createClient] throws,
    and so does every request that starts with it. *)
Lemma unconfigured_throws (R : Type) (f : Client -> Prog R) (w : World) :
  unset (assoc NEXT_PUBLIC_SUPABASE_URL (env w)) = true ->
  outcome (run (bind createClient f) w) =
  Thrown (Error (lit "Environment variable NEXT_PUBLIC_SUPABASE_URL is not set")).
Proof.
  intros H. rewrite run_bind. unfold createClient, createServerClient, getEnvVariable.
  cbn [bind run respond outcome]. now rewrite H.
Qed.

(** C8.  With no backend credentials in the environment, [register] throws
    the error of [getEnvVariable] instead of returning an [{error}] value,
    and so do [logout], [createPoll], [updatePoll], [deletePoll],
    [submitVote], [getPollById] and [getUserPolls]; [login], whose body is
    wrapped in [try]/[catch], returns an [{error}] value there.  With the
    credentials set, [deletePoll] by a signed-in caller throws on its
    unbound name, and [createPoll] on a form without a question throws. *)
Theorem register_throws_without_credentials :
  outcome (run (register newcomer) (world [] anonymous)) = Thrown URL_not_set /\
  outcome (run (login returning) (world [] anonymous)) =
  Returned (ErrorResult (Some (lit
    "Authentication service unavailable. Please check your Supabase configuration."))) /\
  outcome (run logout (world [] anonymous)) = Thrown URL_not_set /\
  outcome (run (createPoll survey) (world [] (signed_in alice))) = Thrown URL_not_set /\
  outcome (run (updatePoll (lit "p-1") survey) (world [] (signed_in alice))) =
  Thrown URL_not_set /\
  outcome (run (deletePoll (lit "p-1")) (world [] (signed_in alice))) = Thrown URL_not_set /\
  outcome (run (submitVote (lit "p-1") (lit "o-1")) (world [] (signed_in bob))) =
  Thrown URL_not_set /\
  outcome (run (submitVote_index (lit "p-1") 0) (world [] (signed_in bob))) =
  Thrown URL_not_set /\
  outcome (run (getPollById (lit "p-1")) (world [] anonymous)) = Thrown URL_not_set /\
  outcome (run getUserPolls (world [] (signed_in alice))) = Thrown URL_not_set /\
  outcome (run (deletePoll (lit "p-1")) (world credentials (signed_in alice))) =
  Thrown (ReferenceError (lit "id is not defined")) /\
  outcome (run (createPoll []) (world credentials (signed_in alice))) =
  Thrown (TypeError (lit "Cannot read properties of null (reading 'trim')")).
Proof. repeat split. Qed.

(** ** C5: the vote submission guard *)

Ltac exec_inv H :=
  repeat (cbn [bind exec] in H;
          match type of H with
          | exists _, _ =>
              let x := fresh "x" in
              let t := fresh "t" in
              destruct H as (x & t & -> & H)
          | _ /\ _ => destruct H as [-> ->]
          | context [match ?x with _ => _ end] => destruct x eqn:?
          end).

Ltac guard_case :=
  unfold index_guard, id_guard, vote_checks, vote_inserts, writes, votes_polls_calls;
  cbn [flat_map vote_check_of vote_insert_of app filter event_is_write is_write In
       before_vote_check is_vote_check event_table table_of];
  repeat split; intros;
  repeat match goal with
         | H : _ \/ _ |- _ => destruct H
         | H : False |- _ => destruct H
         | H : (_, _) = (_, _) |- _ => injection H as ? ?
         end;
  subst; unfold lookup_failure in *;
  repeat match goal with
         | H : context [match reply_error ?r with _ => _ end] |- _ =>
             destruct (reply_error r) eqn:?
         | H : context [if negb (str_eqb ?a ?b) then _ else _] |- _ =>
             destruct (str_eqb a b) eqn:?; cbn [negb] in H
         | H : context [if str_eqb ?a ?b then _ else _] |- _ =>
             destruct (str_eqb a b) eqn:?
         | H : Some _ = Some _ |- _ => injection H as ?; subst
         end;
  cbn [pg_result];
  try discriminate;
  try reflexivity;
  try congruence;
  try (eexists; split; [left; reflexivity | split; [assumption|]];
       repeat match goal with
              | H : reply_error ?r = _ |- context [reply_error ?r] => rewrite H
              | H : str_eqb ?a ?b = _ |- context [str_eqb ?a ?b] => rewrite H
              end;
       reflexivity);
  try (eexists; split; [left; reflexivity | intros; assumption]).

Lemma submitVote_index_guarded (pollId : jsstring) (optionIndex : Z)
    (t : list Event) (o : Outcome ActionResult) :
  exec (submitVote_index pollId optionIndex) t o -> index_guard pollId optionIndex t o.
Proof.
  unfold submitVote_index, createClient, createServerClient, getEnvVariable. intros H.
  exec_inv H; guard_case.
Qed.

Lemma submitVote_guarded (pollId optionId : jsstring)
    (t : list Event) (o : Outcome ActionResult) :
  exec (submitVote pollId optionId) t o -> id_guard pollId optionId t o.
Proof.
  unfold submitVote, createClient, createServerClient, getEnvVariable. intros H.
  exec_inv H; guard_case.
Qed.

Lemma exec_step (R : Type) (p p' : Prog R) (e : list Event) (w w' : World) :
  step p w = (p', e, w') ->
  forall t o, exec p' t o -> exec p (e ++ t) o.
Proof.
  destruct p as [r|err|X c k]; simpl.
  - intros H. injection H as <- <- <-. auto.
  - intros H. injection H as <- <- <-. auto.
  - destruct (respond c w) as [x w1]. intros H. injection H as <- <- <-.
    intros t o Ht. simpl. eauto.
Qed.

(** Whatever the schedule, what each of two concurrent requests did is one
    of the behaviours of its program. *)
Lemma interleave_exec (A B : Type) (p0 : Prog A) (q0 : Prog B) (schedule : list bool) :
  forall (p : Prog A) (q : Prog B) (tp tq : list Event) (w : World),
    (forall t o, exec p t o -> exec p0 (tp ++ t) o) ->
    (forall t o, exec q t o -> exec q0 (tq ++ t) o) ->
    let r := interleave schedule p q tp tq w in
    exec p0 (trace (fst r)) (outcome (fst r)) /\
    exec q0 (trace (snd r)) (outcome (snd r)).
Proof.
  induction schedule as [|first schedule IH]; intros p q tp tq w Hp Hq; simpl.
  - split; [apply Hp | apply Hq]; apply run_exec.
  - destruct first.
    + destruct (step p w) as [[p' e] w'] eqn:Hs. apply IH; [|assumption].
      intros t o Ht. rewrite <- app_assoc. apply Hp. eapply exec_step; eauto.
    + destruct (step q w) as [[q' e] w'] eqn:Hs. apply IH; [assumption|].
      intros t o Ht. rewrite <- app_assoc. apply Hq. eapply exec_step; eauto.
Qed.

Lemma concurrently_exec (A B : Type) (p : Prog A) (q : Prog B) (schedule : list bool)
    (w : World) :
  let r := concurrently schedule p q w in
  exec p (trace (fst r)) (outcome (fst r)) /\ exec q (trace (snd r)) (outcome (snd r)).
Proof. apply interleave_exec; auto. Qed.

(** C5, as stated, fails.  A vote that passed the pre-check and whose insert
    the store then rejects, because a concurrent vote of the same caller got
    in first, is answered with the store's message, not with the
    duplicate-vote error; both implementations behave so.  And a caller whose
    vote is stored, but whose pre-check the votes table fails to answer, gets
    the lookup's message from the index-based implementation, not the
    duplicate-vote error. *)
Lemma vote_gets_store_message :
  let w := world credentials (signed_in bob) in
  let late := snd (concurrently both_check_first
                     (submitVote_index (lit "p-1") 0) (submitVote_index (lit "p-1") 1) w) in
  let late' := snd (concurrently both_check_first
                      (submitVote (lit "p-1") (lit "o-1")) (submitVote (lit "p-1") (lit "o-2")) w) in
  let down := with_outage (with_votes w [bobs_vote]) votes_down in
  (vote_checks (trace late) = [(lit "p-1", u_id bob, failed PGRST116)] /\
   map snd (vote_inserts (trace late)) = [Some unique_violation] /\
   outcome late =
   Returned (ErrorResult (Some (lit "duplicate key value violates unique constraint"))) /\
   outcome late <> Returned already_voted) /\
  (vote_checks (trace late') = [(lit "p-1", u_id bob, failed PGRST116)] /\
   map snd (vote_inserts (trace late')) = [Some unique_violation] /\
   outcome late' =
   Returned (ErrorResult (Some (lit "duplicate key value violates unique constraint"))) /\
   outcome late' <> Returned already_voted) /\
  (filter (vote_of (lit "p-1") (u_id bob)) (votes down) = [bobs_vote] /\
   outcome (run (submitVote_index (lit "p-1") 0) down) =
   Returned (ErrorResult (Some (lit "canceling statement due to statement timeout"))) /\
   outcome (run (submitVote_index (lit "p-1") 0) down) <> Returned already_voted).
Proof. vm_compute. repeat split; discriminate. Qed.

(** C5, amended.  Both [submitVote] implementations look up a vote of the
    caller on the poll before anything else touches the votes or polls
    tables.  Whatever the store replies, and so under any interleaving with
    other requests: a lookup that returned a row ends the request with the
    duplicate-vote error and no write; a lookup that failed for another
    reason than finding no row ends the index-based request with the
    lookup's message and no write; the index-based implementation inserts a
    vote only after a lookup for the same poll and user that reported no
    row, and so does the id-based one unless its lookup failed for another
    reason, of which nothing is said; an insert the store rejects is
    answered with the store's own error message.  When the votes table
    answers and holds the
    caller's vote on the poll, both return the duplicate-vote error, write
    nothing and leave the world as it was; when it answers and holds at most
    the one vote per caller and poll that its uniqueness constraint allows,
    both insert only when it holds none. *)
Theorem vote_guard (pollId : jsstring) (optionIndex : Z) (optionId : jsstring) :
  (forall t o, exec (submitVote_index pollId optionIndex) t o ->
               index_guard pollId optionIndex t o) /\
  (forall t o, exec (submitVote pollId optionId) t o -> id_guard pollId optionId t o) /\
  (forall schedule (other : Prog ActionResult) w,
     let r := concurrently schedule (submitVote_index pollId optionIndex) other w in
     let r' := concurrently schedule (submitVote pollId optionId) other w in
     index_guard pollId optionIndex (trace (fst r)) (outcome (fst r)) /\
     id_guard pollId optionId (trace (fst r')) (outcome (fst r'))) /\
  (forall w who,
     configured w ->
     user (session w) = Some who -> userError (session w) = None ->
     outage w votes_table = None ->
     let a := run (submitVote_index pollId optionIndex) w in
     let b := run (submitVote pollId optionId) w in
     (forall row,
        filter (vote_of pollId (u_id who)) (votes w) = [row] ->
        (outcome a = Returned already_voted /\ writes (trace a) = [] /\ final a = w) /\
        (outcome b = Returned already_voted /\ writes (trace b) = [] /\ final b = w)) /\
     (length (filter (vote_of pollId (u_id who)) (votes w)) <= 1 ->
      (vote_inserts (trace a) <> [] -> filter (vote_of pollId (u_id who)) (votes w) = []) /\
      (vote_inserts (trace b) <> [] -> filter (vote_of pollId (u_id who)) (votes w) = []))).
Proof.
  split; [intros t o; apply submitVote_index_guarded|].
  split; [intros t o; apply submitVote_guarded|].
  split.
  { intros schedule other w r r'. split.
    - apply submitVote_index_guarded. apply concurrently_exec.
    - apply submitVote_guarded. apply concurrently_exec. }
  intros w who Hconf Hwho Herr Hup a b.
  assert (Hfound : forall row,
             filter (vote_of pollId (u_id who)) (votes w) = [row] ->
             (outcome a = Returned already_voted /\ writes (trace a) = [] /\ final a = w) /\
             (outcome b = Returned already_voted /\ writes (trace b) = [] /\ final b = w) /\
             vote_inserts (trace a) = [] /\ vote_inserts (trace b) = []).
  { intros row Hrow. subst a b. unfold submitVote_index, submitVote.
    rewrite !(run_with_client _ Hconf), (run_createClient Hconf).
    cbn [run respond outcome trace final]. rewrite Hwho, Herr.
    cbn [run respond outcome trace final]. unfold query. rewrite Hup, Hrow.
    cbn. repeat split. }
  split.
  - intros row Hrow. destruct (Hfound row Hrow) as (Ha & Hb & _). now split.
  - intros Hle.
    destruct (filter (vote_of pollId (u_id who)) (votes w)) as [|row [|row' rows]] eqn:Hrows.
    + now split.
    + destruct (Hfound row eq_refl) as (_ & _ & Ha & Hb). split; intros H; contradiction.
    + simpl in Hle. lia.
Qed.

Lemma vote_guard_witness :
  outcome (run (submitVote (lit "p-1") (lit "o-1"))
             (with_votes (world credentials (signed_in bob)) [bobs_vote])) =
  Returned already_voted /\
  index_guard (lit "p-1") 0
    (trace (run (submitVote_index (lit "p-1") 0) (world credentials (signed_in bob))))
    (outcome (run (submitVote_index (lit "p-1") 0) (world credentials (signed_in bob)))).
Proof.
  split.
  - destruct (proj2 (proj2 (proj2 (vote_guard (lit "p-1") 0 (lit "o-1"))))
                (with_votes (world credentials (signed_in bob)) [bobs_vote]) bob)
      as [Hfound _]; [vm_compute; auto | reflexivity | reflexivity | reflexivity |].
    apply (Hfound bobs_vote). reflexivity.
  - apply (proj1 (vote_guard (lit "p-1") 0 (lit "o-1"))). apply run_exec.
Defined.

(** ** C9: the two [submitVote] implementations *)

(** C9.  For alice, signed in, and the world holding her poll and no vote:
    the index-based [submitVote] makes one write, the vote row with its
    [option_index], leaves the polls table alone and returns [{error: null}];
    the id-based one makes two writes, the vote row with its [option_id] and
    the poll's options with the counter raised, and returns
    [{success: true}].  The writes differ and so do the property names of
    the results. *)
Theorem submitVote_implementations_differ :
  exists (w : World) (pollId : jsstring) (optionIndex : Z) (optionId : jsstring),
    let a := run (submitVote_index pollId optionIndex) w in
    let b := run (submitVote pollId optionId) w in
    (exists who, user (session w) = Some who /\ userError (session w) = None) /\
    outcome a = Returned (ErrorResult None) /\
    outcome b = Returned SuccessResult /\
    keys (ErrorResult None) <> keys SuccessResult /\
    length (writes (trace a)) = 1 /\
    length (writes (trace b)) = 2 /\
    votes (final a) <> votes (final b) /\
    polls (final a) = polls w /\
    polls (final b) <> polls w.
Proof.
  exists (world credentials (signed_in alice)), (lit "p-1"), 0%Z, (lit "o-1").
  vm_compute. repeat split; try discriminate. eauto.
Qed.

(** ** C10: voting without a resolved caller *)

(** C10, as stated, fails: when no caller is resolved and the session
    resolver says why, both implementations return the resolver's message. *)
Lemma unresolved_caller_gets_resolver_message :
  let w := world credentials session_missing in
  user (session w) = None /\
  outcome (run (submitVote_index (lit "p-1") 0) w) =
  Returned (ErrorResult (Some (lit "Auth session missing!"))) /\
  outcome (run (submitVote_index (lit "p-1") 0) w) <> Returned must_log_in /\
  outcome (run (submitVote (lit "p-1") (lit "o-1")) w) =
  Returned (ErrorResult (Some (lit "Auth session missing!"))) /\
  outcome (run (submitVote (lit "p-1") (lit "o-1")) w) <> Returned must_log_in.
Proof. vm_compute. repeat split; discriminate. Qed.

(** C10, amended.  With the backend configured and no caller resolved, both
    [submitVote] implementations return an [{error}] value: the resolver's
    message when it reports an error, "You must be logged in to vote."
    when it reports none.  Either way they make no call on the votes or polls
    tables, no write at all, and leave the world as it was. *)
Theorem submitVote_unresolved_caller (w : World) (pollId : jsstring) (optionIndex : Z)
    (optionId : jsstring) :
  configured w ->
  user (session w) = None ->
  let answer :=
    match userError (session w) with
    | Some e => ErrorResult (Some (auth_message e))
    | None => must_log_in
    end in
  let a := run (submitVote_index pollId optionIndex) w in
  let b := run (submitVote pollId optionId) w in
  (outcome a = Returned answer /\ votes_polls_calls (trace a) = [] /\
   writes (trace a) = [] /\ final a = w) /\
  (outcome b = Returned answer /\ votes_polls_calls (trace b) = [] /\
   writes (trace b) = [] /\ final b = w).
Proof.
  intros Hconf Hnone answer a b. subst answer a b.
  unfold submitVote_index, submitVote.
  rewrite !(run_with_client _ Hconf), (run_createClient Hconf).
  cbn [run respond outcome trace final]. rewrite Hnone.
  destruct (userError (session w)); cbn; repeat split.
Qed.

Lemma submitVote_unresolved_caller_witness :
  outcome (run (submitVote (lit "p-1") (lit "o-1")) (world credentials anonymous)) =
  Returned must_log_in /\
  final (run (submitVote_index (lit "p-1") 0) (world credentials session_missing)) =
  world credentials session_missing.
Proof.
  split.
  - apply (@submitVote_unresolved_caller (world credentials anonymous) (lit "p-1") 0 (lit "o-1"));
      [vm_compute; auto | reflexivity].
  - apply (@submitVote_unresolved_caller (world credentials session_missing)
             (lit "p-1") 0 (lit "o-1")); [vm_compute; auto | reflexivity].
Defined.

(* ================================================================= *)
(** * Further properties of the code *)

(** ** White space and the validators *)

Lemma trimStart_blank (s : jsstring) :
  trimStart s = [] <-> forallb is_white_space s = true.
Proof.
  induction s as [|c s IH]; simpl; [tauto|].
  destruct (is_white_space c); simpl; [exact IH|].
  split; discriminate.
Qed.

Lemma trimStart_head (s : jsstring) (c : N) (t : jsstring) :
  trimStart s = c :: t -> is_white_space c = false.
Proof.
  induction s as [|d s IH]; simpl; [discriminate|].
  destruct (is_white_space d) eqn:E; [exact IH|].
  intros H. injection H as <- _. exact E.
Qed.

Lemma trimStart_split (s : jsstring) :
  exists pre, forallb is_white_space pre = true /\ s = pre ++ trimStart s.
Proof.
  induction s as [|c s [pre [Hpre Hs]]]; simpl.
  - exists []. split; reflexivity.
  - destruct (is_white_space c) eqn:E.
    + exists (c :: pre). simpl. rewrite E, Hpre. split; [reflexivity | congruence].
    + exists []. split; reflexivity.
Qed.

Lemma trimStart_pad (pre s : jsstring) :
  forallb is_white_space pre = true -> trimStart (pre ++ s) = trimStart s.
Proof.
  induction pre as [|c pre IH]; simpl; [reflexivity|].
  intros H. apply andb_true_iff in H. destruct H as [Hc Hpre]. rewrite Hc. auto.
Qed.

Lemma trimStart_app (s post : jsstring) :
  trimStart s <> [] -> trimStart (s ++ post) = trimStart s ++ post.
Proof.
  induction s as [|c s IH]; simpl; [congruence|].
  destruct (is_white_space c); [exact IH | reflexivity].
Qed.

Lemma forallb_rev (A : Type) (f : A -> bool) (l : list A) :
  forallb f (rev l) = forallb f l.
Proof.
  induction l as [|x l IH]; simpl; [reflexivity|].
  rewrite forallb_app, IH. simpl. rewrite andb_true_r. apply andb_comm.
Qed.

Lemma trimEnd_blank (s : jsstring) :
  trimEnd s = [] <-> forallb is_white_space s = true.
Proof.
  unfold trimEnd. rewrite <- (forallb_rev is_white_space s), <- trimStart_blank.
  split; intros H.
  - apply (f_equal (@rev N)) in H. now rewrite rev_involutive in H.
  - now rewrite H.
Qed.

Lemma trimEnd_split (s : jsstring) :
  exists post, forallb is_white_space post = true /\ s = trimEnd s ++ post.
Proof.
  unfold trimEnd. destruct (trimStart_split (rev s)) as [pre [Hpre Hs]].
  exists (rev pre). split; [now rewrite forallb_rev|].
  apply (f_equal (@rev N)) in Hs. rewrite rev_involutive, rev_app_distr in Hs. exact Hs.
Qed.

Lemma trimEnd_pad (s post : jsstring) :
  forallb is_white_space post = true -> trimEnd (s ++ post) = trimEnd s.
Proof.
  intros H. unfold trimEnd. rewrite rev_app_distr, trimStart_pad; [reflexivity|].
  now rewrite forallb_rev.
Qed.

(** [trim] ignores white space around a text. *)
Lemma trim_pad (pre s post : jsstring) :
  forallb is_white_space pre = true -> forallb is_white_space post = true ->
  trim (pre ++ s ++ post) = trim s.
Proof.
  intros Hpre Hpost. unfold trim. rewrite trimStart_pad by assumption.
  destruct (trimStart s) as [|c t] eqn:Es.
  - assert (Hall : forallb is_white_space (s ++ post) = true).
    { rewrite forallb_app, Hpost, andb_true_r. now apply trimStart_blank. }
    apply trimStart_blank in Hall. now rewrite Hall.
  - rewrite trimStart_app by congruence. rewrite Es. now apply trimEnd_pad.
Qed.

(** A text is its trimmed form with white space before and after. *)
Lemma trim_split (s : jsstring) :
  exists pre post,
    forallb is_white_space pre = true /\ forallb is_white_space post = true /\
    s = pre ++ trim s ++ post.
Proof.
  destruct (trimStart_split s) as [pre [Hpre Hs]].
  destruct (trimEnd_split (trimStart s)) as [post [Hpost Ht]].
  exists pre, post. repeat split; try assumption.
  unfold trim. now rewrite <- Ht.
Qed.

Lemma trim_idempotent (s : jsstring) : trim (trim s) = trim s.
Proof.
  destruct (trim_split s) as (pre & post & Hpre & Hpost & Hs).
  rewrite Hs at 2. symmetry. now apply trim_pad.
Qed.

Lemma trim_blank (s : jsstring) : trim s = [] <-> forallb is_white_space s = true.
Proof.
  split.
  - intros H. destruct (trim_split s) as (pre & post & Hpre & Hpost & Hs).
    rewrite H in Hs. simpl in Hs. rewrite Hs, forallb_app, Hpre, Hpost. reflexivity.
  - intros H. unfold trim. apply trimStart_blank in H. now rewrite H.
Qed.

(** X1.  [validateQuestion] answers "Poll question cannot be empty" exactly
    for the inputs made of white space only (the empty text among them);
    every other input is judged on its length or accepted. *)
Theorem validateQuestion_empty_iff_blank (w : World) (question : jsstring) :
  outcome (run (validateQuestion question) w) =
  Returned (invalid (lit "Poll question cannot be empty"))
  <-> forallb is_white_space question = true.
Proof.
  rewrite <- trim_blank. unfold validateQuestion. split.
  - destruct (trim question) as [|c t]; [reflexivity|]. cbn [is_empty].
    destruct (length (c :: t) <? 5); [discriminate|].
    destruct (200 <? length (c :: t)); discriminate.
  - intros ->. reflexivity.
Qed.

(** X2.  White space around a question changes nothing: the padded question
    gets the same verdict, the same message and the same sanitized value,
    after the same call, as the question itself; so does the question
    trimmed beforehand. *)
Theorem validateQuestion_ignores_padding (pre question post : jsstring) :
  forallb is_white_space pre = true -> forallb is_white_space post = true ->
  validateQuestion (pre ++ question ++ post) = validateQuestion question /\
  validateQuestion (trim question) = validateQuestion question.
Proof.
  intros Hpre Hpost. unfold validateQuestion.
  rewrite trim_pad by assumption. now rewrite trim_idempotent.
Qed.

Lemma validateQuestion_ignores_padding_witness :
  validateQuestion (lit "  " ++ lit "Tea or coffee?" ++ [9%N; 10%N; 160%N]) =
  validateQuestion (lit "Tea or coffee?").
Proof.
  apply (@validateQuestion_ignores_padding (lit "  ") (lit "Tea or coffee?") [9%N; 10%N; 160%N]);
    reflexivity.
Defined.

Lemma kept_options_normal (options : list jsstring) :
  filter Boolean (map trim (filter Boolean (map trim options))) =
  filter Boolean (map trim options).
Proof.
  induction options as [|o options IH]; simpl; [reflexivity|].
  destruct (Boolean (trim o)) eqn:E; simpl; [|exact IH].
  now rewrite trim_idempotent, E, IH.
Qed.

(** X3.  Blank entries and white space around the entries change nothing for
    [validateOptions]: the list of the trimmed non-blank entries gets the same
    verdict, message and sanitized value as the list itself.  The callers'
    own [filter(Boolean)] before the call is therefore without effect. *)
Theorem validateOptions_ignores_blanks (options : list jsstring) :
  validateOptions (filter Boolean (map trim options)) = validateOptions options /\
  validateOptions (filter Boolean options) = validateOptions options.
Proof.
  unfold validateOptions. split.
  - now rewrite kept_options_normal.
  - assert (H : filter Boolean (map trim (filter Boolean options)) =
                filter Boolean (map trim options)).
    { induction options as [|o options IH]; simpl; [reflexivity|].
      destruct (Boolean o) eqn:E; simpl.
      - now rewrite IH.
      - destruct o; [|discriminate]. simpl. exact IH. }
    now rewrite H.
Qed.

(** ** Calls that change the world *)

Lemma respond_quiet (X : Type) (c : Call X) (w : World) :
  effective (Ev c (fst (respond c w))) = false -> snd (respond c w) = w.
Proof.
  destruct c; simpl; try reflexivity; try discriminate;
    try (destruct (outage w polls_table); simpl; [reflexivity|];
         try destruct (caller_is w userId); simpl; (reflexivity || discriminate)).
  destruct (outage w votes_table); simpl; [reflexivity|].
  destruct (caller_is w (v_user_id v)); simpl; [|reflexivity].
  destruct (existsb _ (votes w)); simpl; [reflexivity|].
  destruct (existsb _ (polls w)); simpl; [discriminate | reflexivity].
Qed.

Lemma run_quiet (R : Type) (p : Prog R) (w : World) :
  quiet (trace (run p w)) -> final (run p w) = w.
Proof.
  unfold quiet. revert w; induction p as [r|e|X c k IH]; intros w; simpl; try reflexivity.
  pose proof (respond_quiet c w) as Hc.
  destruct (respond c w) as [x w']. simpl in *.
  intros H. apply andb_true_iff in H. destruct H as [Hx Ht].
  apply negb_true_iff in Hx. rewrite (IH x w' Ht). now apply Hc.
Qed.

Lemma quiet_app (t1 t2 : list Event) : quiet t1 -> quiet t2 -> quiet (t1 ++ t2).
Proof. unfold quiet. intros H1 H2. now rewrite forallb_app, H1, H2. Qed.

Lemma exec_bind (A B : Type) (p : Prog A) (f : A -> Prog B) (t : list Event)
    (o : Outcome B) :
  exec (bind p f) t o ->
  (exists t1 a t2, exec p t1 (Returned a) /\ exec (f a) t2 o /\ t = t1 ++ t2) \/
  (exists e, exec p t (Thrown e) /\ o = Thrown e).
Proof.
  revert t; induction p as [a|e|X c k IH]; intros t; simpl.
  - intros H. left. exists [], a, t. auto.
  - intros [-> ->]. right. exists e. auto.
  - intros (x & t' & -> & H). destruct (IH x t' H) as [(t1 & a & t2 & H1 & H2 & ->)|(e & H1 & ->)].
    + left. exists (Ev c x :: t1), a, t2. repeat split; eauto.
    + right. exists e. split; eauto.
Qed.

Lemma createClient_quiet (t : list Event) (o : Outcome Client) :
  exec createClient t o -> quiet t.
Proof.
  unfold createClient, createServerClient, getEnvVariable. intros H. exec_inv H; reflexivity.
Qed.

Lemma sanitize_all_quiet (xs : list jsstring) (t : list Event) (o : Outcome (list jsstring)) :
  exec (mapM (fun opt => call (DOMPurify_sanitize opt)) xs) t o ->
  quiet t /\ exists ys, o = Returned ys.
Proof.
  revert t o; induction xs as [|x xs IH]; intros t o; cbn [mapM].
  - intros [-> ->]. split; [reflexivity | eauto].
  - unfold call at 1. cbn [bind exec]. intros (y & t' & -> & H).
    apply exec_bind in H. destruct H as [(t1 & ys & t2 & H1 & H2 & ->)|(e & H1 & ->)].
    + destruct (IH _ _ H1) as [Hq _]. cbn [exec] in H2. destruct H2 as [-> ->].
      split; [|eauto]. rewrite app_nil_r. exact Hq.
    + destruct (IH _ _ H1) as [_ [ys Hys]]. discriminate.
Qed.

Lemma validateQuestion_quiet (question : jsstring) (t : list Event)
    (o : Outcome ValidationResult) :
  exec (validateQuestion question) t o -> quiet t /\ exists r, o = Returned r.
Proof.
  unfold validateQuestion. intros H. exec_inv H; split; try reflexivity; eauto.
Qed.

Lemma validateOptions_quiet (options : list jsstring) (t : list Event)
    (o : Outcome ValidationResult) :
  exec (validateOptions options) t o -> quiet t /\ exists r, o = Returned r.
Proof.
  unfold validateOptions. intros H.
  destruct (length (filter Boolean (map trim options)) <? 2);
    [destruct H as [-> ->]; split; [reflexivity | eauto]|].
  destruct (negb _); [destruct H as [-> ->]; split; [reflexivity | eauto]|].
  destruct (existsb _ _); [destruct H as [-> ->]; split; [reflexivity | eauto]|].
  apply exec_bind in H. destruct H as [(t1 & ys & t2 & H1 & H2 & ->)|(e & H1 & ->)].
  - destruct (@sanitize_all_quiet _ _ _ H1) as [Hq _]. destruct H2 as [-> ->].
    rewrite app_nil_r. split; [exact Hq | eauto].
  - destruct (@sanitize_all_quiet _ _ _ H1) as [_ [ys Hys]]. discriminate.
Qed.

Lemma validated_form_quiet (formData : FormData) (t : list Event)
    (o : Outcome (ActionResult + jsstring * list jsstring)) :
  exec (validated_form formData) t o -> quiet t.
Proof.
  unfold validated_form. destruct (FormData_get formData (lit "question")) as [[q|file]|];
    [|intros [-> _]; reflexivity..].
  intros H. apply exec_bind in H.
  destruct H as [(t1 & qv & t2 & H1 & H2 & ->)|(e & H1 & ->)];
    [|apply validateQuestion_quiet in H1; apply H1].
  apply validateQuestion_quiet in H1. destruct H1 as [Hq1 _].
  apply quiet_app; [exact Hq1|].
  destruct (negb (isValid qv)); [destruct H2 as [-> _]; reflexivity|].
  destruct (all_text _) as [optionsInput|]; [|destruct H2 as [-> _]; reflexivity].
  apply exec_bind in H2.
  destruct H2 as [(t3 & ov & t4 & H3 & H4 & ->)|(e & H3 & ->)];
    [|apply validateOptions_quiet in H3; apply H3].
  apply validateOptions_quiet in H3. destruct H3 as [Hq3 _].
  apply quiet_app; [exact Hq3|].
  destruct (negb (isValid ov)); [destruct H4 as [-> _]; reflexivity|].
  destruct (sanitizedValue qv); [|destruct H4 as [-> _]; reflexivity].
  destruct (sanitizedValue ov); [|destruct H4 as [-> _]; reflexivity].
  destruct (JSON_parse _); destruct H4 as [-> _]; reflexivity.
Qed.

Lemma with_client_quiet (R : Type) (f : Client -> Prog R) (t : list Event) (o : Outcome R) :
  exec (bind createClient f) t o ->
  (forall c t', exec (f c) t' o -> quiet t') ->
  quiet t.
Proof.
  intros H Hf. apply exec_bind in H.
  destruct H as [(t1 & c & t2 & H1 & H2 & ->)|(e & H1 & ->)].
  - apply quiet_app; [now apply createClient_quiet in H1 | eauto].
  - now apply createClient_quiet in H1.
Qed.

Ltac quiet_case Hne :=
  repeat match goal with
         | x : option PostgrestError |- _ => destruct x
         end;
  first [reflexivity | exfalso; apply Hne; reflexivity].

Lemma createPoll_quiet (formData : FormData) (t : list Event) (o : Outcome ActionResult) :
  exec (createPoll formData) t o -> o <> Returned (ErrorResult None) -> quiet t.
Proof.
  intros H Hne. unfold createPoll in H. apply (@with_client_quiet _ _ _ _ H). clear H t.
  intros c t H. apply exec_bind in H.
  destruct H as [(t1 & form & t2 & H1 & H2 & ->)|(e & H1 & ->)];
    [|now apply validated_form_quiet in H1].
  apply quiet_app; [now apply validated_form_quiet in H1|].
  exec_inv H2; quiet_case Hne.
Qed.

Lemma updatePoll_quiet (pollId : jsstring) (formData : FormData) (t : list Event)
    (o : Outcome ActionResult) :
  exec (updatePoll pollId formData) t o -> o <> Returned (ErrorResult None) -> quiet t.
Proof.
  intros H Hne. unfold updatePoll in H. apply (@with_client_quiet _ _ _ _ H). clear H t.
  intros c t H. apply exec_bind in H.
  destruct H as [(t1 & form & t2 & H1 & H2 & ->)|(e & H1 & ->)];
    [|now apply validated_form_quiet in H1].
  apply quiet_app; [now apply validated_form_quiet in H1|].
  exec_inv H2; quiet_case Hne.
Qed.

Lemma deletePoll_by_id_quiet (id : jsstring) (t : list Event) (o : Outcome ActionResult) :
  exec (deletePoll_by_id id) t o -> o <> Returned (ErrorResult None) -> quiet t.
Proof.
  intros H Hne. unfold deletePoll_by_id in H. apply (@with_client_quiet _ _ _ _ H). clear H t.
  intros c t H. exec_inv H; quiet_case Hne.
Qed.

Lemma submitVote_index_quiet (pollId : jsstring) (optionIndex : Z) (t : list Event)
    (o : Outcome ActionResult) :
  exec (submitVote_index pollId optionIndex) t o -> o <> Returned (ErrorResult None) ->
  quiet t.
Proof.
  intros H Hne. unfold submitVote_index in H. apply (@with_client_quiet _ _ _ _ H). clear H t.
  intros c t H. exec_inv H; quiet_case Hne.
Qed.

(** X4.  Unless they report success with [{error: null}], [createPoll],
    [updatePoll], [deletePoll] (as first written) and the index-based
    [submitVote] leave the world exactly as it was: an error value or an
    exception is never accompanied by a write or a cache invalidation. *)
Theorem failure_leaves_world_unchanged (w : World) :
  (forall formData,
     outcome (run (createPoll formData) w) <> Returned (ErrorResult None) ->
     final (run (createPoll formData) w) = w) /\
  (forall pollId formData,
     outcome (run (updatePoll pollId formData) w) <> Returned (ErrorResult None) ->
     final (run (updatePoll pollId formData) w) = w) /\
  (forall id,
     outcome (run (deletePoll_by_id id) w) <> Returned (ErrorResult None) ->
     final (run (deletePoll_by_id id) w) = w) /\
  (forall pollId optionIndex,
     outcome (run (submitVote_index pollId optionIndex) w) <> Returned (ErrorResult None) ->
     final (run (submitVote_index pollId optionIndex) w) = w).
Proof.
  repeat split; intros; apply run_quiet.
  - eapply createPoll_quiet; [apply run_exec | assumption].
  - eapply updatePoll_quiet; [apply run_exec | assumption].
  - eapply deletePoll_by_id_quiet; [apply run_exec | assumption].
  - eapply submitVote_index_quiet; [apply run_exec | assumption].
Qed.

Lemma failure_leaves_world_unchanged_witness :
  final (run (createPoll (poll_form (lit "Hi?") [lit "a"; lit "b"]))
           (world credentials (signed_in alice))) =
  world credentials (signed_in alice).
Proof.
  apply (proj1 (failure_leaves_world_unchanged (world credentials (signed_in alice)))).
  vm_compute. discriminate.
Defined.

(** ** The form of a poll, validated *)

Lemma validateQuestion_verdict (w : World) (question : jsstring) :
  (exists message, run (validateQuestion question) w = rejected message w) \/
  (5 <= length (trim question) <= 200 /\
   run (validateQuestion question) w =
   {| outcome := Returned (valid (dompurify w (trim question)));
      trace := [Ev (DOMPurify_sanitize (trim question)) (dompurify w (trim question))];
      final := w |}).
Proof.
  destruct (validateQuestion_run w question) as (H1 & H2 & H3 & H4).
  destruct (trim question) as [|c t] eqn:Et.
  - left. eexists. now apply H1.
  - destruct (Nat.lt_ge_cases (length (c :: t)) 5) as [Hlt|Hge].
    + left. eexists. apply H2; [discriminate | assumption].
    + destruct (Nat.lt_ge_cases 200 (length (c :: t))) as [Hgt|Hle].
      * left. eexists. now apply H3.
      * right. split; [split; assumption | apply H4; split; assumption].
Qed.

Lemma validateOptions_verdict (w : World) (options : list jsstring) :
  let kept := filter Boolean (map trim options) in
  (exists message, run (validateOptions options) w = rejected message w) \/
  ((2 <= length kept /\ NoDup kept /\ forall o, In o kept -> length o <= 100) /\
   run (validateOptions options) w =
   {| outcome := Returned (valid (JSON_stringify (map (dompurify w) kept)));
      trace := map (fun o => Ev (DOMPurify_sanitize o) (dompurify w o)) kept;
      final := w |}).
Proof.
  intros kept.
  destruct (validateOptions_run w options) as (H1 & H2 & H3 & H4). fold kept in H1, H2, H3, H4.
  destruct (Nat.lt_ge_cases (length kept) 2) as [Hlt|Hge]; [left; eexists; now apply H1|].
  destruct (Nat.eq_dec (Set_size (Set_from kept)) (length kept)) as [Hnd|Hdup].
  2:{ left. eexists. apply H2; [assumption|]. now rewrite <- Set_size_NoDup. }
  apply Set_size_NoDup in Hnd.
  destruct (existsb (fun o => 100 <? length o) kept) eqn:E.
  - apply existsb_exists in E. destruct E as [o [Hin Hlen]]. apply Nat.ltb_lt in Hlen.
    left. eexists. apply H3; eauto.
  - assert (Hshort : forall o, In o kept -> length o <= 100).
    { intros o Hin. destruct (Nat.lt_ge_cases 100 (length o)) as [Hgt|Hle]; [|assumption].
      exfalso. assert (existsb (fun o => 100 <? length o) kept = true).
      { apply existsb_exists. exists o. split; [assumption | now apply Nat.ltb_lt]. }
      congruence. }
    right. split; [auto | now apply H4].
Qed.

Lemma kept_options_prefiltered (options : list jsstring) :
  filter Boolean (map trim (filter Boolean options)) = filter Boolean (map trim options).
Proof.
  induction options as [|o options IH]; simpl; [reflexivity|].
  destruct (Boolean o) eqn:E; simpl.
  - now rewrite IH.
  - destruct o; [|discriminate]. simpl. exact IH.
Qed.

Lemma all_text_texts (options : list jsstring) :
  all_text (filter Boolean_entry (map Text options)) = Some (filter Boolean options).
Proof.
  induction options as [|o options IH]; [reflexivity|].
  cbn [map filter Boolean_entry]. destruct (Boolean o); [|exact IH].
  cbn [all_text]. now rewrite IH.
Qed.

Lemma all_text_file (name : jsstring) (values : list FormDataEntryValue) :
  In (File name) values -> all_text (filter Boolean_entry values) = None.
Proof.
  induction values as [|v values IH]; [intros []|].
  intros [->|Hin]; [reflexivity|].
  cbn [filter]. destruct v as [s|file]; cbn [Boolean_entry]; [|reflexivity].
  destruct (Boolean s); [|now apply IH]. cbn [all_text]. now rewrite IH.
Qed.

(** X5.  For a form whose question and options are all texts, the
    validation step of [createPoll] and [updatePoll] never throws and leaves
    the world alone: it ends with the first violated rule's [{error}] value,
    or, when the question and the options pass all rules, with the sanitized
    question and the list of the sanitized kept options, which [JSON.parse]
    recovers from the text [validateOptions] returned.  It throws when the
    question field is missing, when it is a file, and when the question
    passes its rules and a file is among the options: the casts to [string]
    check nothing. *)
Theorem validated_form_total (w : World) (formData : FormData) :
  (forall question options,
     FormData_get formData (lit "question") = Some (Text question) ->
     FormData_getAll formData (lit "options") = map Text options ->
     final (run (validated_form formData) w) = w /\
     ((exists message,
         outcome (run (validated_form formData) w) =
         Returned (inl (ErrorResult (Some message)))) \/
      (acceptable question options /\
       outcome (run (validated_form formData) w) =
       Returned (inr (dompurify w (trim question),
                      map (dompurify w) (filter Boolean (map trim options))))))) /\
  (FormData_get formData (lit "question") = None ->
   exists e, outcome (run (validated_form formData) w) = Thrown e) /\
  (forall name,
     FormData_get formData (lit "question") = Some (File name) ->
     exists e, outcome (run (validated_form formData) w) = Thrown e) /\
  (forall question name,
     FormData_get formData (lit "question") = Some (Text question) ->
     5 <= length (trim question) <= 200 ->
     In (File name) (FormData_getAll formData (lit "options")) ->
     exists e, outcome (run (validated_form formData) w) = Thrown e).
Proof.
  split; [|split; [|split]].
  - intros question options Hq Ho. unfold validated_form. rewrite Hq, Ho, all_text_texts.
    rewrite run_bind.
    destruct (validateQuestion_verdict w question) as [[m Hm]|[Hlen Hrun]].
    + rewrite Hm. cbn. split; [reflexivity | left; eauto].
    + rewrite Hrun. cbn [outcome final trace valid isValid negb]. rewrite run_bind.
      destruct (validateOptions_verdict w (filter Boolean options)) as [[m Hm]|[Hok Hrun']].
      * rewrite Hm. cbn. split; [reflexivity | left; eauto].
      * rewrite kept_options_prefiltered in Hok, Hrun'. rewrite Hrun'.
        cbn [outcome final trace valid isValid negb sanitizedValue].
        rewrite JSON_parse_stringify. cbn. split; [reflexivity|].
        right. split; [split; assumption | reflexivity].
  - intros Hq. unfold validated_form. rewrite Hq. cbn. eauto.
  - intros name Hq. unfold validated_form. rewrite Hq. cbn. eauto.
  - intros question name Hq Hlen Hin. unfold validated_form.
    rewrite Hq, (all_text_file _ _ Hin), run_bind.
    destruct (validateQuestion_run w question) as (_ & _ & _ & H4).
    rewrite (H4 Hlen). cbn. eauto.
Qed.

Lemma validated_form_total_witness :
  final (run (validated_form survey) (world credentials anonymous)) =
  world credentials anonymous /\
  (exists e, outcome (run (validated_form []) (world credentials anonymous)) = Thrown e) /\
  (exists e,
     outcome (run (validated_form [(lit "question", File (lit "q.txt"))])
                (world credentials anonymous)) = Thrown e) /\
  (exists e,
     outcome (run (validated_form [(lit "question", Text (lit "Tea or coffee?"));
                                   (lit "options", Text (lit "Tea"));
                                   (lit "options", File (lit "coffee.png"))])
                (world credentials anonymous)) = Thrown e).
Proof.
  split; [|split; [|split]].
  - apply (proj1 (validated_form_total (world credentials anonymous) survey)
             (lit "Tea or coffee?") [lit "Tea"; lit "Coffee"]); reflexivity.
  - apply (proj1 (proj2 (validated_form_total (world credentials anonymous) []))).
    reflexivity.
  - apply (proj1 (proj2 (proj2 (validated_form_total (world credentials anonymous)
                                  [(lit "question", File (lit "q.txt"))])))
             (lit "q.txt")).
    reflexivity.
  - apply (proj2 (proj2 (proj2 (validated_form_total (world credentials anonymous)
                                  [(lit "question", Text (lit "Tea or coffee?"));
                                   (lit "options", Text (lit "Tea"));
                                   (lit "options", File (lit "coffee.png"))])))
             (lit "Tea or coffee?") (lit "coffee.png")).
    + reflexivity.
    + vm_compute; lia.
    + vm_compute; auto.
Defined.

Lemma run_validated_form_accepted (w : World) (formData : FormData) (question : jsstring)
    (options : list jsstring) :
  FormData_get formData (lit "question") = Some (Text question) ->
  FormData_getAll formData (lit "options") = map Text options ->
  acceptable question options ->
  run (validated_form formData) w =
  {| outcome :=
       Returned (inr (dompurify w (trim question),
                      map (dompurify w) (filter Boolean (map trim options))));
     trace := trace (run (validated_form formData) w);
     final := w |}.
Proof.
  intros Hq Ho [Hlen Hopts]. unfold validated_form. rewrite Hq, Ho, all_text_texts.
  destruct (validateQuestion_run w question) as (_ & _ & _ & H4).
  rewrite run_bind, (H4 Hlen). cbn [outcome final trace valid isValid negb].
  destruct (validateOptions_run w (filter Boolean options)) as (_ & _ & _ & H4').
  rewrite kept_options_prefiltered in H4'. destruct Hopts as (H2 & Hnd & Hshort).
  rewrite run_bind, (H4' H2 Hnd Hshort).
  cbn [outcome final trace valid isValid negb sanitizedValue].
  rewrite JSON_parse_stringify. reflexivity.
Qed.

(** ** Creating, updating and deleting polls *)

(** The policies of the store let a caller write under the caller's own
    id. *)
Lemma caller_is_self (w : World) (who : User) :
  user (session w) = Some who -> caller_is w (u_id who) = true.
Proof.
  intros H. unfold caller_is, auth_uid. rewrite H. now apply str_eqb_eq.
Qed.

Lemma own_poll_owned (w : World) (who : User) (p : PollRow) :
  user (session w) = Some who -> own_poll w p = poll_owned_by (u_id who) p.
Proof.
  intros H. unfold own_poll, caller_is, auth_uid, poll_owned_by. rewrite H.
  destruct (str_eqb (p_user_id p) (u_id who)) eqn:E.
  - apply str_eqb_eq in E. apply str_eqb_eq. congruence.
  - apply str_eqb_neq in E. apply str_eqb_neq. congruence.
Qed.

(** X6.  With the backend configured and a form of texts that passes the
    rules: a signed-in caller, the polls table answering, gets
    [{error: null}]; the polls table gains exactly one row, at its end, owned
    by the caller, holding the sanitized trimmed question and the sanitized
    kept options as plain strings; votes and roles are untouched and the
    path [/polls] is invalidated once.  When the session resolver reports an
    error the answer is the resolver's message; when it reports none and no
    caller is resolved, the answer is the log-in message; in both cases the
    world is left as it was. *)
Theorem createPoll_inserts_sanitized_row (w : World) (formData : FormData)
    (question : jsstring) (options : list jsstring) :
  configured w ->
  FormData_get formData (lit "question") = Some (Text question) ->
  FormData_getAll formData (lit "options") = map Text options ->
  acceptable question options ->
  let kept := filter Boolean (map trim options) in
  let r := run (createPoll formData) w in
  (forall who,
     signed_in_as w who -> outage w polls_table = None ->
     outcome r = Returned (ErrorResult None) /\
     polls (final r) =
     polls w ++ [new_poll w (u_id who) (dompurify w (trim question)) (map (dompurify w) kept)] /\
     votes (final r) = votes w /\ user_roles (final r) = user_roles w /\
     revalidated (final r) = revalidated w ++ [lit "/polls"]) /\
  (forall e,
     userError (session w) = Some e ->
     outcome r = Returned (ErrorResult (Some (auth_message e))) /\ final r = w) /\
  (userError (session w) = None -> user (session w) = None ->
   outcome r = Returned (ErrorResult (Some (lit "You must be logged in to create a poll."))) /\
   final r = w).
Proof.
  intros Hconf Hq Ho Hok kept r. subst r. unfold createPoll.
  rewrite (run_with_client _ Hconf), run_bind,
    (run_validated_form_accepted w formData Hq Ho Hok).
  fold kept. cbn [outcome final trace run respond]. split; [|split].
  - intros who [Hwho Herr] Hup. rewrite Herr, Hwho. cbn [run respond]. rewrite Hup.
    rewrite (caller_is_self _ Hwho). cbn. repeat split.
  - intros e Herr. rewrite Herr. split; reflexivity.
  - intros Herr Hnone. rewrite Herr, Hnone. split; reflexivity.
Qed.

Lemma createPoll_inserts_sanitized_row_witness :
  (outcome (run (createPoll survey) (world credentials (signed_in alice))) =
   Returned (ErrorResult None) /\
   length (polls (final (run (createPoll survey) (world credentials (signed_in alice))))) = 2) /\
  outcome (run (createPoll survey) (world credentials session_missing)) =
  Returned (ErrorResult (Some (lit "Auth session missing!"))).
Proof.
  assert (Hok : acceptable (lit "Tea or coffee?") [lit "Tea"; lit "Coffee"]).
  { split; [vm_compute; lia|]. split; [vm_compute; lia|]. split.
    - vm_compute. repeat constructor; simpl; intuition discriminate.
    - intros o H. vm_compute in H. destruct H as [<-|[<-|[]]]; vm_compute; lia. }
  split.
  - destruct (@createPoll_inserts_sanitized_row (world credentials (signed_in alice)) survey
                (lit "Tea or coffee?") [lit "Tea"; lit "Coffee"]) as [Hin _];
      [vm_compute; auto | reflexivity | reflexivity | exact Hok |].
    destruct (Hin alice) as (Hout & Hpolls & _); [split; reflexivity | reflexivity |].
    split; [exact Hout|]. rewrite Hpolls. reflexivity.
  - destruct (@createPoll_inserts_sanitized_row (world credentials session_missing) survey
                (lit "Tea or coffee?") [lit "Tea"; lit "Coffee"]) as (_ & Herr & _);
      [vm_compute; auto | reflexivity | reflexivity | exact Hok |].
    apply (Herr {| auth_message := lit "Auth session missing!" |}). reflexivity.
Defined.

(** The rows an update or a delete with the filters [id] and [user_id]
    selects. *)
Lemma filter_none (A : Type) (f : A -> bool) (l : list A) :
  (forall x, In x l -> f x = false) -> filter f l = [].
Proof.
  induction l as [|x l IH]; simpl; [reflexivity|]. intros H.
  rewrite (H x) by now left. apply IH. intros y Hy. apply H. now right.
Qed.

Lemma map_unselected (A : Type) (f : A -> bool) (g : A -> A) (l : list A) :
  (forall x, In x l -> f x = false) -> map (fun x => if f x then g x else x) l = l.
Proof.
  induction l as [|x l IH]; simpl; [reflexivity|]. intros H.
  rewrite (H x) by now left. f_equal. apply IH. intros y Hy. apply H. now right.
Qed.

(** X7.  With the backend configured and the polls table answering, a
    signed-in caller whose form, made of texts, passes the rules always gets
    [{error: null}] from [updatePoll], whether or not a poll was changed.  Only rows with the
    given id that the caller owns are changed; they keep their id, owner and
    creation time; every row of another owner or with another id stays as it
    is.  When the caller owns no poll with that id the world is left
    exactly as it was.  No path is ever invalidated. *)
Theorem updatePoll_changes_own_rows_only (w : World) (pollId : jsstring)
    (formData : FormData) (question : jsstring) (options : list jsstring) (who : User) :
  configured w ->
  signed_in_as w who -> outage w polls_table = None ->
  FormData_get formData (lit "question") = Some (Text question) ->
  FormData_getAll formData (lit "options") = map Text options ->
  acceptable question options ->
  let r := run (updatePoll pollId formData) w in
  outcome r = Returned (ErrorResult None) /\
  map p_id (polls (final r)) = map p_id (polls w) /\
  map p_user_id (polls (final r)) = map p_user_id (polls w) /\
  map p_created_at (polls (final r)) = map p_created_at (polls w) /\
  (forall p, In p (polls w) -> p_id p <> pollId \/ p_user_id p <> u_id who ->
             In p (polls (final r))) /\
  ((forall p, In p (polls w) -> p_id p <> pollId \/ p_user_id p <> u_id who) ->
   final r = w) /\
  votes (final r) = votes w /\ revalidated (final r) = revalidated w.
Proof.
  intros Hconf [Hwho Herr] Hup Hq Ho Hok r. subst r. unfold updatePoll.
  rewrite (run_with_client _ Hconf), run_bind,
    (run_validated_form_accepted w formData Hq Ho Hok).
  cbn [outcome final trace run respond]. rewrite Herr, Hwho. cbn [run respond]. rewrite Hup.
  cbn [outcome final trace run pg_result polls votes revalidated with_polls].
  assert (Hother : forall p, p_id p <> pollId \/ p_user_id p <> u_id who ->
                             poll_has_id pollId p && poll_owned_by (u_id who) p
                             && own_poll w p = false).
  { intros p [H|H]; apply andb_false_iff; left; apply andb_false_iff; [left | right];
      now apply str_eqb_neq. }
  split; [reflexivity|].
  split; [rewrite map_map; apply map_ext; intros p; now destruct (_ && _)|].
  split; [rewrite map_map; apply map_ext; intros p; now destruct (_ && _)|].
  split; [rewrite map_map; apply map_ext; intros p; now destruct (_ && _)|].
  split.
  { intros p Hin Hp. apply in_map_iff. exists p. split; [|assumption].
    now rewrite (Hother p Hp). }
  split; [|split; reflexivity].
  intros Hnone. rewrite map_unselected by (intros p Hin; apply Hother; auto).
  now destruct w.
Qed.

Lemma updatePoll_changes_own_rows_only_witness :
  final (run (updatePoll (lit "p-1") survey) (world credentials (signed_in bob))) =
  world credentials (signed_in bob).
Proof.
  apply (@updatePoll_changes_own_rows_only (world credentials (signed_in bob)) (lit "p-1")
           survey (lit "Tea or coffee?") [lit "Tea"; lit "Coffee"] bob).
  - vm_compute; auto.
  - split; reflexivity.
  - reflexivity.
  - reflexivity.
  - reflexivity.
  - split; [vm_compute; lia|]. split; [vm_compute; lia|]. split.
    + vm_compute. repeat constructor; simpl; intuition discriminate.
    + intros o H. vm_compute in H. destruct H as [<-|[<-|[]]]; vm_compute; lia.
  - intros p [<-|[]]. right. vm_compute. discriminate.
Defined.

(** X8.  With the backend configured and the polls table answering,
    [deletePoll] as first written always answers a signed-in caller with
    [{error: null}] and invalidates [/polls], whether or not a poll was
    deleted.  What is left of the polls table is, in order, every row that has
    another id or another owner; when the caller owns no poll with that id
    the table is unchanged. *)
Theorem deletePoll_by_id_removes_own_rows_only (w : World) (id : jsstring) (who : User) :
  configured w ->
  signed_in_as w who -> outage w polls_table = None ->
  let r := run (deletePoll_by_id id) w in
  outcome r = Returned (ErrorResult None) /\
  revalidated (final r) = revalidated w ++ [lit "/polls"] /\
  (forall p, In p (polls (final r)) <->
             In p (polls w) /\ (p_id p <> id \/ p_user_id p <> u_id who)) /\
  ((forall p, In p (polls w) -> p_id p <> id \/ p_user_id p <> u_id who) ->
   polls (final r) = polls w).
Proof.
  intros Hconf [Hwho Herr] Hup r. subst r. unfold deletePoll_by_id.
  rewrite (run_with_client _ Hconf).
  cbn [outcome final trace run respond]. rewrite Herr, Hwho. cbn [run respond]. rewrite Hup.
  cbn [outcome final trace run respond polls revalidated with_polls with_votes
       with_revalidated].
  assert (Hsel : forall p, negb (poll_has_id id p && poll_owned_by (u_id who) p
                                 && own_poll w p) = true <->
                           p_id p <> id \/ p_user_id p <> u_id who).
  { intros p. rewrite (@own_poll_owned w who p Hwho), negb_true_iff, !andb_false_iff.
    unfold poll_has_id, poll_owned_by. rewrite !str_eqb_neq. tauto. }
  split; [reflexivity|]. split; [reflexivity|]. split.
  - intros p. rewrite filter_In, Hsel. reflexivity.
  - intros Hnone. rewrite <- (filter_ext_in (fun _ => true)).
    + induction (polls w) as [|p l IH]; simpl; [reflexivity|]. f_equal. apply IH.
      intros q Hq. apply Hnone. now right.
    + intros p Hin. symmetry. apply Hsel. auto.
Qed.

Lemma deletePoll_by_id_removes_own_rows_only_witness :
  polls (final (run (deletePoll_by_id (lit "p-1")) (world credentials (signed_in bob)))) =
  [lunch] /\
  polls (final (run (deletePoll_by_id (lit "p-1")) (world credentials (signed_in alice)))) = [].
Proof.
  split.
  - apply (@deletePoll_by_id_removes_own_rows_only (world credentials (signed_in bob))
             (lit "p-1") bob).
    + vm_compute; auto.
    + split; reflexivity.
    + reflexivity.
    + intros p [<-|[]]. right. vm_compute. discriminate.
  - destruct (@deletePoll_by_id_removes_own_rows_only (world credentials (signed_in alice))
                (lit "p-1") alice) as (_ & _ & Hleft & _).
    + vm_compute; auto.
    + split; reflexivity.
    + reflexivity.
    + destruct (polls (final (run (deletePoll_by_id (lit "p-1"))
                                (world credentials (signed_in alice))))) as [|p l];
        [reflexivity|].
      exfalso. destruct (proj1 (Hleft p) (or_introl eq_refl)) as [[<-|[]] [H|H]];
        apply H; reflexivity.
Defined.

Lemma deletePoll_quiet (pollId : jsstring) (t : list Event) (o : Outcome ActionResult) :
  exec (deletePoll pollId) t o ->
  quiet t /\ writes t = [] /\ o <> Returned (ErrorResult None).
Proof.
  unfold deletePoll, createClient, createServerClient, getEnvVariable. intros H.
  exec_inv H; repeat split; discriminate.
Qed.

(** X9.  [deletePoll] of the documented file can delete nothing: for every
    world, caller and poll id, and whatever the backend replies, it makes no
    write and never reports success; it returns an [{error}] value with a
    message or throws, and the world is left exactly as it was. *)
Theorem deletePoll_never_deletes (pollId : jsstring) :
  (forall t o, exec (deletePoll pollId) t o ->
               writes t = [] /\ o <> Returned (ErrorResult None)) /\
  (forall w, final (run (deletePoll pollId) w) = w /\
             ((exists message,
                 outcome (run (deletePoll pollId) w) = Returned (ErrorResult (Some message))) \/
              (exists e, outcome (run (deletePoll pollId) w) = Thrown e))).
Proof.
  split.
  - intros t o H. now apply deletePoll_quiet in H.
  - intros w. pose proof (run_exec (deletePoll pollId) w) as H.
    split; [apply run_quiet; now apply deletePoll_quiet in H|].
    revert H. generalize (trace (run (deletePoll pollId) w)).
    generalize (outcome (run (deletePoll pollId) w)).
    unfold deletePoll, createClient, createServerClient, getEnvVariable. intros o t H.
    exec_inv H; eauto.
Qed.

(** ** Listing the caller's polls *)






(** ** Voting *)

Lemma unconfigured_run (R : Type) (f : Client -> Prog R) (w : World) :
  ~ configured w -> exists e, outcome (run (bind createClient f) w) = Thrown e.
Proof.
  intros Hno. rewrite run_bind. unfold createClient, createServerClient, getEnvVariable.
  cbn [bind run respond outcome].
  destruct (unset (assoc NEXT_PUBLIC_SUPABASE_URL (env w))) eqn:Hu; [cbn; eauto|].
  cbn [bind run respond outcome].
  destruct (unset (assoc NEXT_PUBLIC_SUPABASE_ANON_KEY (env w))) eqn:Hk; [cbn; eauto|].
  cbn [bind run respond outcome].
  destruct (client_refused w _ _) as [e|] eqn:Hc; [cbn; eauto|].
  exfalso. apply Hno. split; [split; assumption | exact Hc].
Qed.



(** A world whose votes table holds exactly one vote of the caller on the
    poll: both implementations refuse and change nothing. *)
Lemma run_already_voted (w : World) (pollId : jsstring) (who : User) (row : VoteRow)
    (optionIndex : Z) (optionId : jsstring) :
  configured w -> signed_in_as w who -> outage w votes_table = None ->
  filter (vote_of pollId (u_id who)) (votes w) = [row] ->
  (outcome (run (submitVote_index pollId optionIndex) w) = Returned already_voted /\
   final (run (submitVote_index pollId optionIndex) w) = w) /\
  (outcome (run (submitVote pollId optionId) w) = Returned already_voted /\
   final (run (submitVote pollId optionId) w) = w).
Proof.
  intros Hconf [Hwho Herr] Hup Hrow. unfold submitVote_index, submitVote.
  rewrite !(run_with_client _ Hconf).
  cbn [run respond outcome trace final]. rewrite Hwho, Herr.
  cbn [run respond outcome trace final]. unfold query. rewrite Hup, Hrow.
  cbn. repeat split.
Qed.






Lemma count_vote_unmatched (optionId : jsstring) (options : list OptionJson) :
  (forall o, In o options -> has_option_id optionId o = false) ->
  map (count_vote optionId) options = options.
Proof.
  induction options as [|o options IH]; simpl; [reflexivity|]. intros H.
  rewrite IH by (intros; apply H; now right). f_equal.
  specialize (H o (or_introl eq_refl)). destruct o as [text|o]; [reflexivity|].
  simpl in *. now rewrite H.
Qed.

Lemma filter_nil_existsb (A : Type) (f : A -> bool) (l : list A) :
  filter f l = [] -> existsb f l = false.
Proof.
  induction l as [|x l IH]; simpl; [reflexivity|].
  destruct (f x); simpl; [discriminate | exact IH].
Qed.

Lemma filter_cons_existsb (A : Type) (f : A -> bool) (l : list A) (x : A) (rest : list A) :
  filter f l = x :: rest -> existsb f l = true.
Proof.
  induction l as [|y l IH]; simpl; [discriminate|].
  destruct (f y); simpl; [reflexivity | exact IH].
Qed.

Lemma set_options_same (p : PollRow) : set_options (p_options p) p = p.
Proof. now destruct p. Qed.

(** An integer below 2^53 in magnitude is a double. *)
Lemma nearest_double_exact (z : Z) : (Z.abs z < 2 ^ 53)%Z -> nearest_double z = z.
Proof.
  intros H. unfold nearest_double.
  assert (Hlog : (Z.log2 (Z.abs z) - 52 <= 0)%Z).
  { destruct (Z.eq_dec (Z.abs z) 0) as [->|Hnz]; [simpl; lia|].
    assert (Z.log2 (Z.abs z) < 53)%Z by (apply Z.log2_lt_pow2; lia). lia. }
  apply Z.leb_le in Hlog. now rewrite Hlog.
Qed.

(** Below 2^53 the counter goes up by one; at 2^53 it stays where it is. *)
Lemma bump_counts (n : Z) :
  (0 <= n < 2 ^ 53)%Z -> bump (Some n) = Some (n + 1)%Z.
Proof.
  intros Hn. unfold bump.
  assert (Hbig : (2 ^ 53 < 2 ^ 1024)%Z) by (apply Z.pow_lt_mono_r; lia).
  rewrite nearest_double_exact by lia. cbv zeta.
  assert (Hfin : (Z.abs n <? 2 ^ 1024)%Z = true) by (apply Z.ltb_lt; lia).
  rewrite Hfin. f_equal.
  destruct (Z.eq_dec (n + 1) (2 ^ 53)) as [->|Hne]; [reflexivity|].
  apply nearest_double_exact. lia.
Qed.

Lemma bump_stalls : bump (Some (2 ^ 53)%Z) = Some (2 ^ 53)%Z.
Proof. reflexivity. Qed.

(** What an accepted id-based vote leaves in the world. *)
Lemma run_submitVote_accepted (w : World) (pollId optionId : jsstring) (who : User)
    (p : PollRow) :
  configured w -> signed_in_as w who ->
  outage w votes_table = None -> outage w polls_table = None ->
  filter (vote_of pollId (u_id who)) (votes w) = [] ->
  filter (poll_has_id pollId) (polls w) = [p] ->
  let r := run (submitVote pollId optionId) w in
  outcome r = Returned SuccessResult /\
  votes (final r) = votes w ++ [vote_by_id pollId (u_id who) optionId] /\
  polls (final r) =
  map (fun q => if poll_has_id pollId q && poll_owned_by (u_id who) q
                then set_options (map (count_vote optionId) (p_options p)) q else q)
    (polls w) /\
  revalidated (final r) = revalidated w ++ [lit "/polls/" ++ pollId].
Proof.
  intros Hconf [Hwho Herr] Hup Hpolls Hrows Hfound r. subst r. unfold submitVote.
  pose proof (@filter_nil_existsb _ _ _ Hrows) as Hex.
  pose proof (@filter_cons_existsb _ _ _ _ _ Hfound) as Hpoll.
  pose proof (caller_is_self _ Hwho) as Hself.
  rewrite (run_with_client _ Hconf). cbn [run respond outcome final].
  rewrite Herr, Hwho.
  repeat (cbn [run respond outcome final single failed data reply_error map
               v_poll_id v_user_id outage votes polls with_votes with_polls negb];
          unfold query; rewrite ?Hup, ?Hpolls, ?Hrows, ?Hfound, ?Hex, ?Hself, ?Hpoll).
  split; [reflexivity|]. split; [reflexivity|]. split; [|reflexivity].
  cbn [polls with_revalidated with_polls]. apply map_ext. intros q.
  assert (Hown : own_poll (with_votes w (votes w ++ [vote_by_id pollId (u_id who) optionId])) q
                 = poll_owned_by (u_id who) q) by now apply own_poll_owned.
  unfold vote_by_id in Hown. now rewrite Hown.
Qed.

(** X12.  An accepted id-based vote (backend configured and answering, the
    caller signed in and without a vote on the poll, the poll stored once)
    returns [{success: true}] and appends the caller's vote row.  When the
    caller owns the poll, the poll's options are replaced by the options
    with the counter of every option bearing the chosen id raised: by one
    for a counter from 0 to below 2^53, a missing counter counting as 0,
    while a counter at 2^53 stays where it is.  When the caller does not own
    the poll, the store's owner-only policy leaves the update without
    effect: the vote is recorded, success is reported, and no counter moves.
    Polls with another id stay as they are.  When no option bears the id,
    as is the case for every poll whose options are the plain strings
    [createPoll] stores, the polls table is left as it was. *)
Theorem submitVote_counts_matching_options (w : World) (pollId optionId : jsstring)
    (who : User) (p : PollRow) :
  configured w -> signed_in_as w who ->
  outage w votes_table = None -> outage w polls_table = None ->
  filter (vote_of pollId (u_id who)) (votes w) = [] ->
  filter (poll_has_id pollId) (polls w) = [p] ->
  let r := run (submitVote pollId optionId) w in
  let updated := map (count_vote optionId) (p_options p) in
  outcome r = Returned SuccessResult /\
  votes (final r) = votes w ++ [vote_by_id pollId (u_id who) optionId] /\
  (p_user_id p = u_id who ->
   filter (poll_has_id pollId) (polls (final r)) = [set_options updated p]) /\
  (p_user_id p <> u_id who -> polls (final r) = polls w) /\
  (forall q, p_id q <> pollId -> (In q (polls (final r)) <-> In q (polls w))) /\
  (forall o n,
     In (OptObject o) (p_options p) -> opt_id o = optionId -> opt_votes o = Some n ->
     ((0 <= n < 2 ^ 53)%Z ->
      In (OptObject {| opt_id := opt_id o; opt_text := opt_text o;
                       opt_votes := Some (n + 1)%Z |}) updated) /\
     (n = (2 ^ 53)%Z -> In (OptObject o) updated)) /\
  (forall o,
     In (OptObject o) (p_options p) -> opt_id o = optionId -> opt_votes o = None ->
     In (OptObject {| opt_id := opt_id o; opt_text := opt_text o;
                      opt_votes := Some 1%Z |}) updated) /\
  ((forall o, In o (p_options p) -> has_option_id optionId o = false) ->
   polls (final r) = polls w) /\
  (forall texts, p_options p = map OptString texts -> polls (final r) = polls w).
Proof.
  intros Hconf Hwho Hup Hpolls Hrows Hfound r updated.
  destruct (@run_submitVote_accepted w pollId optionId who p Hconf Hwho Hup Hpolls Hrows Hfound)
    as (Hout & Hvotes & Hp & _).
  fold r in Hout, Hvotes, Hp. fold updated in Hp.
  assert (Honly : forall q, In q (polls w) -> poll_has_id pollId q = true -> q = p).
  { intros q Hin Hq. assert (Hf : In q (filter (poll_has_id pollId) (polls w)))
      by (apply filter_In; auto).
    rewrite Hfound in Hf. destruct Hf as [<-|[]]. reflexivity. }
  assert (Hunmatched : (forall o, In o (p_options p) -> has_option_id optionId o = false) ->
                       polls (final r) = polls w).
  { intros Hno. rewrite Hp. unfold updated. rewrite (@count_vote_unmatched _ _ Hno).
    rewrite <- (map_id (polls w)) at 2. apply map_ext_in. intros q Hin.
    destruct (poll_has_id pollId q) eqn:Hq; [|reflexivity].
    rewrite (Honly q Hin Hq). destruct (poll_owned_by _ _); [apply set_options_same|].
    reflexivity. }
  assert (Hcounted : forall o, In (OptObject o) (p_options p) -> opt_id o = optionId ->
                               In (OptObject {| opt_id := opt_id o; opt_text := opt_text o;
                                                opt_votes := bump (opt_votes o) |}) updated).
  { intros o Hin Hid. unfold updated. apply in_map_iff. exists (OptObject o).
    split; [|assumption]. cbn [count_vote]. now rewrite (proj2 (str_eqb_eq _ _) Hid). }
  split; [exact Hout|]. split; [exact Hvotes|]. split.
  { intros Howner. rewrite Hp. clear Hp Hout Hvotes Hunmatched. revert Hfound Honly.
    induction (polls w) as [|q l IH]; cbn [filter map]; [discriminate|]. intros Hfound Honly.
    destruct (poll_has_id pollId q) eqn:Hq.
    - assert (q = p) by (apply Honly; [now left | assumption]). subst q.
      injection Hfound as Hrest.
      assert (Hown : poll_owned_by (u_id who) p = true) by now apply str_eqb_eq.
      rewrite Hown. cbn [andb].
      assert (Hid : poll_has_id pollId (set_options updated p) = true) by exact Hq.
      rewrite Hid. f_equal.
      assert (Hnone : forall x, In x l -> poll_has_id pollId x && poll_owned_by (u_id who) x
                                          = false).
      { intros x Hx. destruct (poll_has_id pollId x) eqn:E; [|reflexivity].
        assert (In x (filter (poll_has_id pollId) l)) by (apply filter_In; auto).
        rewrite Hrest in H. contradiction. }
      rewrite map_unselected by assumption. exact Hrest.
    - cbn [andb]. rewrite Hq. apply IH; [assumption|]. intros x Hx. apply Honly. now right. }
  split.
  { intros Hother. rewrite Hp. rewrite <- (map_id (polls w)) at 2. apply map_ext_in.
    intros q Hin. destruct (poll_has_id pollId q) eqn:Hq; [|reflexivity].
    rewrite (Honly q Hin Hq).
    assert (Hown : poll_owned_by (u_id who) p = false) by now apply str_eqb_neq.
    now rewrite Hown. }
  split.
  { intros q Hq. rewrite Hp. apply str_eqb_neq in Hq. split.
    - intros Hin. apply in_map_iff in Hin. destruct Hin as (x & Hx & Hin).
      destruct (poll_has_id pollId x && poll_owned_by (u_id who) x) eqn:E.
      + apply andb_true_iff in E. destruct E as [E _].
        subst q. unfold poll_has_id in E. unfold set_options, set_question_options in Hq.
        simpl in Hq. unfold poll_has_id in Hq. congruence.
      + now subst x.
    - intros Hin. apply in_map_iff. exists q. unfold poll_has_id at 1. now rewrite Hq. }
  split.
  { intros o n Hin Hid Hn. specialize (Hcounted o Hin Hid). rewrite Hn in Hcounted. split.
    - intros Hrange. now rewrite (bump_counts Hrange) in Hcounted.
    - intros ->. rewrite bump_stalls in Hcounted. destruct o as [i t v]. simpl in *.
      now rewrite Hn. }
  split.
  { intros o Hin Hid Hn. specialize (Hcounted o Hin Hid). now rewrite Hn in Hcounted. }
  split; [exact Hunmatched|].
  intros texts Htexts. apply Hunmatched.
  intros o Hin. rewrite Htexts in Hin. apply in_map_iff in Hin.
  destruct Hin as (t & <- & _). reflexivity.
Qed.

Lemma submitVote_counts_matching_options_witness :
  (outcome (run (submitVote (lit "p-1") (lit "o-1")) (world credentials (signed_in alice))) =
   Returned SuccessResult /\
   filter (poll_has_id (lit "p-1"))
     (polls (final (run (submitVote (lit "p-1") (lit "o-1"))
                      (world credentials (signed_in alice))))) =
   [set_options (map (count_vote (lit "o-1")) (p_options lunch)) lunch]) /\
  polls (final (run (submitVote (lit "p-1") (lit "o-1"))
                  (world credentials (signed_in bob)))) = [lunch].
Proof.
  assert (Ha : configured (world credentials (signed_in alice))) by (vm_compute; auto).
  assert (Hb : configured (world credentials (signed_in bob))) by (vm_compute; auto).
  split.
  - pose proof (@submitVote_counts_matching_options (world credentials (signed_in alice))
                  (lit "p-1") (lit "o-1") alice lunch Ha (conj eq_refl eq_refl)
                  eq_refl eq_refl eq_refl eq_refl) as H.
    cbv zeta in H. destruct H as (Hout & _ & Howner & _).
    split; [exact Hout | apply Howner; reflexivity].
  - pose proof (@submitVote_counts_matching_options (world credentials (signed_in bob))
                  (lit "p-1") (lit "o-1") bob lunch Hb (conj eq_refl eq_refl)
                  eq_refl eq_refl eq_refl eq_refl) as H.
    cbv zeta in H. destruct H as (_ & _ & _ & Hother & _).
    apply Hother. vm_compute. discriminate.
Defined.




(** ** Signing in, and the caller's role *)

Lemma run_try_catch (A : Type) (p : Prog A) (handler : JsError -> Prog A) (w : World) :
  run (try_catch p handler) w =
  match outcome (run p w) with
  | Returned a => run p w
  | Thrown e =>
      let r := run (handler e) (final (run p w)) in
      {| outcome := outcome r; trace := trace (run p w) ++ trace r; final := final r |}
  end.
Proof.
  revert w; induction p as [a|e|X c k IH]; intros w; simpl.
  - reflexivity.
  - now destruct (run (handler e) w).
  - destruct (respond c w) as [x w']. simpl. rewrite IH.
    now destruct (run (k x) w') as [[a|e] t f].
Qed.

Ltac exec_inv_try H :=
  repeat (cbn [bind exec try_catch] in H;
          match type of H with
          | exists _, _ =>
              let x := fresh "x" in
              let t := fresh "t" in
              destruct H as (x & t & -> & H)
          | _ /\ _ => destruct H as [-> ->]
          | context [match ?x with _ => _ end] => destruct x eqn:?
          end).

(** X14.  [login] never throws, whatever the environment holds and the
    backend replies: it always returns an [{error}] value.  With the backend
    configured, that is with the credentials set and accepted by the client
    library, it is the identity provider's message, or [null] when the
    provider accepts; when a credential is missing or the client library
    refuses them, it is the service-unavailable message.  It makes no
    write. *)
Theorem login_never_throws (data : LoginFormData) :
  (forall t o, exec (login data) t o -> (exists error, o = Returned (ErrorResult error)) /\
                                         writes t = []) /\
  (forall w,
     configured w ->
     outcome (run (login data) w) =
     Returned (auth_result (signIn w (login_email data) (login_password data)))) /\
  (forall w,
     ~ configured w ->
     outcome (run (login data) w) =
     Returned (ErrorResult (Some (lit
       "Authentication service unavailable. Please check your Supabase configuration.")))).
Proof.
  split; [|split].
  - intros t o H. unfold login, createClient, createServerClient, getEnvVariable, auth_result in H.
    exec_inv_try H; split; eauto; try discriminate.
    all: destruct x3; eauto.
  - intros w Hconf. unfold login. rewrite run_try_catch, (run_with_client _ Hconf).
    cbn [run respond outcome]. now destruct (signIn w _ _).
  - intros w Hno. unfold login. rewrite run_try_catch.
    match goal with
    | |- context [run (bind createClient ?f) w] =>
        destruct (unconfigured_run f Hno) as [e He]
    end.
    rewrite He. reflexivity.
Qed.

Lemma login_never_throws_witness :
  outcome (run (login returning) (world credentials anonymous)) = Returned (ErrorResult None) /\
  outcome (run (login returning) (world [] anonymous)) =
  Returned (ErrorResult (Some (lit
    "Authentication service unavailable. Please check your Supabase configuration."))) /\
  outcome (run (login returning) (world malformed_credentials anonymous)) =
  Returned (ErrorResult (Some (lit
    "Authentication service unavailable. Please check your Supabase configuration."))).
Proof.
  split; [|split].
  - apply (proj1 (proj2 (login_never_throws returning)) (world credentials anonymous)).
    vm_compute; auto.
  - apply (proj2 (proj2 (login_never_throws returning)) (world [] anonymous)).
    intros [[H _] _]. vm_compute in H. discriminate.
  - apply (proj2 (proj2 (login_never_throws returning))
             (world malformed_credentials anonymous)).
    intros [_ H]. vm_compute in H. discriminate.
Defined.

Lemma run_getUserRole (w : World) (userId : jsstring) :
  configured w ->
  run (getUserRole userId) w =
  {| outcome := Returned (role_or_user (role_reply w userId));
     trace := trace (run (getUserRole userId) w);
     final := w |}.
Proof.
  intros Hconf. unfold getUserRole. rewrite (run_with_client _ Hconf).
  cbn [run respond outcome trace final]. fold (role_reply w userId). unfold role_or_user.
  destruct (reply_error (role_reply w userId)); [reflexivity|].
  now destruct (data (role_reply w userId)).
Qed.

Lemma role_or_user_admin (r : Reply jsstring) :
  str_eqb (role_or_user r) (lit "admin") = is_admin_reply r.
Proof.
  unfold role_or_user, is_admin_reply.
  destruct (reply_error r); [reflexivity|]. now destruct (data r).
Qed.

Lemma run_isAdmin (name : User -> option jsstring) (w : World) :
  configured w ->
  outcome (run (isAdmin name) w) =
  Returned match user (session w) with
           | Some who => is_admin_reply (role_reply w (u_id who))
           | None => false
           end /\
  final (run (isAdmin name) w) = w.
Proof.
  intros Hconf. unfold isAdmin, getCurrentUserWithRole.
  rewrite run_bind, (run_with_client _ Hconf). cbn [run respond outcome trace final].
  destruct (user (session w)) as [who|]; [|split; reflexivity].
  rewrite run_bind, (run_getUserRole _ Hconf). cbn [run outcome trace final uwr_role].
  rewrite role_or_user_admin. split; reflexivity.
Qed.

(** X15.  With the backend configured, that is with the credentials set
    and accepted by the client library, [getUserRole] returns: the role of
    the single row the role table holds for the user, and ['user'] when the
    table fails or holds no single row; what it returns is ['admin'] exactly
    when the role lookup yields admin.  [isAdmin] then returns [true]
    exactly when a caller is resolved whose role lookup yields admin, which
    is exactly when [checkAdminAccess] lets a request of that caller go on.
    Both leave the world as it was.  When a credential is missing or the
    client library refuses them, [getUserRole] and [isAdmin] throw. *)
Theorem isAdmin_agrees_with_admin_route (name : User -> option jsstring) (w : World)
    (request : NextRequest) :
  (configured w ->
   (forall who,
      exists role,
        outcome (run (getUserRole (u_id who)) w) = Returned role /\
        final (run (getUserRole (u_id who)) w) = w /\
        (role = lit "admin" <-> role_lookup_yields_admin w who) /\
        ((outage w user_roles_table <> None \/
          filter (role_of (u_id who)) (user_roles w) = []) -> role = lit "user")) /\
   exists (b : bool) (response : NextResponse),
     outcome (run (isAdmin name) w) = Returned b /\
     final (run (isAdmin name) w) = w /\
     outcome (run (checkAdminAccess request) w) = Returned response /\
     (b = true <-> caller_is_admin w) /\
     (b = true <-> exists request', kind response = next request')) /\
  (~ configured w ->
   (forall userId, exists e, outcome (run (getUserRole userId) w) = Thrown e) /\
   exists e, outcome (run (isAdmin name) w) = Thrown e).
Proof.
  split.
  - intros Hconf. split.
    + intros who. eexists. rewrite (run_getUserRole _ Hconf). cbn [outcome final].
      split; [reflexivity|]. split; [reflexivity|]. split.
      * rewrite <- is_admin_reply_iff, <- role_or_user_admin. symmetry. apply str_eqb_eq.
      * unfold role_or_user, role_reply, query.
        intros [Hout|Hnone].
        -- now destruct (outage w user_roles_table).
        -- rewrite Hnone. now destruct (outage w user_roles_table).
    + destruct (run_isAdmin name Hconf) as [Hb Hfinal].
      eexists _, _. split; [exact Hb|]. split; [exact Hfinal|].
      split; [apply (run_checkAdminAccess _ Hconf)|].
      unfold caller_is_admin.
      destruct (user (session w)) as [who|].
      * split.
        -- rewrite is_admin_reply_iff. split.
           ++ intros H. exists who. auto.
           ++ intros (who' & E & H). now injection E as <-.
        -- destruct (is_admin_reply (role_reply w (u_id who))).
           ++ split; [intros _; apply after_refresh_kind | reflexivity].
           ++ split; [discriminate | intros [r Hr]; discriminate Hr].
      * split.
        -- split; [discriminate | intros (who' & E & _); discriminate].
        -- split; [discriminate | intros [r Hr]; discriminate Hr].
  - intros Hno. split.
    + intros userId. unfold getUserRole. apply (unconfigured_run _ Hno).
    + unfold isAdmin, getCurrentUserWithRole. rewrite run_bind.
      match goal with
      | |- context [run (bind createClient ?f) w] =>
          destruct (unconfigured_run f Hno) as [e He]
      end.
      rewrite He. cbn. eauto.
Qed.

Lemma isAdmin_agrees_with_admin_route_witness :
  (exists role,
     outcome (run (getUserRole (u_id carol)) (world credentials (signed_in carol))) =
     Returned role /\
     final (run (getUserRole (u_id carol)) (world credentials (signed_in carol))) =
     world credentials (signed_in carol)) /\
  exists e,
    outcome (run (getUserRole (u_id carol)) (world malformed_credentials (signed_in carol))) =
    Thrown e.
Proof.
  split.
  - destruct (proj1 (@isAdmin_agrees_with_admin_route (fun _ => None)
                       (world credentials (signed_in carol)) admin_request))
      as [Hrole _]; [vm_compute; auto|].
    destruct (Hrole carol) as (role & Hr & Hf & _). eauto.
  - destruct (proj2 (@isAdmin_agrees_with_admin_route (fun _ => None)
                       (world malformed_credentials (signed_in carol)) admin_request))
      as [Hrole _]; [intros [_ H]; vm_compute in H; discriminate|].
    apply (Hrole (u_id carol)).
Defined.

(** ** The environment check *)

Lemma run_missing_among (keys : list jsstring) (w : World) :
  run (missing_among keys) w =
  {| outcome := Returned (filter (fun key => unset (assoc key (env w))) keys);
     trace := map (fun key => Ev (ProcessEnv key) (assoc key (env w))) keys;
     final := w |}.
Proof.
  induction keys as [|key keys IH]; [reflexivity|].
  cbn [missing_among run respond]. rewrite run_bind, IH. cbn.
  rewrite app_nil_r. now destruct (unset (assoc key (env w))).
Qed.

Lemma run_validateEnvVariables (w : World) :
  outcome (run validateEnvVariables w) =
  match missing_in w with
  | [] => Returned tt
  | _ :: _ => Thrown (Error (missing_message (missing_in w)))
  end /\
  final (run validateEnvVariables w) = w.
Proof.
  unfold validateEnvVariables. rewrite run_bind, run_missing_among.
  fold (missing_in w). cbn [outcome final trace].
  destruct (missing_in w); split; reflexivity.
Qed.

(** With the credentials set, both [createClient] end as the constructor of
    the client library does. *)
Lemma run_clients (w : World) :
  credentials_set w ->
  let built :=
    match client_refused w (supabaseUrl (client_of w)) (supabaseAnonKey (client_of w)) with
    | Some e => Thrown e
    | None => Returned (client_of w)
    end in
  outcome (run createClient w) = built /\ outcome (run createBrowserClient w) = built.
Proof.
  intros [Hu Hk].
  unfold createClient, createBrowserClient, createServerClient, getEnvVariable, client_of.
  cbn [bind run respond outcome supabaseUrl supabaseAnonKey]. rewrite Hu.
  cbn [bind run respond outcome]. rewrite Hk. cbn [bind run respond outcome].
  destruct (client_refused w _ _); split; reflexivity.
Qed.

(** X16.  [validateEnvVariables] returns exactly when each of the three
    required variables is set to a non-empty value; otherwise it throws an
    error whose message lists the unset or empty ones, in the order URL, anon
    key, service-role key, separated by a comma and a blank.  It tests
    nothing else: when it returns, [createClient] for the server and for the
    browser return the client built from the two public variables if the
    client library accepts them, and both throw the library's error if it
    refuses them, as it does for a URL that is none.  It changes nothing. *)
Theorem validateEnvVariables_guards_clients (w : World) :
  (outcome (run validateEnvVariables w) = Returned tt <->
   forall key, In key requiredEnvVars -> unset (assoc key (env w)) = false) /\
  (outcome (run validateEnvVariables w) <> Returned tt ->
   outcome (run validateEnvVariables w) =
   Thrown (Error (lit "Missing required environment variables: "
                  ++ Array_join (lit ", ") (missing_in w) ++ [10%N]
                  ++ lit "Please check your .env.local file and ensure all required variables are set."))) /\
  (outcome (run validateEnvVariables w) = Returned tt ->
   credentials_set w /\
   (configured w ->
    outcome (run createClient w) = Returned (client_of w) /\
    outcome (run createBrowserClient w) = Returned (client_of w)) /\
   (forall e,
      client_refused w (supabaseUrl (client_of w)) (supabaseAnonKey (client_of w)) = Some e ->
      outcome (run createClient w) = Thrown e /\
      outcome (run createBrowserClient w) = Thrown e)) /\
  final (run validateEnvVariables w) = w.
Proof.
  destruct (run_validateEnvVariables w) as [Hout Hfinal]. rewrite Hout.
  assert (Hiff : missing_in w = [] <->
                 forall key, In key requiredEnvVars -> unset (assoc key (env w)) = false).
  { unfold missing_in. split.
    - intros H key Hin. destruct (unset (assoc key (env w))) eqn:E; [|reflexivity].
      assert (Hm : In key (filter (fun key => unset (assoc key (env w))) requiredEnvVars))
        by (apply filter_In; auto).
      rewrite H in Hm. contradiction.
    - intros H. apply filter_none. exact H. }
  split; [|split; [|split; [|exact Hfinal]]].
  - rewrite <- Hiff. destruct (missing_in w); split; congruence.
  - destruct (missing_in w); [congruence | reflexivity].
  - intros Hok. assert (Hnone : missing_in w = []) by (destruct (missing_in w); congruence).
    pose proof (proj1 Hiff Hnone) as Hall.
    assert (Hset : credentials_set w).
    { split; apply Hall; simpl; auto. }
    pose proof (run_clients Hset) as Hrun. cbv zeta in Hrun.
    split; [exact Hset|]. split.
    + intros [_ Hc]. now rewrite Hc in Hrun.
    + intros e He. now rewrite He in Hrun.
Qed.

Lemma validateEnvVariables_guards_clients_witness :
  outcome (run validateEnvVariables (world credentials anonymous)) =
  Thrown (Error (lit "Missing required environment variables: SUPABASE_SERVICE_ROLE_KEY"
                 ++ [10%N]
                 ++ lit "Please check your .env.local file and ensure all required variables are set.")) /\
  outcome (run validateEnvVariables (world malformed_credentials anonymous)) = Returned tt /\
  outcome (run createClient (world malformed_credentials anonymous)) =
  Thrown (Error (lit "Invalid supabaseUrl: Must be a valid HTTP or HTTPS URL.")).
Proof.
  split; [|split].
  - apply (proj1 (proj2 (validateEnvVariables_guards_clients (world credentials anonymous)))).
    vm_compute. discriminate.
  - reflexivity.
  - apply (proj1 (proj2 (proj2 (validateEnvVariables_guards_clients
             (world malformed_credentials anonymous))))).
    + reflexivity.
    + reflexivity.
Defined.

(** X17.  The start-up check never throws.  It ends the process, with code
    1, exactly when a required variable is missing and [NODE_ENV] is
    ['production']; in every other case the application goes on, missing
    variables or not.  The names of the missing variables are written to the
    console only when [NODE_ENV] is ['development']; otherwise a failure
    writes the one fixed line, and a success writes nothing. *)
Theorem env_startup_exits_in_production_only (w : World) :
  exists s,
    outcome (run env_startup w) = Returned s /\
    (exit_code s = Some 1%Z <->
     missing_in w <> [] /\ NODE_ENV_of w = Some (lit "production")) /\
    (exit_code s = None \/ exit_code s = Some 1%Z) /\
    (missing_in w <> [] -> NODE_ENV_of w <> Some (lit "development") ->
     console s =
     [console_error [lit "Environment variable validation failed. Check required variables."]]) /\
    (missing_in w <> [] -> NODE_ENV_of w = Some (lit "development") ->
     console s =
     [console_error [[10060%N] ++ lit " Environment variable validation failed:";
                     missing_message (missing_in w)]]) /\
    (missing_in w = [] -> NODE_ENV_of w <> Some (lit "development") -> console s = []).
Proof.
  unfold env_startup. rewrite run_try_catch, run_bind.
  destruct (run_validateEnvVariables w) as [Hout Hfinal]. rewrite Hout, Hfinal.
  assert (Hdev : forall v, NODE_ENV_is v (NODE_ENV_of w) = true <->
                           NODE_ENV_of w = Some (lit v)).
  { intros v. unfold NODE_ENV_is. destruct (NODE_ENV_of w) as [n|].
    - rewrite str_eqb_eq. split; congruence.
    - split; discriminate. }
  destruct (missing_in w) as [|k ks] eqn:Hmiss.
  - cbn [outcome final trace run respond]. fold (NODE_ENV_of w).
    destruct (NODE_ENV_is "development" (NODE_ENV_of w)) eqn:E;
      cbn; eexists; (split; [reflexivity|]); cbn;
      (split; [split; [discriminate | intros [H _]; congruence]|]);
      (split; [auto|]); (split; [congruence|]); (split; [congruence|]).
    + intros _ Hno. apply Hdev in E. contradiction.
    + reflexivity.
  - cbn [outcome final trace run respond]. fold (NODE_ENV_of w).
    destruct (NODE_ENV_is "development" (NODE_ENV_of w)) eqn:E;
      destruct (NODE_ENV_is "production" (NODE_ENV_of w)) eqn:P;
      cbn [outcome]; eexists; (split; [reflexivity|]); cbn [exit_code console js_message Error];
      repeat split; try discriminate; try congruence; auto;
      try (intros; apply Hdev; assumption);
      try (intros [_ H]; apply Hdev in H; congruence);
      try (intros _ H; apply Hdev in H; congruence);
      try (intros _ H; apply Hdev in E; congruence).
Qed.

Lemma env_startup_exits_in_production_only_witness :
  exists s,
    outcome (run env_startup (world [(lit "NODE_ENV", lit "production")] anonymous)) = Returned s /\
    exit_code s = Some 1%Z /\
    console s =
    [console_error [lit "Environment variable validation failed. Check required variables."]].
Proof.
  destruct (env_startup_exits_in_production_only
              (world [(lit "NODE_ENV", lit "production")] anonymous))
    as (s & Hs & Hexit & _ & Hquiet & _).
  exists s. split; [exact Hs|]. split.
  - apply Hexit. split; [vm_compute; discriminate | reflexivity].
  - apply Hquiet; vm_compute; discriminate.
Defined.

(** ** Password strength *)

Lemma test_app (class : N -> bool) (a b : jsstring) :
  test class (a ++ b) = test class a || test class b.
Proof. apply existsb_app. Qed.

Lemma test_exists (class : N -> bool) (password : jsstring) :
  test class password = true <-> exists c, In c password /\ class c = true.
Proof. apply existsb_exists. Qed.

(** X18.  [validatePasswordStrength] accepts a password exactly when it has
    at least 8 code units and holds an uppercase ASCII letter, a lowercase
    ASCII letter, an ASCII digit and one of the listed special characters;
    the answer carries an error message exactly when it is not valid.  The
    message is that of the first rule broken, in the order length,
    uppercase, lowercase, digit, special character.  A valid password stays
    valid whatever is put before or after it. *)
Theorem validatePasswordStrength_rules (password : jsstring) :
  let r := validatePasswordStrength password in
  (pw_isValid r = true <->
   8 <= length password /\
   (exists c, In c password /\ is_uppercase c = true) /\
   (exists c, In c password /\ is_lowercase c = true) /\
   (exists c, In c password /\ is_digit c = true) /\
   (exists c, In c password /\ is_special c = true)) /\
  (pw_isValid r = true <-> pw_error r = None) /\
  (length password < 8 ->
   pw_error r = Some (lit "Password must be at least 8 characters long")) /\
  (8 <= length password -> test is_uppercase password = false ->
   pw_error r = Some (lit "Password must contain at least one uppercase letter")) /\
  (8 <= length password -> test is_uppercase password = true ->
   test is_lowercase password = false ->
   pw_error r = Some (lit "Password must contain at least one lowercase letter")) /\
  (8 <= length password -> test is_uppercase password = true ->
   test is_lowercase password = true -> test is_digit password = false ->
   pw_error r = Some (lit "Password must contain at least one number")) /\
  (8 <= length password -> test is_uppercase password = true ->
   test is_lowercase password = true -> test is_digit password = true ->
   test is_special password = false ->
   pw_error r = Some (lit "Password must contain at least one special character")) /\
  (pw_isValid r = true ->
   forall before after,
     pw_isValid (validatePasswordStrength (before ++ password ++ after)) = true).
Proof.
  intros r.
  assert (Hshape : forall p,
    validatePasswordStrength p =
    if length p <? 8 then
      {| pw_isValid := false;
         pw_error := Some (lit "Password must be at least 8 characters long") |}
    else if negb (test is_uppercase p) then
      {| pw_isValid := false;
         pw_error := Some (lit "Password must contain at least one uppercase letter") |}
    else if negb (test is_lowercase p) then
      {| pw_isValid := false;
         pw_error := Some (lit "Password must contain at least one lowercase letter") |}
    else if negb (test is_digit p) then
      {| pw_isValid := false;
         pw_error := Some (lit "Password must contain at least one number") |}
    else if negb (test is_special p) then
      {| pw_isValid := false;
         pw_error := Some (lit "Password must contain at least one special character") |}
    else {| pw_isValid := true; pw_error := None |}) by reflexivity.
  assert (Hvalid : forall p,
    pw_isValid (validatePasswordStrength p) = true <->
    8 <= length p /\ test is_uppercase p = true /\ test is_lowercase p = true /\
    test is_digit p = true /\ test is_special p = true).
  { intros p. rewrite Hshape.
    destruct (length p <? 8) eqn:E8;
      [apply Nat.ltb_lt in E8; split; [discriminate | intros [H _]; lia]|].
    apply Nat.ltb_ge in E8.
    destruct (test is_uppercase p), (test is_lowercase p), (test is_digit p),
      (test is_special p); simpl; split; try discriminate; intuition congruence. }
  subst r. split; [|split].
  - rewrite Hvalid, !test_exists. reflexivity.
  - rewrite Hshape. destruct (length password <? 8); [split; discriminate|].
    destruct (test is_uppercase password), (test is_lowercase password),
      (test is_digit password), (test is_special password);
      simpl; split; congruence.
  - rewrite Hshape. repeat split.
    + intros H. apply Nat.ltb_lt in H. now rewrite H.
    + intros H8 Hu. apply Nat.ltb_ge in H8. now rewrite H8, Hu.
    + intros H8 Hu Hl. apply Nat.ltb_ge in H8. now rewrite H8, Hu, Hl.
    + intros H8 Hu Hl Hd. apply Nat.ltb_ge in H8. now rewrite H8, Hu, Hl, Hd.
    + intros H8 Hu Hl Hd Hs. apply Nat.ltb_ge in H8. now rewrite H8, Hu, Hl, Hd, Hs.
    + intros H before after. rewrite <- Hshape in H. apply Hvalid in H.
      destruct H as (H8 & Hu & Hl & Hd & Hs). apply Hvalid.
      rewrite !length_app, !test_app, Hu, Hl, Hd, Hs, !orb_true_r. simpl.
      repeat split; try reflexivity. lia.
Qed.

Lemma validatePasswordStrength_rules_witness :
  pw_error (validatePasswordStrength (lit "Passw0rd~")) =
  Some (lit "Password must contain at least one special character") /\
  pw_isValid (validatePasswordStrength (lit "x" ++ lit "Passw0rd!" ++ lit "y")) = true.
Proof.
  split.
  - apply (validatePasswordStrength_rules (lit "Passw0rd~")); try reflexivity.
    vm_compute; lia.
  - apply (validatePasswordStrength_rules (lit "Passw0rd!")). reflexivity.
Defined.

(** ** The pages *)










(** ** The vote button *)

Lemma handleVote_exec (pollId : jsstring) (state : VoteForm) (t : list Event)
    (o : Outcome (VoteForm * bool)) :
  exec (handleVote pollId state) t o ->
  exists after refreshed,
    o = Returned (after, refreshed) /\
    selectedOption after = selectedOption state /\
    (hasVoted state = true -> hasVoted after = true) /\
    (refreshed = true -> hasVoted after = true) /\
    (truthy (selectedOption state) = true -> isSubmitting after = false) /\
    (truthy (selectedOption state) = false -> after = state /\ refreshed = false /\ t = []).
Proof.
  unfold handleVote. destruct (truthy (selectedOption state)) eqn:Hsel.
  - unfold submitVote, createClient, createServerClient, getEnvVariable. intros H.
    exec_inv_try H; eexists _, _; (split; [reflexivity|]); cbn;
      repeat split; auto; discriminate.
  - intros [-> ->]. exists state, false. repeat split; auto; discriminate.
Qed.

(** X21.  [handleVote] never throws, whatever the server action does: an
    exception of [submitVote] ends as the message "Failed to submit vote.
    Please try again." in the form.  Without a selected option it does
    nothing at all and makes no call.  With one, it leaves [isSubmitting]
    false and the selection as it was; it never resets [hasVoted]; and it
    refreshes the page only when it sets [hasVoted].  A vote refused as a
    duplicate shows the duplicate-vote message and sets nothing. *)
Theorem handleVote_never_throws (pollId : jsstring) (state : VoteForm) :
  (forall t o,
     exec (handleVote pollId state) t o ->
     exists after refreshed,
       o = Returned (after, refreshed) /\
       selectedOption after = selectedOption state /\
       (hasVoted state = true -> hasVoted after = true) /\
       (refreshed = true -> hasVoted after = true) /\
       (truthy (selectedOption state) = true -> isSubmitting after = false) /\
       (truthy (selectedOption state) = false -> after = state /\ refreshed = false /\ t = [])) /\
  (forall w,
     truthy (selectedOption state) = true -> ~ configured w ->
     outcome (run (handleVote pollId state) w) =
     Returned ({| selectedOption := selectedOption state; hasVoted := hasVoted state;
                  isSubmitting := false;
                  form_error := Some (lit "Failed to submit vote. Please try again.") |},
               false)) /\
  (forall w chosen,
     selectedOption state = Some chosen -> chosen <> [] ->
     holds_vote_of_caller w pollId ->
     outcome (run (handleVote pollId state) w) =
     Returned ({| selectedOption := selectedOption state; hasVoted := hasVoted state;
                  isSubmitting := false;
                  form_error := Some (lit "You have already voted on this poll.") |},
               false) /\
     final (run (handleVote pollId state) w) = w).
Proof.
  split; [intros t o; apply handleVote_exec|]. split.
  - intros w Hsel Hno. unfold handleVote. rewrite Hsel.
    rewrite run_bind, run_try_catch, run_bind. unfold submitVote.
    match goal with
    | |- context [run (bind createClient ?f) w] =>
        destruct (unconfigured_run f Hno) as [e He]
    end.
    rewrite He. reflexivity.
  - intros w chosen Hsel Hne (Hconf & who & row & Hwho & Hup & Hrow).
    destruct (@run_already_voted w pollId who row 0%Z chosen Hconf Hwho Hup Hrow)
      as [_ [Hout Hfinal]].
    unfold handleVote. rewrite Hsel. cbn [truthy].
    assert (Hb : Boolean chosen = true) by (destruct chosen; [congruence | reflexivity]).
    rewrite Hb. rewrite run_bind, run_try_catch, run_bind, Hout, Hfinal.
    cbn. split; reflexivity.
Qed.

Lemma handleVote_never_throws_witness :
  outcome (run (handleVote (lit "p-1")
             {| selectedOption := Some (lit "o-1"); hasVoted := false; isSubmitting := false;
                form_error := None |}) (world [] (signed_in bob))) =
  Returned ({| selectedOption := Some (lit "o-1"); hasVoted := false; isSubmitting := false;
               form_error := Some (lit "Failed to submit vote. Please try again.") |}, false).
Proof.
  apply (proj1 (proj2 (handleVote_never_throws (lit "p-1")
           {| selectedOption := Some (lit "o-1"); hasVoted := false; isSubmitting := false;
              form_error := None |})) (world [] (signed_in bob))).
  - reflexivity.
  - intros [[H _] _]. vm_compute in H. discriminate.
Defined.

(** ** Operations that only read *)

(** X22.  Whatever the backend replies, the operations that look things up
    change nothing: [getPollById], [getCurrentUser], [getUserRole],
    [isAdmin], [checkAdminAccess] and the two pages make no write and
    invalidate no path, so the world they leave is the world they found. *)
Theorem lookups_change_nothing (id : jsstring) (name : User -> option jsstring)
    (request : NextRequest) :
  (forall t o, exec (getPollById id) t o -> quiet t) /\
  (forall t o, exec getCurrentUser t o -> quiet t) /\
  (forall t o, exec (getUserRole id) t o -> quiet t) /\
  (forall t o, exec (isAdmin name) t o -> quiet t) /\
  (forall t o, exec (checkAdminAccess request) t o -> quiet t) /\
  (forall t o, exec (EditPollPage id) t o -> quiet t) /\
  (forall t o, exec (PollDetailPage id) t o -> quiet t) /\
  (forall w,
     final (run (getPollById id) w) = w /\
     final (run getCurrentUser w) = w /\
     final (run (getUserRole id) w) = w /\
     final (run (isAdmin name) w) = w /\
     final (run (checkAdminAccess request) w) = w /\
     final (run (EditPollPage id) w) = w /\
     final (run (PollDetailPage id) w) = w).
Proof.
  assert (H1 : forall t o, exec (getPollById id) t o -> quiet t).
  { unfold getPollById, createClient, createServerClient, getEnvVariable. intros t o H.
    exec_inv H; reflexivity. }
  assert (H2 : forall t o, exec getCurrentUser t o -> quiet t).
  { unfold getCurrentUser, createClient, createServerClient, getEnvVariable. intros t o H.
    exec_inv H; reflexivity. }
  assert (H3 : forall t o, exec (getUserRole id) t o -> quiet t).
  { unfold getUserRole, createClient, createServerClient, getEnvVariable. intros t o H.
    exec_inv H; reflexivity. }
  assert (H4 : forall t o, exec (isAdmin name) t o -> quiet t).
  { unfold isAdmin, getCurrentUserWithRole, getUserRole, createClient, createServerClient, getEnvVariable.
    intros t o H. exec_inv H; reflexivity. }
  assert (H5 : forall t o, exec (checkAdminAccess request) t o -> quiet t).
  { unfold checkAdminAccess, createServerClient. intros t o H. exec_inv H; reflexivity. }
  assert (H6 : forall t o, exec (EditPollPage id) t o -> quiet t).
  { unfold EditPollPage, getPollById, createClient, createServerClient, getEnvVariable. intros t o H.
    exec_inv H; reflexivity. }
  assert (H7 : forall t o, exec (PollDetailPage id) t o -> quiet t).
  { unfold PollDetailPage, getPollById, createClient, createServerClient, getEnvVariable. intros t o H.
    exec_inv H; reflexivity. }
  repeat split; try assumption; apply run_quiet;
    [eapply H1 | eapply H2 | eapply H3 | eapply H4 | eapply H5 | eapply H6 | eapply H7];
    apply run_exec.
Qed.

(** ** Refreshed cookies on the way through *)

Lemma Map_set_fresh (V : Type) (key : V -> jsstring) (value : V) (entries : list V) :
  ~ In (key value) (map key entries) -> Map_set key value entries = entries ++ [value].
Proof.
  induction entries as [|entry entries IH]; cbn [Map_set map app]; [reflexivity|].
  intros Hno. destruct (str_eqb (key entry) (key value)) eqn:E.
  - apply str_eqb_eq in E. exfalso. apply Hno. now left.
  - f_equal. apply IH. intros H. apply Hno. now right.
Qed.

Lemma Map_set_keeps (V : Type) (key : V -> jsstring) (value kept : V) (entries : list V) :
  In kept entries -> key kept <> key value -> In kept (Map_set key value entries).
Proof.
  induction entries as [|entry entries IH]; cbn [Map_set]; [intros []|].
  intros [->|Hin] Hne.
  - apply str_eqb_neq in Hne. rewrite Hne. now left.
  - destruct (str_eqb (key entry) (key value)); right; auto.
Qed.

Lemma Map_set_in (V : Type) (key : V -> jsstring) (value : V) (entries : list V) :
  In value (Map_set key value entries).
Proof.
  induction entries as [|entry entries IH]; cbn [Map_set]; [now left|].
  destruct (str_eqb (key entry) (key value)); [now left | now right].
Qed.

Lemma response_cookies_set_all (cs : list Cookie) :
  forall (k : ResponseKind) (acc : list Cookie),
    NoDup (map c_name (acc ++ cs)) ->
    response_cookies (fold_left response_cookies_set cs {| kind := k; response_cookies := acc |})
    = acc ++ cs.
Proof.
  induction cs as [|c cs IH]; intros k acc Hnd; cbn [fold_left].
  - now rewrite app_nil_r.
  - unfold response_cookies_set at 2. cbn [kind response_cookies].
    assert (Hfresh : ~ In (c_name c) (map c_name acc)).
    { rewrite map_app in Hnd. cbn [map] in Hnd. apply NoDup_remove_2 in Hnd.
      intros H. apply Hnd. apply in_or_app. now left. }
    rewrite (Map_set_fresh _ _ _ Hfresh), IH by (now rewrite <- app_assoc).
    now rewrite <- app_assoc.
Qed.

Lemma request_cookies_kept (cs : list Cookie) :
  forall (request : NextRequest) (kv : jsstring * jsstring),
    In kv (cookies request) -> ~ In (fst kv) (map c_name cs) ->
    In kv (cookies (fold_left request_cookies_set cs request)).
Proof.
  induction cs as [|c cs IH]; intros request kv Hin Hno; cbn [fold_left]; [assumption|].
  apply IH.
  - unfold request_cookies_set. cbn [cookies]. apply Map_set_keeps; [assumption|].
    cbn [fst]. intros E. apply Hno. left. now symmetry.
  - intros H. apply Hno. now right.
Qed.

Lemma request_cookies_set_all (cs : list Cookie) :
  forall request : NextRequest,
    NoDup (map c_name cs) ->
    forall c, In c cs ->
              In (c_name c, c_value c) (cookies (fold_left request_cookies_set cs request)).
Proof.
  induction cs as [|c cs IH]; intros request Hnd x Hx; [contradiction|].
  cbn [fold_left]. cbn [map] in Hnd. inversion Hnd as [|? ? Hfresh Hrest]; subst.
  destruct Hx as [<-|Hx].
  - apply request_cookies_kept; [|exact Hfresh].
    unfold request_cookies_set. cbn [cookies]. apply Map_set_in.
  - now apply IH.
Qed.

(** X23.  When [checkAdminAccess] lets a request go on (backend configured,
    a caller resolved whose role lookup yields admin) and the session
    resolver refreshed the tokens, the response returned carries exactly the
    cookies of the resolver's last [setAll] call, in its order, provided
    their names differ; the forwarded request keeps its URL and holds each of
    those cookies with its new value.  When the resolver refreshed nothing the
    response is the plain [NextResponse.next] for the request. *)
Theorem checkAdminAccess_allow_carries_refresh (w : World) (request : NextRequest)
    (who : User) :
  configured w -> user (session w) = Some who -> role_lookup_yields_admin w who ->
  (forall earlier cs,
     cookiesToSet (session w) = earlier ++ [cs] -> NoDup (map c_name cs) ->
     exists forwarded,
       outcome (run (checkAdminAccess request) w) =
       Returned {| kind := next forwarded; response_cookies := cs |} /\
       nextUrl forwarded = nextUrl request /\
       forall c, In c cs -> In (c_name c, c_value c) (cookies forwarded)) /\
  (cookiesToSet (session w) = [] ->
   outcome (run (checkAdminAccess request) w) = Returned (NextResponse_next request)).
Proof.
  intros Hconf Hwho Hadm. rewrite (run_checkAdminAccess _ Hconf), Hwho.
  apply is_admin_reply_iff in Hadm. rewrite Hadm. unfold after_refresh. split.
  - intros earlier cs Hcalls Hnd. rewrite Hcalls, fold_left_app. cbn [fold_left].
    pose proof (setAll_nextUrl earlier (request, NextResponse_next request)) as Hurl.
    destruct (fold_left setAll earlier (request, NextResponse_next request))
      as [request' response'].
    cbn [fst] in Hurl. unfold setAll. cbn [fst snd].
    exists (fold_left request_cookies_set cs request'). split; [|split].
    + f_equal. unfold NextResponse_next.
      pose proof (@response_cookies_set_all cs
                    (next (fold_left request_cookies_set cs request')) [] Hnd) as Hcs.
      pose proof (response_cookies_set_kind cs
                    {| kind := next (fold_left request_cookies_set cs request');
                       response_cookies := [] |}) as Hk.
      destruct (fold_left response_cookies_set cs _) as [k' cookies'].
      cbn in *. now subst.
    + now rewrite request_cookies_set_nextUrl.
    + now apply request_cookies_set_all.
  - intros Hnone. now rewrite Hnone.
Qed.

Lemma checkAdminAccess_allow_carries_refresh_witness :
  exists forwarded,
    outcome (run (checkAdminAccess admin_request) (world credentials (refreshed carol))) =
    Returned {| kind := next forwarded; response_cookies := [fresh_token] |} /\
    nextUrl forwarded = nextUrl admin_request.
Proof.
  destruct (@checkAdminAccess_allow_carries_refresh (world credentials (refreshed carol))
              admin_request carol) as [Hrefresh _].
  - vm_compute; auto.
  - reflexivity.
  - split; [reflexivity|]. eexists. split; reflexivity.
  - destruct (Hrefresh [] [fresh_token]) as (forwarded & Hout & Hurl & _).
    + reflexivity.
    + repeat constructor. simpl. tauto.
    + exists forwarded. split; assumption.
Defined.

(** ** A failed counter update *)

Lemma submitVote_update_failed (pollId optionId : jsstring) (t : list Event)
    (o : Outcome ActionResult) :
  exec (submitVote pollId optionId) t o ->
  forall pid options e,
    In (pid, options, Some e) (options_updates t) ->
    o = Returned (ErrorResult (Some (pg_message e))) /\
    exists v, In (v, None) (vote_inserts t) /\ v_poll_id v = pollId /\
              v_option_id v = Some optionId.
Proof.
  unfold submitVote, createClient, createServerClient, getEnvVariable. intros H.
  exec_inv H;
    unfold options_updates, vote_inserts;
    cbn [flat_map options_update_of vote_insert_of app In];
    intros pid options e Hin;
    repeat match goal with
           | H : _ \/ _ |- _ => destruct H
           | H : False |- _ => destruct H
           | H : (_, _) = (_, _) |- _ => injection H as ? ?; subst
           end;
    try discriminate.
  split; [reflexivity|]. eexists. split; [left; reflexivity|]. split; reflexivity.
Qed.

(** X24.  The id-based [submitVote] does not undo the vote when the update
    of the counters fails: whatever the backend replies, a rejected update of
    the poll's options is answered with the update's error message, and by
    then the vote row has been inserted and accepted.  Such a run exists:
    the store accepts the insert and rejects the update. *)
Theorem submitVote_keeps_vote_when_update_fails (pollId optionId : jsstring) :
  (forall t o pid options e,
     exec (submitVote pollId optionId) t o ->
     In (pid, options, Some e) (options_updates t) ->
     o = Returned (ErrorResult (Some (pg_message e))) /\
     exists v, In (v, None) (vote_inserts t) /\ v_poll_id v = pollId /\
               v_option_id v = Some optionId) /\
  (forall (who : User) (options : list OptionJson) (e : PostgrestError),
     exists t,
       exec (submitVote pollId optionId) t (Returned (ErrorResult (Some (pg_message e)))) /\
       vote_inserts t = [(vote_by_id pollId (u_id who) optionId, None)] /\
       options_updates t = [(pollId, map (count_vote optionId) options, Some e)]).
Proof.
  split.
  - intros t o pid options e H. now apply submitVote_update_failed.
  - intros who options e.
    exists [Ev NextCookies tt;
            Ev (ProcessEnv NEXT_PUBLIC_SUPABASE_URL) (Some (lit "u"));
            Ev (ProcessEnv NEXT_PUBLIC_SUPABASE_ANON_KEY) (Some (lit "k"));
            Ev (CreateServerClient (lit "u") (lit "k")) None;
            Ev (GetUser {| supabaseUrl := lit "u"; supabaseAnonKey := lit "k" |})
               (signed_in who);
            Ev (SelectVote {| supabaseUrl := lit "u"; supabaseAnonKey := lit "k" |}
                  pollId (u_id who)) (failed PGRST116);
            Ev (SelectPollOptions {| supabaseUrl := lit "u"; supabaseAnonKey := lit "k" |}
                  pollId) {| data := Some options; reply_error := None |};
            Ev (InsertVote {| supabaseUrl := lit "u"; supabaseAnonKey := lit "k" |}
                  (vote_by_id pollId (u_id who) optionId)) None;
            Ev (UpdatePollOptions {| supabaseUrl := lit "u"; supabaseAnonKey := lit "k" |}
                  pollId (map (count_vote optionId) options)) (Some e)].
    split; [|split; reflexivity].
    unfold submitVote, createClient, createServerClient, getEnvVariable. cbn [bind exec].
    repeat (eexists; eexists; split; [reflexivity|]; cbn).
    split; reflexivity.
Qed.
